(** * Shallow embedding of the html-comic-reader-generator scripts

    The scripts are Python: [src/htmlc.py] and, under
    [src/manga-server/scripts/], [htmlcmb_v3.py] (reader generator),
    [htmlcmb_v3_virtualscroll.py] (windowed reader), [htmlcs_v4.py]
    (bookshelf generator) and [create_progressive_reader.py].

    Python text ([str]) is modelled as a list of Unicode code points
    ([pystr]); literals are written [u "..."].  Paths ([pathlib.Path]) are
    lists of components; [relative_to] is the lexical component prefix
    test that pathlib performs. *)

From Stdlib Require Import ZArith List String Ascii Bool Lia Permutation.
From Stdlib Require Import Numbers.DecimalString Sorting.Sorted.
Import ListNotations.

Open Scope Z_scope.
#[local] Set Warnings "-register-all".

(* ------------------------------------------------------------------ *)
(** ** Python strings *)

Definition pystr := list Z.

(** ASCII literal to code points. *)
Definition u (s : string) : pystr :=
  map (fun a => Z.of_nat (nat_of_ascii a)) (list_ascii_of_string s).

Fixpoint str_eqb (a b : pystr) : bool :=
  match a, b with
  | [], [] => true
  | x :: a', y :: b' => (x =? y) && str_eqb a' b'
  | _, _ => false
  end.

Lemma str_eqb_eq a b : str_eqb a b = true <-> a = b.
Proof.
  revert b; induction a as [|x a IH]; intros [|y b]; simpl;
    try (split; congruence).
  rewrite andb_true_iff, Z.eqb_eq, IH. split; [intros [-> ->]; reflexivity|].
  intros H; inversion H; auto.
Qed.

Lemma str_eqb_refl a : str_eqb a a = true.
Proof. apply str_eqb_eq; reflexivity. Qed.

(** [x in [s1; s2; ...]] for a Python set or list of strings. *)
Definition str_mem (x : pystr) (l : list pystr) : bool :=
  existsb (str_eqb x) l.

(** [str.startswith]. *)
Fixpoint startswith (s p : pystr) : bool :=
  match p, s with
  | [], _ => true
  | c :: p', d :: s' => (c =? d) && startswith s' p'
  | _ :: _, [] => false
  end.

(** [str.replace(old, new)]: left to right, non-overlapping. *)
Fixpoint replace_fuel (fuel : nat) (old new s : pystr) : pystr :=
  match fuel with
  | O => s
  | S fuel' =>
      match s with
      | [] => []
      | c :: s' =>
          if startswith s old
          then new ++ replace_fuel fuel' old new (skipn (List.length old) s)
          else c :: replace_fuel fuel' old new s'
      end
  end.

(** [old] is never empty at the call sites. *)
Definition py_replace (s old new : pystr) : pystr :=
  replace_fuel (S (List.length s)) old new s.

(** [str.split(sep)] for a one-character separator. *)
Fixpoint split_char (sep : Z) (s : pystr) : list pystr :=
  match s with
  | [] => [[]]
  | c :: s' =>
      if c =? sep then [] :: split_char sep s'
      else match split_char sep s' with
           | [] => [[c]]
           | w :: ws => (c :: w) :: ws
           end
  end.

(** [str.lstrip(c)] for one character. *)
Fixpoint lstrip_char (c : Z) (s : pystr) : pystr :=
  match s with
  | d :: s' => if d =? c then lstrip_char c s' else s
  | [] => []
  end.

(** [sep.join(parts)]. *)
Fixpoint join (sep : pystr) (parts : list pystr) : pystr :=
  match parts with
  | [] => []
  | [p] => p
  | p :: ps => p ++ sep ++ join sep ps
  end.

(** Decimal text of an [int]. *)
Definition z_to_pystr (z : Z) : pystr :=
  u (NilEmpty.string_of_int (Z.to_int z)).

(** Code points used below. *)
Definition DOT : Z := 46.
Definition SLASH : Z := 47.
Definition BACKSLASH : Z := 92.

(* ------------------------------------------------------------------ *)
(** ** Unicode character data *)

Definition in_range (lo hi c : Z) : bool := (lo <=? c) && (c <=? hi).

Definition in_ranges (c : Z) (rs : list (Z * Z)) : bool :=
  existsb (fun '(lo, hi) => in_range lo hi c) rs.

(** Python 3.11's Unicode database (Unicode 14.0.0), as its string methods
    use it.  [DECIMAL_RANGES]: the characters of [\d] (category Nd), which
    [int()] reads, as [(lo, hi, zero)] with value [c - zero]. *)

Definition DECIMAL_RANGES : list (Z * Z * Z) := [
  (48, 57, 48); (1632, 1641, 1632); (1776, 1785, 1776); (1984, 1993, 1984);
  (2406, 2415, 2406); (2534, 2543, 2534); (2662, 2671, 2662); (2790, 2799, 2790);
  (2918, 2927, 2918); (3046, 3055, 3046); (3174, 3183, 3174); (3302, 3311, 3302);
  (3430, 3439, 3430); (3558, 3567, 3558); (3664, 3673, 3664); (3792, 3801, 3792);
  (3872, 3881, 3872); (4160, 4169, 4160); (4240, 4249, 4240); (6112, 6121, 6112);
  (6160, 6169, 6160); (6470, 6479, 6470); (6608, 6617, 6608); (6784, 6793, 6784);
  (6800, 6809, 6800); (6992, 7001, 6992); (7088, 7097, 7088); (7232, 7241, 7232);
  (7248, 7257, 7248); (42528, 42537, 42528); (43216, 43225, 43216); (43264, 43273, 43264);
  (43472, 43481, 43472); (43504, 43513, 43504); (43600, 43609, 43600); (44016, 44025, 44016);
  (65296, 65305, 65296); (66720, 66729, 66720); (68912, 68921, 68912); (69734, 69743, 69734);
  (69872, 69881, 69872); (69942, 69951, 69942); (70096, 70105, 70096); (70384, 70393, 70384);
  (70736, 70745, 70736); (70864, 70873, 70864); (71248, 71257, 71248); (71360, 71369, 71360);
  (71472, 71481, 71472); (71904, 71913, 71904); (72016, 72025, 72016); (72784, 72793, 72784);
  (73040, 73049, 73040); (73120, 73129, 73120); (92768, 92777, 92768); (92864, 92873, 92864);
  (93008, 93017, 93008); (120782, 120791, 120782); (120792, 120801, 120792); (120802, 120811, 120802);
  (120812, 120821, 120812); (120822, 120831, 120822); (123200, 123209, 123200); (123632, 123641, 123632);
  (125264, 125273, 125264); (130032, 130041, 130032)
  ].

(** The characters for which [str.isdigit] holds (Numeric_Type Decimal
    or Digit). *)

Definition DIGIT_RANGES : list (Z * Z) := [
  (48, 57); (178, 179); (185, 185); (1632, 1641); (1776, 1785); (1984, 1993);
  (2406, 2415); (2534, 2543); (2662, 2671); (2790, 2799); (2918, 2927); (3046, 3055);
  (3174, 3183); (3302, 3311); (3430, 3439); (3558, 3567); (3664, 3673); (3792, 3801);
  (3872, 3881); (4160, 4169); (4240, 4249); (4969, 4977); (6112, 6121); (6160, 6169);
  (6470, 6479); (6608, 6618); (6784, 6793); (6800, 6809); (6992, 7001); (7088, 7097);
  (7232, 7241); (7248, 7257); (8304, 8304); (8308, 8313); (8320, 8329); (9312, 9320);
  (9332, 9340); (9352, 9360); (9450, 9450); (9461, 9469); (9471, 9471); (10102, 10110);
  (10112, 10120); (10122, 10130); (42528, 42537); (43216, 43225); (43264, 43273); (43472, 43481);
  (43504, 43513); (43600, 43609); (44016, 44025); (65296, 65305); (66720, 66729); (68160, 68163);
  (68912, 68921); (69216, 69224); (69714, 69722); (69734, 69743); (69872, 69881); (69942, 69951);
  (70096, 70105); (70384, 70393); (70736, 70745); (70864, 70873); (71248, 71257); (71360, 71369);
  (71472, 71481); (71904, 71913); (72016, 72025); (72784, 72793); (73040, 73049); (73120, 73129);
  (92768, 92777); (92864, 92873); (93008, 93017); (120782, 120831); (123200, 123209); (123632, 123641);
  (125264, 125273); (127232, 127242); (130032, 130041)
  ].

(** The Cased characters. *)

Definition CASED_RANGES : list (Z * Z) := [
  (65, 90); (97, 122); (170, 170); (181, 181); (186, 186); (192, 214);
  (216, 246); (248, 442); (444, 447); (452, 659); (661, 696); (704, 705);
  (736, 740); (837, 837); (880, 883); (886, 887); (890, 893); (895, 895);
  (902, 902); (904, 906); (908, 908); (910, 929); (931, 1013); (1015, 1153);
  (1162, 1327); (1329, 1366); (1376, 1416); (4256, 4293); (4295, 4295); (4301, 4301);
  (4304, 4346); (4349, 4351); (5024, 5109); (5112, 5117); (7296, 7304); (7312, 7354);
  (7357, 7359); (7424, 7615); (7680, 7957); (7960, 7965); (7968, 8005); (8008, 8013);
  (8016, 8023); (8025, 8025); (8027, 8027); (8029, 8029); (8031, 8061); (8064, 8116);
  (8118, 8124); (8126, 8126); (8130, 8132); (8134, 8140); (8144, 8147); (8150, 8155);
  (8160, 8172); (8178, 8180); (8182, 8188); (8305, 8305); (8319, 8319); (8336, 8348);
  (8450, 8450); (8455, 8455); (8458, 8467); (8469, 8469); (8473, 8477); (8484, 8484);
  (8486, 8486); (8488, 8488); (8490, 8493); (8495, 8500); (8505, 8505); (8508, 8511);
  (8517, 8521); (8526, 8526); (8544, 8575); (8579, 8580); (9398, 9449); (11264, 11492);
  (11499, 11502); (11506, 11507); (11520, 11557); (11559, 11559); (11565, 11565); (42560, 42605);
  (42624, 42653); (42786, 42887); (42891, 42894); (42896, 42954); (42960, 42961); (42963, 42963);
  (42965, 42969); (42997, 42998); (43000, 43002); (43824, 43866); (43868, 43880); (43888, 43967);
  (64256, 64262); (64275, 64279); (65313, 65338); (65345, 65370); (66560, 66639); (66736, 66771);
  (66776, 66811); (66928, 66938); (66940, 66954); (66956, 66962); (66964, 66965); (66967, 66977);
  (66979, 66993); (66995, 67001); (67003, 67004); (67456, 67456); (67459, 67461); (67463, 67504);
  (67506, 67514); (68736, 68786); (68800, 68850); (71840, 71903); (93760, 93823); (119808, 119892);
  (119894, 119964); (119966, 119967); (119970, 119970); (119973, 119974); (119977, 119980); (119982, 119993);
  (119995, 119995); (119997, 120003); (120005, 120069); (120071, 120074); (120077, 120084); (120086, 120092);
  (120094, 120121); (120123, 120126); (120128, 120132); (120134, 120134); (120138, 120144); (120146, 120485);
  (120488, 120512); (120514, 120538); (120540, 120570); (120572, 120596); (120598, 120628); (120630, 120654);
  (120656, 120686); (120688, 120712); (120714, 120744); (120746, 120770); (120772, 120779); (122624, 122633);
  (122635, 122654); (125184, 125251); (127280, 127305); (127312, 127337); (127344, 127369)
  ].

(** The Case_Ignorable characters. *)

Definition CASE_IGNORABLE_RANGES : list (Z * Z) := [
  (39, 39); (46, 46); (58, 58); (94, 94); (96, 96); (168, 168);
  (173, 173); (175, 175); (180, 180); (183, 184); (688, 879); (884, 885);
  (890, 890); (900, 901); (903, 903); (1155, 1161); (1369, 1369); (1375, 1375);
  (1425, 1469); (1471, 1471); (1473, 1474); (1476, 1477); (1479, 1479); (1524, 1524);
  (1536, 1541); (1552, 1562); (1564, 1564); (1600, 1600); (1611, 1631); (1648, 1648);
  (1750, 1757); (1759, 1768); (1770, 1773); (1807, 1807); (1809, 1809); (1840, 1866);
  (1958, 1968); (2027, 2037); (2042, 2042); (2045, 2045); (2070, 2093); (2137, 2139);
  (2184, 2184); (2192, 2193); (2200, 2207); (2249, 2306); (2362, 2362); (2364, 2364);
  (2369, 2376); (2381, 2381); (2385, 2391); (2402, 2403); (2417, 2417); (2433, 2433);
  (2492, 2492); (2497, 2500); (2509, 2509); (2530, 2531); (2558, 2558); (2561, 2562);
  (2620, 2620); (2625, 2626); (2631, 2632); (2635, 2637); (2641, 2641); (2672, 2673);
  (2677, 2677); (2689, 2690); (2748, 2748); (2753, 2757); (2759, 2760); (2765, 2765);
  (2786, 2787); (2810, 2815); (2817, 2817); (2876, 2876); (2879, 2879); (2881, 2884);
  (2893, 2893); (2901, 2902); (2914, 2915); (2946, 2946); (3008, 3008); (3021, 3021);
  (3072, 3072); (3076, 3076); (3132, 3132); (3134, 3136); (3142, 3144); (3146, 3149);
  (3157, 3158); (3170, 3171); (3201, 3201); (3260, 3260); (3263, 3263); (3270, 3270);
  (3276, 3277); (3298, 3299); (3328, 3329); (3387, 3388); (3393, 3396); (3405, 3405);
  (3426, 3427); (3457, 3457); (3530, 3530); (3538, 3540); (3542, 3542); (3633, 3633);
  (3636, 3642); (3654, 3662); (3761, 3761); (3764, 3772); (3782, 3782); (3784, 3789);
  (3864, 3865); (3893, 3893); (3895, 3895); (3897, 3897); (3953, 3966); (3968, 3972);
  (3974, 3975); (3981, 3991); (3993, 4028); (4038, 4038); (4141, 4144); (4146, 4151);
  (4153, 4154); (4157, 4158); (4184, 4185); (4190, 4192); (4209, 4212); (4226, 4226);
  (4229, 4230); (4237, 4237); (4253, 4253); (4348, 4348); (4957, 4959); (5906, 5908);
  (5938, 5939); (5970, 5971); (6002, 6003); (6068, 6069); (6071, 6077); (6086, 6086);
  (6089, 6099); (6103, 6103); (6109, 6109); (6155, 6159); (6211, 6211); (6277, 6278);
  (6313, 6313); (6432, 6434); (6439, 6440); (6450, 6450); (6457, 6459); (6679, 6680);
  (6683, 6683); (6742, 6742); (6744, 6750); (6752, 6752); (6754, 6754); (6757, 6764);
  (6771, 6780); (6783, 6783); (6823, 6823); (6832, 6862); (6912, 6915); (6964, 6964);
  (6966, 6970); (6972, 6972); (6978, 6978); (7019, 7027); (7040, 7041); (7074, 7077);
  (7080, 7081); (7083, 7085); (7142, 7142); (7144, 7145); (7149, 7149); (7151, 7153);
  (7212, 7219); (7222, 7223); (7288, 7293); (7376, 7378); (7380, 7392); (7394, 7400);
  (7405, 7405); (7412, 7412); (7416, 7417); (7468, 7530); (7544, 7544); (7579, 7679);
  (8125, 8125); (8127, 8129); (8141, 8143); (8157, 8159); (8173, 8175); (8189, 8190);
  (8203, 8207); (8216, 8217); (8228, 8228); (8231, 8231); (8234, 8238); (8288, 8292);
  (8294, 8303); (8305, 8305); (8319, 8319); (8336, 8348); (8400, 8432); (11388, 11389);
  (11503, 11505); (11631, 11631); (11647, 11647); (11744, 11775); (11823, 11823); (12293, 12293);
  (12330, 12333); (12337, 12341); (12347, 12347); (12441, 12446); (12540, 12542); (40981, 40981);
  (42232, 42237); (42508, 42508); (42607, 42610); (42612, 42621); (42623, 42623); (42652, 42655);
  (42736, 42737); (42752, 42785); (42864, 42864); (42888, 42890); (42994, 42996); (43000, 43001);
  (43010, 43010); (43014, 43014); (43019, 43019); (43045, 43046); (43052, 43052); (43204, 43205);
  (43232, 43249); (43263, 43263); (43302, 43309); (43335, 43345); (43392, 43394); (43443, 43443);
  (43446, 43449); (43452, 43453); (43471, 43471); (43493, 43494); (43561, 43566); (43569, 43570);
  (43573, 43574); (43587, 43587); (43596, 43596); (43632, 43632); (43644, 43644); (43696, 43696);
  (43698, 43700); (43703, 43704); (43710, 43711); (43713, 43713); (43741, 43741); (43756, 43757);
  (43763, 43764); (43766, 43766); (43867, 43871); (43881, 43883); (44005, 44005); (44008, 44008);
  (44013, 44013); (64286, 64286); (64434, 64450); (65024, 65039); (65043, 65043); (65056, 65071);
  (65106, 65106); (65109, 65109); (65279, 65279); (65287, 65287); (65294, 65294); (65306, 65306);
  (65342, 65342); (65344, 65344); (65392, 65392); (65438, 65439); (65507, 65507); (65529, 65531);
  (66045, 66045); (66272, 66272); (66422, 66426); (67456, 67461); (67463, 67504); (67506, 67514);
  (68097, 68099); (68101, 68102); (68108, 68111); (68152, 68154); (68159, 68159); (68325, 68326);
  (68900, 68903); (69291, 69292); (69446, 69456); (69506, 69509); (69633, 69633); (69688, 69702);
  (69744, 69744); (69747, 69748); (69759, 69761); (69811, 69814); (69817, 69818); (69821, 69821);
  (69826, 69826); (69837, 69837); (69888, 69890); (69927, 69931); (69933, 69940); (70003, 70003);
  (70016, 70017); (70070, 70078); (70089, 70092); (70095, 70095); (70191, 70193); (70196, 70196);
  (70198, 70199); (70206, 70206); (70367, 70367); (70371, 70378); (70400, 70401); (70459, 70460);
  (70464, 70464); (70502, 70508); (70512, 70516); (70712, 70719); (70722, 70724); (70726, 70726);
  (70750, 70750); (70835, 70840); (70842, 70842); (70847, 70848); (70850, 70851); (71090, 71093);
  (71100, 71101); (71103, 71104); (71132, 71133); (71219, 71226); (71229, 71229); (71231, 71232);
  (71339, 71339); (71341, 71341); (71344, 71349); (71351, 71351); (71453, 71455); (71458, 71461);
  (71463, 71467); (71727, 71735); (71737, 71738); (71995, 71996); (71998, 71998); (72003, 72003);
  (72148, 72151); (72154, 72155); (72160, 72160); (72193, 72202); (72243, 72248); (72251, 72254);
  (72263, 72263); (72273, 72278); (72281, 72283); (72330, 72342); (72344, 72345); (72752, 72758);
  (72760, 72765); (72767, 72767); (72850, 72871); (72874, 72880); (72882, 72883); (72885, 72886);
  (73009, 73014); (73018, 73018); (73020, 73021); (73023, 73029); (73031, 73031); (73104, 73105);
  (73109, 73109); (73111, 73111); (73459, 73460); (78896, 78904); (92912, 92916); (92976, 92982);
  (92992, 92995); (94031, 94031); (94095, 94111); (94176, 94177); (94179, 94180); (110576, 110579);
  (110581, 110587); (110589, 110590); (113821, 113822); (113824, 113827); (118528, 118573); (118576, 118598);
  (119143, 119145); (119155, 119170); (119173, 119179); (119210, 119213); (119362, 119364); (121344, 121398);
  (121403, 121452); (121461, 121461); (121476, 121476); (121499, 121503); (121505, 121519); (122880, 122886);
  (122888, 122904); (122907, 122913); (122915, 122916); (122918, 122922); (123184, 123197); (123566, 123566);
  (123628, 123631); (125136, 125142); (125252, 125259); (127995, 127999); (917505, 917505); (917536, 917631);
  (917760, 917999)
  ].

(** The full lower-case mapping of one character, apart from the capital
    sigma (U+03A3): [(lo, hi, step, delta)] maps [lo], [lo + step], ...,
    up to [hi] to [c + delta]; the multi-character mappings are listed. *)

Definition LOWER_RUNS : list (Z * Z * Z * Z) := [
  (65, 90, 1, 32); (192, 214, 1, 32); (216, 222, 1, 32);
  (256, 302, 2, 1); (306, 310, 2, 1); (313, 327, 2, 1);
  (330, 374, 2, 1); (376, 376, 1, -121); (377, 381, 2, 1);
  (385, 385, 1, 210); (386, 388, 2, 1); (390, 390, 1, 206);
  (391, 391, 1, 1); (393, 394, 1, 205); (395, 395, 1, 1);
  (398, 398, 1, 79); (399, 399, 1, 202); (400, 400, 1, 203);
  (401, 401, 1, 1); (403, 403, 1, 205); (404, 404, 1, 207);
  (406, 406, 1, 211); (407, 407, 1, 209); (408, 408, 1, 1);
  (412, 412, 1, 211); (413, 413, 1, 213); (415, 415, 1, 214);
  (416, 420, 2, 1); (422, 422, 1, 218); (423, 423, 1, 1);
  (425, 425, 1, 218); (428, 428, 1, 1); (430, 430, 1, 218);
  (431, 431, 1, 1); (433, 434, 1, 217); (435, 437, 2, 1);
  (439, 439, 1, 219); (440, 440, 1, 1); (444, 444, 1, 1);
  (452, 452, 1, 2); (453, 453, 1, 1); (455, 455, 1, 2);
  (456, 456, 1, 1); (458, 458, 1, 2); (459, 475, 2, 1);
  (478, 494, 2, 1); (497, 497, 1, 2); (498, 500, 2, 1);
  (502, 502, 1, -97); (503, 503, 1, -56); (504, 542, 2, 1);
  (544, 544, 1, -130); (546, 562, 2, 1); (570, 570, 1, 10795);
  (571, 571, 1, 1); (573, 573, 1, -163); (574, 574, 1, 10792);
  (577, 577, 1, 1); (579, 579, 1, -195); (580, 580, 1, 69);
  (581, 581, 1, 71); (582, 590, 2, 1); (880, 882, 2, 1);
  (886, 886, 1, 1); (895, 895, 1, 116); (902, 902, 1, 38);
  (904, 906, 1, 37); (908, 908, 1, 64); (910, 911, 1, 63);
  (913, 929, 1, 32); (932, 939, 1, 32); (975, 975, 1, 8);
  (984, 1006, 2, 1); (1012, 1012, 1, -60); (1015, 1015, 1, 1);
  (1017, 1017, 1, -7); (1018, 1018, 1, 1); (1021, 1023, 1, -130);
  (1024, 1039, 1, 80); (1040, 1071, 1, 32); (1120, 1152, 2, 1);
  (1162, 1214, 2, 1); (1216, 1216, 1, 15); (1217, 1229, 2, 1);
  (1232, 1326, 2, 1); (1329, 1366, 1, 48); (4256, 4293, 1, 7264);
  (4295, 4295, 1, 7264); (4301, 4301, 1, 7264); (5024, 5103, 1, 38864);
  (5104, 5109, 1, 8); (7312, 7354, 1, -3008); (7357, 7359, 1, -3008);
  (7680, 7828, 2, 1); (7838, 7838, 1, -7615); (7840, 7934, 2, 1);
  (7944, 7951, 1, -8); (7960, 7965, 1, -8); (7976, 7983, 1, -8);
  (7992, 7999, 1, -8); (8008, 8013, 1, -8); (8025, 8031, 2, -8);
  (8040, 8047, 1, -8); (8072, 8079, 1, -8); (8088, 8095, 1, -8);
  (8104, 8111, 1, -8); (8120, 8121, 1, -8); (8122, 8123, 1, -74);
  (8124, 8124, 1, -9); (8136, 8139, 1, -86); (8140, 8140, 1, -9);
  (8152, 8153, 1, -8); (8154, 8155, 1, -100); (8168, 8169, 1, -8);
  (8170, 8171, 1, -112); (8172, 8172, 1, -7); (8184, 8185, 1, -128);
  (8186, 8187, 1, -126); (8188, 8188, 1, -9); (8486, 8486, 1, -7517);
  (8490, 8490, 1, -8383); (8491, 8491, 1, -8262); (8498, 8498, 1, 28);
  (8544, 8559, 1, 16); (8579, 8579, 1, 1); (9398, 9423, 1, 26);
  (11264, 11311, 1, 48); (11360, 11360, 1, 1); (11362, 11362, 1, -10743);
  (11363, 11363, 1, -3814); (11364, 11364, 1, -10727); (11367, 11371, 2, 1);
  (11373, 11373, 1, -10780); (11374, 11374, 1, -10749); (11375, 11375, 1, -10783);
  (11376, 11376, 1, -10782); (11378, 11378, 1, 1); (11381, 11381, 1, 1);
  (11390, 11391, 1, -10815); (11392, 11490, 2, 1); (11499, 11501, 2, 1);
  (11506, 11506, 1, 1); (42560, 42604, 2, 1); (42624, 42650, 2, 1);
  (42786, 42798, 2, 1); (42802, 42862, 2, 1); (42873, 42875, 2, 1);
  (42877, 42877, 1, -35332); (42878, 42886, 2, 1); (42891, 42891, 1, 1);
  (42893, 42893, 1, -42280); (42896, 42898, 2, 1); (42902, 42920, 2, 1);
  (42922, 42922, 1, -42308); (42923, 42923, 1, -42319); (42924, 42924, 1, -42315);
  (42925, 42925, 1, -42305); (42926, 42926, 1, -42308); (42928, 42928, 1, -42258);
  (42929, 42929, 1, -42282); (42930, 42930, 1, -42261); (42931, 42931, 1, 928);
  (42932, 42946, 2, 1); (42948, 42948, 1, -48); (42949, 42949, 1, -42307);
  (42950, 42950, 1, -35384); (42951, 42953, 2, 1); (42960, 42960, 1, 1);
  (42966, 42968, 2, 1); (42997, 42997, 1, 1); (65313, 65338, 1, 32);
  (66560, 66599, 1, 40); (66736, 66771, 1, 40); (66928, 66938, 1, 39);
  (66940, 66954, 1, 39); (66956, 66962, 1, 39); (66964, 66965, 1, 39);
  (68736, 68786, 1, 64); (71840, 71871, 1, 32); (93760, 93791, 1, 32);
  (125184, 125217, 1, 34)
  ].

Definition LOWER_MULTI : list (Z * list Z) := [
  (304, [105; 775])
  ].

(** The full title-case mapping of one character. *)

Definition TITLE_RUNS : list (Z * Z * Z * Z) := [
  (97, 122, 1, -32); (181, 181, 1, 743); (224, 246, 1, -32);
  (248, 254, 1, -32); (255, 255, 1, 121); (257, 303, 2, -1);
  (305, 305, 1, -232); (307, 311, 2, -1); (314, 328, 2, -1);
  (331, 375, 2, -1); (378, 382, 2, -1); (383, 383, 1, -300);
  (384, 384, 1, 195); (387, 389, 2, -1); (392, 392, 1, -1);
  (396, 396, 1, -1); (402, 402, 1, -1); (405, 405, 1, 97);
  (409, 409, 1, -1); (410, 410, 1, 163); (414, 414, 1, 130);
  (417, 421, 2, -1); (424, 424, 1, -1); (429, 429, 1, -1);
  (432, 432, 1, -1); (436, 438, 2, -1); (441, 441, 1, -1);
  (445, 445, 1, -1); (447, 447, 1, 56); (452, 452, 1, 1);
  (454, 454, 1, -1); (455, 455, 1, 1); (457, 457, 1, -1);
  (458, 458, 1, 1); (460, 476, 2, -1); (477, 477, 1, -79);
  (479, 495, 2, -1); (497, 497, 1, 1); (499, 501, 2, -1);
  (505, 543, 2, -1); (547, 563, 2, -1); (572, 572, 1, -1);
  (575, 576, 1, 10815); (578, 578, 1, -1); (583, 591, 2, -1);
  (592, 592, 1, 10783); (593, 593, 1, 10780); (594, 594, 1, 10782);
  (595, 595, 1, -210); (596, 596, 1, -206); (598, 599, 1, -205);
  (601, 601, 1, -202); (603, 603, 1, -203); (604, 604, 1, 42319);
  (608, 608, 1, -205); (609, 609, 1, 42315); (611, 611, 1, -207);
  (613, 613, 1, 42280); (614, 614, 1, 42308); (616, 616, 1, -209);
  (617, 617, 1, -211); (618, 618, 1, 42308); (619, 619, 1, 10743);
  (620, 620, 1, 42305); (623, 623, 1, -211); (625, 625, 1, 10749);
  (626, 626, 1, -213); (629, 629, 1, -214); (637, 637, 1, 10727);
  (640, 640, 1, -218); (642, 642, 1, 42307); (643, 643, 1, -218);
  (647, 647, 1, 42282); (648, 648, 1, -218); (649, 649, 1, -69);
  (650, 651, 1, -217); (652, 652, 1, -71); (658, 658, 1, -219);
  (669, 669, 1, 42261); (670, 670, 1, 42258); (837, 837, 1, 84);
  (881, 883, 2, -1); (887, 887, 1, -1); (891, 893, 1, 130);
  (940, 940, 1, -38); (941, 943, 1, -37); (945, 961, 1, -32);
  (962, 962, 1, -31); (963, 971, 1, -32); (972, 972, 1, -64);
  (973, 974, 1, -63); (976, 976, 1, -62); (977, 977, 1, -57);
  (981, 981, 1, -47); (982, 982, 1, -54); (983, 983, 1, -8);
  (985, 1007, 2, -1); (1008, 1008, 1, -86); (1009, 1009, 1, -80);
  (1010, 1010, 1, 7); (1011, 1011, 1, -116); (1013, 1013, 1, -96);
  (1016, 1016, 1, -1); (1019, 1019, 1, -1); (1072, 1103, 1, -32);
  (1104, 1119, 1, -80); (1121, 1153, 2, -1); (1163, 1215, 2, -1);
  (1218, 1230, 2, -1); (1231, 1231, 1, -15); (1233, 1327, 2, -1);
  (1377, 1414, 1, -48); (5112, 5117, 1, -8); (7296, 7296, 1, -6254);
  (7297, 7297, 1, -6253); (7298, 7298, 1, -6244); (7299, 7300, 1, -6242);
  (7301, 7301, 1, -6243); (7302, 7302, 1, -6236); (7303, 7303, 1, -6181);
  (7304, 7304, 1, 35266); (7545, 7545, 1, 35332); (7549, 7549, 1, 3814);
  (7566, 7566, 1, 35384); (7681, 7829, 2, -1); (7835, 7835, 1, -59);
  (7841, 7935, 2, -1); (7936, 7943, 1, 8); (7952, 7957, 1, 8);
  (7968, 7975, 1, 8); (7984, 7991, 1, 8); (8000, 8005, 1, 8);
  (8017, 8023, 2, 8); (8032, 8039, 1, 8); (8048, 8049, 1, 74);
  (8050, 8053, 1, 86); (8054, 8055, 1, 100); (8056, 8057, 1, 128);
  (8058, 8059, 1, 112); (8060, 8061, 1, 126); (8064, 8071, 1, 8);
  (8080, 8087, 1, 8); (8096, 8103, 1, 8); (8112, 8113, 1, 8);
  (8115, 8115, 1, 9); (8126, 8126, 1, -7205); (8131, 8131, 1, 9);
  (8144, 8145, 1, 8); (8160, 8161, 1, 8); (8165, 8165, 1, 7);
  (8179, 8179, 1, 9); (8526, 8526, 1, -28); (8560, 8575, 1, -16);
  (8580, 8580, 1, -1); (9424, 9449, 1, -26); (11312, 11359, 1, -48);
  (11361, 11361, 1, -1); (11365, 11365, 1, -10795); (11366, 11366, 1, -10792);
  (11368, 11372, 2, -1); (11379, 11379, 1, -1); (11382, 11382, 1, -1);
  (11393, 11491, 2, -1); (11500, 11502, 2, -1); (11507, 11507, 1, -1);
  (11520, 11557, 1, -7264); (11559, 11559, 1, -7264); (11565, 11565, 1, -7264);
  (42561, 42605, 2, -1); (42625, 42651, 2, -1); (42787, 42799, 2, -1);
  (42803, 42863, 2, -1); (42874, 42876, 2, -1); (42879, 42887, 2, -1);
  (42892, 42892, 1, -1); (42897, 42899, 2, -1); (42900, 42900, 1, 48);
  (42903, 42921, 2, -1); (42933, 42947, 2, -1); (42952, 42954, 2, -1);
  (42961, 42961, 1, -1); (42967, 42969, 2, -1); (42998, 42998, 1, -1);
  (43859, 43859, 1, -928); (43888, 43967, 1, -38864); (65345, 65370, 1, -32);
  (66600, 66639, 1, -40); (66776, 66811, 1, -40); (66967, 66977, 1, -39);
  (66979, 66993, 1, -39); (66995, 67001, 1, -39); (67003, 67004, 1, -39);
  (68800, 68850, 1, -64); (71872, 71903, 1, -32); (93792, 93823, 1, -32);
  (125218, 125251, 1, -34)
  ].

Definition TITLE_MULTI : list (Z * list Z) := [
  (223, [83; 115]); (329, [700; 78]); (496, [74; 780]);
  (912, [921; 776; 769]); (944, [933; 776; 769]); (1415, [1333; 1410]);
  (7830, [72; 817]); (7831, [84; 776]); (7832, [87; 778]);
  (7833, [89; 778]); (7834, [65; 702]); (8016, [933; 787]);
  (8018, [933; 787; 768]); (8020, [933; 787; 769]); (8022, [933; 787; 834]);
  (8114, [8122; 837]); (8116, [902; 837]); (8118, [913; 834]);
  (8119, [913; 834; 837]); (8130, [8138; 837]); (8132, [905; 837]);
  (8134, [919; 834]); (8135, [919; 834; 837]); (8146, [921; 776; 768]);
  (8147, [921; 776; 769]); (8150, [921; 834]); (8151, [921; 776; 834]);
  (8162, [933; 776; 768]); (8163, [933; 776; 769]); (8164, [929; 787]);
  (8166, [933; 834]); (8167, [933; 776; 834]); (8178, [8186; 837]);
  (8180, [911; 837]); (8182, [937; 834]); (8183, [937; 834; 837]);
  (64256, [70; 102]); (64257, [70; 105]); (64258, [70; 108]);
  (64259, [70; 102; 105]); (64260, [70; 102; 108]); (64261, [83; 116]);
  (64262, [83; 116]); (64275, [1348; 1398]); (64276, [1348; 1381]);
  (64277, [1348; 1387]); (64278, [1358; 1398]); (64279, [1348; 1389])
  ].

(** [\d] of [re] and the digits [int()] reads, with their value. *)
Definition decimal_value (c : Z) : option Z :=
  match find (fun '(lo, hi, _) => in_range lo hi c) DECIMAL_RANGES with
  | Some (_, _, zero) => Some (c - zero)
  | None => None
  end.

Definition is_decimal (c : Z) : bool :=
  match decimal_value c with Some _ => true | None => false end.

(** [str.isdigit] on one character. *)
Definition is_digit_char (c : Z) : bool := in_ranges c DIGIT_RANGES.

Definition is_cased (c : Z) : bool := in_ranges c CASED_RANGES.

Definition is_case_ignorable (c : Z) : bool := in_ranges c CASE_IGNORABLE_RANGES.

(** A one-character case mapping ([_PyUnicode_ToLowerFull],
    [_PyUnicode_ToTitleFull]). *)
Definition map_full (runs : list (Z * Z * Z * Z)) (multi : list (Z * list Z)) (c : Z)
  : list Z :=
  match find (fun '(c', _) => c' =? c) multi with
  | Some (_, mapped) => mapped
  | None =>
      match find (fun '(lo, hi, step, _) => in_range lo hi c && (Z.modulo (c - lo) step =? 0))
                 runs with
      | Some (_, _, _, delta) => [c + delta]
      | None => [c]
      end
  end.

Definition to_lower_full (c : Z) : list Z := map_full LOWER_RUNS LOWER_MULTI c.

Definition to_title_full (c : Z) : list Z := map_full TITLE_RUNS TITLE_MULTI c.

(** The first character that is not Case_Ignorable. *)
Fixpoint first_non_ignorable (l : list Z) : option Z :=
  match l with
  | [] => None
  | c :: r => if is_case_ignorable c then first_non_ignorable r else Some c
  end.

(** [handle_capital_sigma]: [before] holds the characters before the sigma,
    nearest first, [after] those after it.  The sigma is final when a
    Cased character comes before it and none after it, Case_Ignorable
    characters skipped. *)
Definition final_sigma (before after : list Z) : bool :=
  match first_non_ignorable before with
  | Some c =>
      is_cased c &&
      match first_non_ignorable after with
      | Some c' => negb (is_cased c')
      | None => true
      end
  | None => false
  end.

(** [lower_ucs4]: the capital sigma (U+03A3) becomes the final sigma
    (U+03C2) or the small sigma (U+03C3). *)
Definition lower_ucs4 (before : list Z) (c : Z) (after : list Z) : list Z :=
  if c =? 931 then [if final_sigma before after then 962 else 963]
  else to_lower_full c.

Fixpoint lower_aux (before : list Z) (s : pystr) : pystr :=
  match s with
  | [] => []
  | c :: s' => lower_ucs4 before c s' ++ lower_aux (c :: before) s'
  end.

(** [str.lower] ([do_lower]). *)
Definition py_lower (s : pystr) : pystr := lower_aux [] s.

(** [do_title]: after a Cased character, lower-case; otherwise title-case. *)
Fixpoint title_aux (before : list Z) (previous_is_cased : bool) (s : pystr) : pystr :=
  match s with
  | [] => []
  | c :: s' =>
      (if previous_is_cased then lower_ucs4 before c s' else to_title_full c)
      ++ title_aux (c :: before) (is_cased c) s'
  end.

(** [str.title] *)
Definition py_title (s : pystr) : pystr := title_aux [] false s.

(** The characters the tables list, so that the proofs can check the
    tables character by character. *)
Definition range_list (lo hi : Z) : list Z :=
  map (fun k => lo + Z.of_nat k) (seq 0 (Z.to_nat (hi - lo + 1))).

Definition DECIMAL_CHARS : list Z :=
  flat_map (fun '(lo, hi, _) => range_list lo hi) DECIMAL_RANGES.

Definition DIGIT_CHARS : list Z :=
  flat_map (fun '(lo, hi) => range_list lo hi) DIGIT_RANGES.

Definition map_domain (runs : list (Z * Z * Z * Z)) (multi : list (Z * list Z)) : list Z :=
  map fst multi ++ flat_map (fun '(lo, hi, _, _) => range_list lo hi) runs.

(** What the proofs need of the image [m] of a character [c] under a case
    mapping: it is not empty, holds a decimal digit or a digit only when
    [c] is one, and holds ["_"] or ["-"] only when [c] is that character. *)
Definition case_map_ok (c : Z) (m : list Z) : bool :=
  match m with [] => false | _ => true end
  && (is_decimal c || forallb (fun x => negb (is_decimal x)) m)
  && (is_digit_char c || forallb (fun x => negb (is_digit_char x)) m)
  && ((c =? 95) || negb (existsb (Z.eqb 95) m))
  && ((c =? 45) || negb (existsb (Z.eqb 45) m)).

(** The two halves of [final_sigma], for the proofs. *)
Definition back_cased (l : list Z) : bool :=
  match first_non_ignorable l with Some c => is_cased c | None => false end.

Definition fwd_open (l : list Z) : bool :=
  match first_non_ignorable l with Some c => negb (is_cased c) | None => true end.

(** [str.isdigit]: non-empty and every character a digit. *)
Definition py_isdigit (s : pystr) : bool :=
  match s with [] => false | _ => forallb is_digit_char s end.

(** [int(s)] on a string [s]; [None] is the [ValueError] raised when a
    character is not a decimal digit. *)
Fixpoint int_of_digits (acc : Z) (s : pystr) : option Z :=
  match s with
  | [] => Some acc
  | c :: s' =>
      match decimal_value c with
      | Some d => int_of_digits (acc * 10 + d) s'
      | None => None
      end
  end.

Definition py_int (s : pystr) : option Z :=
  match s with [] => None | _ => int_of_digits 0 s end.

(* ------------------------------------------------------------------ *)
(** ** Paths *)

(** A [pathlib.Path] as its list of components. *)
Definition path := list pystr.

Fixpoint path_eqb (a b : path) : bool :=
  match a, b with
  | [], [] => true
  | x :: a', y :: b' => str_eqb x y && path_eqb a' b'
  | _, _ => false
  end.

Lemma path_eqb_eq a b : path_eqb a b = true <-> a = b.
Proof.
  revert b; induction a as [|x a IH]; intros [|y b]; simpl;
    try (split; congruence).
  rewrite andb_true_iff, str_eqb_eq, IH. split; [intros [-> ->]; reflexivity|].
  intros H; inversion H; auto.
Qed.

(** [image.relative_to(folder)] succeeds: [folder] is a component prefix. *)
Fixpoint is_prefix (f p : path) : bool :=
  match f, p with
  | [], _ => true
  | x :: f', y :: p' => str_eqb x y && is_prefix f' p'
  | _ :: _, [] => false
  end.

(** [Path.name] and [Path.parent]. *)
Definition path_name (p : path) : pystr := last p [].
Definition path_parent (p : path) : path := removelast p.

(** [Path.suffix]: from the last dot of the name, when that dot is neither
    the first nor the last character. *)
Fixpoint rfind_aux (c : Z) (s : pystr) (i : Z) (found : Z) : Z :=
  match s with
  | [] => found
  | d :: s' => rfind_aux c s' (i + 1) (if d =? c then i else found)
  end.

Definition py_rfind (c : Z) (s : pystr) : Z := rfind_aux c s 0 (-1).

Definition name_suffix (name : pystr) : pystr :=
  let i := py_rfind DOT name in
  if (0 <? i) && (i <? Z.of_nat (List.length name) - 1)
  then skipn (Z.to_nat i) name else [].

Definition path_suffix (p : path) : pystr := name_suffix (path_name p).

(** String comparison of Python ([<] on [str]): by code points. *)
Fixpoint str_ltb (a b : pystr) : bool :=
  match a, b with
  | [], [] => false
  | [], _ :: _ => true
  | _ :: _, [] => false
  | x :: a', y :: b' => (x <? y) || ((x =? y) && str_ltb a' b')
  end.

(** [PurePosixPath.__lt__]: lexicographic on the components. *)
Fixpoint path_ltb (a b : path) : bool :=
  match a, b with
  | [], [] => false
  | [], _ :: _ => true
  | _ :: _, [] => false
  | x :: a', y :: b' => str_ltb x y || (str_eqb x y && path_ltb a' b')
  end.

(** [list.sort()]: a stable sort; each element is inserted after the
    elements it is not smaller than. *)
Section Sorting.
Context {A : Type} (ltb : A -> A -> bool).

Fixpoint insert_by (x : A) (l : list A) : list A :=
  match l with
  | [] => [x]
  | y :: r => if ltb x y then x :: y :: r else y :: insert_by x r
  end.

Definition sort_by (l : list A) : list A :=
  fold_left (fun acc x => insert_by x acc) l [].

Lemma insert_by_perm x l : Permutation (insert_by x l) (x :: l).
Proof.
  induction l as [|y r IH]; simpl; [reflexivity|].
  destruct (ltb x y); [reflexivity|].
  rewrite IH. apply perm_swap.
Qed.

Lemma sort_by_perm_aux l acc :
  Permutation (fold_left (fun acc x => insert_by x acc) l acc) (rev l ++ acc).
Proof.
  revert acc; induction l as [|x l IH]; intros acc; simpl; [reflexivity|].
  rewrite IH, insert_by_perm, <- app_assoc. simpl.
  apply Permutation_app_head. reflexivity.
Qed.

Lemma sort_by_perm l : Permutation (sort_by l) l.
Proof.
  unfold sort_by. rewrite sort_by_perm_aux, app_nil_r.
  symmetry; apply Permutation_rev.
Qed.
End Sorting.

(* ------------------------------------------------------------------ *)
(** ** [ImageValidator.is_valid_image] (htmlcmb_v3.py, lines 68-102;
       the same code in htmlcmb_v3_virtualscroll.py, lines 80-99) *)

Definition SUPPORTED_EXTENSIONS : list pystr :=
  map u ["png"; "jpg"; "jpeg"; "gif"; "bmp"; "webp"; "avif"; "svg"]%string.

Definition BLOCKED_EXTENSIONS : list pystr :=
  map u ["html"; "json"; "js"; "py"; "ini"; "txt"; "rar"; "zip"; "7z";
         "gitignore"; "url"; "nomedia"; "exe"; "bat"; "cmd"; "sh"]%string.

(** [file_path.suffix.lower().lstrip('.')] *)
Definition extension (p : path) : pystr :=
  lstrip_char DOT (py_lower (path_suffix p)).

Section Validator.
(** [mimetypes.guess_type(str(file_path))[0]]: the standard library's
    table, left abstract. *)
Variable guess_type : path -> option pystr.

Definition is_valid_image (p : path) : bool :=
  let ext := extension p in
  if str_mem ext BLOCKED_EXTENSIONS then false
  else if str_mem ext SUPPORTED_EXTENSIONS then true
  else match guess_type p with
       | Some mime => startswith mime (u "image/")
       | None => false
       end.
End Validator.

(* ------------------------------------------------------------------ *)
(** ** Directory scan and chapter analysis (htmlcmb_v3.py) *)

(** A directory: its files and its sub-directories, in listing order. *)
Inductive tree : Type :=
| Node (files : list pystr) (subdirs : list (pystr * tree)).

(** [os.walk(top)] top-down: [(root, files)] for [top], then the walk of
    each sub-directory in listing order. *)
Fixpoint walk (p : path) (t : tree) : list (path * list pystr) :=
  match t with
  | Node fs ds => (p, fs) :: flat_map (fun '(n, t') => walk (p ++ [n]) t') ds
  end.

(** A directory listing as a file system gives it: sub-directory names are
    distinct, and no file has the name of a sub-directory. *)
Fixpoint wf_tree (t : tree) : Prop :=
  match t with
  | Node fs ds =>
      NoDup (map fst ds) /\
      (forall f, In f fs -> ~ In f (map fst ds)) /\
      fold_right (fun '(_, t') acc => wf_tree t' /\ acc) True ds
  end.

Section Scanner.
Variable guess_type : path -> option pystr.

(** [FileSystemScanner.scan_directory] (lines 112-147).  The batches
    are validated in parallel and collected in completion order; the
    final [sort] makes that order irrelevant. *)
Definition scan_directory (base : path) (t : tree) : list path * list path :=
  let ws := walk base t in
  let folders := map fst (filter (fun e => negb (path_eqb (fst e) base)) ws) in
  let image_files :=
    flat_map (fun e => filter (is_valid_image guess_type)
                              (map (fun f => fst e ++ [f]) (snd e))) ws in
  (sort_by path_ltb folders, sort_by path_ltb image_files).
End Scanner.

Record Chapter : Type := mkChapter {
  number : Z;
  name : pystr;
  folder_path : path;
  page_count : Z;
  start_page : Z;
  end_page : Z
}.

Record MangaMetadata : Type := mkMangaMetadata {
  title : pystr;
  chapters : list Chapter;
  total_pages : Z;
  base_path : path
}.

(** [MangaAnalyzer._format_chapter_name] (lines 260-273). *)
Definition format_chapter_name (folder_name : pystr) (chapter_number : Z) : pystr :=
  let name := py_replace (py_replace folder_name (u "_") (u " ")) (u "-") (u " ") in
  if py_isdigit name then u "Chapter " ++ name
  else match name with
       | c :: _ => if py_isdigit [c] then u "Chapter " ++ name
                   else py_title name
       | [] => u "Chapter " ++ z_to_pystr chapter_number
       end.

(** [image.relative_to(folder)] for the folders in list order: the first
    folder that contains the image. *)
Fixpoint first_folder (folders : list path) (img : path) : option path :=
  match folders with
  | [] => None
  | f :: r => if is_prefix f img then Some f else first_folder r img
  end.

(** [MangaAnalyzer._group_images_by_chapter] (lines 244-258): the
    images appended to [chapter_images[folder]]. *)
Definition group_images_by_chapter (folders : list path) (image_files : list path)
  (folder : path) : list path :=
  filter (fun img => match first_folder folders img with
                     | Some g => path_eqb g folder
                     | None => false
                     end) image_files.

(** The [for i, folder in enumerate(folders)] loop of [analyze_manga]
    (lines 216-235): [i] is the enumeration index, [off] is
    [2 if root_images else 1], [cur] is [current_page]. *)
Fixpoint subdirectory_chapters (images_of : path -> list path)
  (folders : list path) (i off cur : Z) : list Chapter :=
  match folders with
  | [] => []
  | folder :: r =>
      match images_of folder with
      | [] => subdirectory_chapters images_of r (i + 1) off cur
      | images_in_folder =>
          let n := Z.of_nat (List.length images_in_folder) in
          mkChapter (i + off)
                    (format_chapter_name (path_name folder) (i + off))
                    folder n cur (cur + n - 1)
          :: subdirectory_chapters images_of r (i + 1) off (cur + n)
      end
  end.

(** [MangaAnalyzer.analyze_manga] (lines 181-242). *)
Definition analyze_manga (base : path) (folders : list path) (image_files : list path)
  : MangaMetadata :=
  let chapter_images := group_images_by_chapter folders image_files in
  let root_images :=
    filter (fun img => path_eqb (path_parent img) base) image_files in
  let nroot := Z.of_nat (List.length root_images) in
  let root_chapter :=
    match root_images with
    | [] => []
    | _ => [mkChapter 1
              (match folders with [] => u "Main Chapter" | _ => u "Introduction" end)
              base nroot 1 (1 + nroot - 1)]
    end in
  let off := match root_images with [] => 1 | _ => 2 end in
  mkMangaMetadata (path_name base)
    (root_chapter ++ subdirectory_chapters chapter_images folders 0 off (1 + nroot))
    (Z.of_nat (List.length image_files)) base.

(** [FileSystemScanner.scan_directory] followed by [analyze_manga], as
    [MangaReaderGenerator.generate] runs them (lines 1690-1697). *)
Definition scan_and_analyze (guess_type : path -> option pystr) (base : path)
  (t : tree) : MangaMetadata :=
  let '(folders, image_files) := scan_directory guess_type base t in
  analyze_manga base folders image_files.

(* ------------------------------------------------------------------ *)
(** ** Natural sort (htmlcmb_v3.py, lines 959-970, the same key in
       htmlcmb_v3_virtualscroll.py; create_progressive_reader.py, line 35) *)

(** [re.split(r'(\d+)', s)]: text runs and decimal-digit runs
    alternate, starting and ending with a (possibly empty) text run. *)
Fixpoint split_runs (s : pystr) : list pystr :=
  match s with
  | [] => [[]]
  | c :: s' =>
      let r := split_runs s' in
      if is_decimal c then
        match r with
        | [] :: d :: rest => [] :: (c :: d) :: rest
        | _ => [] :: [c] :: r
        end
      else
        match r with
        | t :: rest => (c :: t) :: rest
        | [] => [[c]]
        end
  end.

(** An element of a sort key: an [int] or a [str]. *)
Inductive key_part : Type :=
| KInt (n : Z)
| KStr (s : pystr).

(** A list comprehension: the first exception aborts it. *)
Fixpoint traverse_opt {A B} (f : A -> option B) (l : list A) : option (list B) :=
  match l with
  | [] => Some []
  | x :: r =>
      match f x with
      | None => None
      | Some y => option_map (cons y) (traverse_opt f r)
      end
  end.

(** [int(part) if part.isdigit() else part]; [None] is [ValueError]. *)
Definition key_of_part (part : pystr) : option key_part :=
  if py_isdigit part then option_map KInt (py_int part) else Some (KStr part).

(** [natural_sort_key] on [path_str], the path relative to the root. *)
Definition natural_sort_key (path_str : pystr) : option (list key_part) :=
  traverse_opt key_of_part (split_runs (py_lower path_str)).

(** The key of [get_manga_images]:
    [[int(c) if c.isdigit() else c.lower() for c in re.split(r'(\d+)', x)]]. *)
Definition progressive_sort_key (x : pystr) : option (list key_part) :=
  traverse_opt (fun c => if py_isdigit c then option_map KInt (py_int c)
                         else Some (KStr (py_lower c)))
               (split_runs x).

(** [==] and [<] on key elements; [<] between [int] and [str] raises
    [TypeError] ([None]). *)
Definition part_eqb (a b : key_part) : bool :=
  match a, b with
  | KInt x, KInt y => x =? y
  | KStr s, KStr t => str_eqb s t
  | _, _ => false
  end.

Definition part_lt (a b : key_part) : option bool :=
  match a, b with
  | KInt x, KInt y => Some (x <? y)
  | KStr s, KStr t => Some (str_ltb s t)
  | _, _ => None
  end.

(** [<] on lists: the first differing elements decide, else the lengths. *)
Fixpoint key_lt (a b : list key_part) : option bool :=
  match a, b with
  | [], [] => Some false
  | [], _ :: _ => Some true
  | _ :: _, [] => Some false
  | x :: a', y :: b' => if part_eqb x y then key_lt a' b' else part_lt x y
  end.

(** [list.sort(key=k)]: every key is computed first, then a stable sort
    compares keys with [<]; an exception of either step aborts ([None]). *)
Fixpoint insert_opt {A} (lt : A -> A -> option bool) (x : A) (l : list A)
  : option (list A) :=
  match l with
  | [] => Some [x]
  | y :: r =>
      match lt x y with
      | None => None
      | Some true => Some (x :: y :: r)
      | Some false => option_map (cons y) (insert_opt lt x r)
      end
  end.

Definition sort_opt {A} (lt : A -> A -> option bool) (l : list A) : option (list A) :=
  fold_left (fun acc x => match acc with
                          | None => None
                          | Some acc => insert_opt lt x acc
                          end) l (Some []).

Definition sort_with_key (k : pystr -> option (list key_part)) (l : list pystr)
  : option (list pystr) :=
  match traverse_opt (fun x => option_map (fun kx => (kx, x)) (k x)) l with
  | None => None
  | Some kl => option_map (map snd) (sort_opt (fun a b => key_lt (fst a) (fst b)) kl)
  end.

(** The pieces of [re.split(r'(\d+)', s)]: text runs hold no decimal
    digit, digit runs are non-empty and hold only decimal digits. *)
Definition text_run (t : pystr) : Prop :=
  forallb (fun c => negb (is_decimal c)) t = true.

Definition digit_run (d : pystr) : Prop :=
  d <> [] /\ forallb is_decimal d = true.

(** Text and digit runs alternate; [text_next] says which comes next, and
    the list ends after a text run. *)
Fixpoint runs_alt (text_next : bool) (l : list pystr) : Prop :=
  match l with
  | [] => text_next = false
  | t :: r => (if text_next then text_run t else digit_run t) /\ runs_alt (negb text_next) r
  end.

(** Keys whose [str] and [int] elements alternate, [str] first. *)
Fixpoint key_alt (str_next : bool) (k : list key_part) : Prop :=
  match k with
  | [] => True
  | KStr _ :: r => str_next = true /\ key_alt false r
  | KInt _ :: r => str_next = false /\ key_alt true r
  end.

(* ------------------------------------------------------------------ *)
(** ** [VirtualScrollMangaGenerator] (htmlcmb_v3_virtualscroll.py) *)

Definition NL : Z := 10.
Definition QUOTE : Z := 34.

(** A literal of the Python source; a double quote of the source is
    written [`] here. *)
Definition uq (s : string) : pystr :=
  map (fun c => if c =? 96 then QUOTE else c) (u s).

Definition unlines (ls : list pystr) : pystr := join [NL] ls.

(** [sub in s] *)
Fixpoint contains (sub s : pystr) : bool :=
  startswith s sub || match s with [] => false | _ :: s' => contains sub s' end.

(** [s.count(sub)] for a non-empty [sub]: non-overlapping occurrences. *)
Fixpoint count_fuel (fuel : nat) (sub s : pystr) : nat :=
  match fuel with
  | O => O
  | S f =>
      match s with
      | [] => O
      | _ :: s' =>
          if startswith s sub then S (count_fuel f sub (skipn (List.length sub) s))
          else count_fuel f sub s'
      end
  end.

Definition py_count (sub s : pystr) : nat := count_fuel (List.length s) sub s.

(** [ImageMetadata] (lines 57-63). *)
Record ImageMetadata : Type := mkImageMetadata {
  page : Z;
  src : pystr;
  chapter : Z;
  im_name : pystr;            (* the field [name] *)
  estimated_height : Z
}.

Record VirtualScrollMangaGenerator : Type := mkVirtualScrollMangaGenerator {
  vs_metadata : MangaMetadata;
  use_virtual_scroll : bool
}.

(** [__init__] (lines 105-115): with no explicit mode, windowed output is
    chosen when the collection has more than 1000 pages. *)
Definition init_generator (metadata : MangaMetadata) (use : option bool)
  : VirtualScrollMangaGenerator :=
  let use_virtual_scroll :=
    match use with
    | None => 1000 <? total_pages metadata
    | Some b => b
    end in
  mkVirtualScrollMangaGenerator metadata use_virtual_scroll.

(** [_generate_navigation] (lines 324-337). *)
Definition generate_navigation (g : VirtualScrollMangaGenerator) : pystr :=
  unlines
    [uq "    <!-- Top Navigation -->";
     uq "    <nav class=`top-nav` id=`topNav`>";
     uq "        <div class=`page-counter` id=`pageInfo`>1 / "
       ++ z_to_pystr (total_pages (vs_metadata g)) ++ uq "</div>";
     uq "        <div class=`progress-bar`>";
     uq "            <div class=`progress-fill` id=`progressBar`></div>";
     uq "        </div>";
     uq "        <div class=`nav-controls`>";
     uq "            <button class=`nav-btn` id=`themeBtn` title=`Toggle theme`>"
       ++ [127763] ++ uq "</button>";
     uq "            <button class=`nav-btn` id=`chaptersBtn` title=`Chapters`>"
       ++ [128218] ++ uq "</button>";
     uq "            <button class=`nav-btn` id=`settingsBtn` title=`Settings`>"
       ++ [9881; 65039] ++ uq "</button>";
     uq "        </div>";
     uq "    </nav>"].

(** [_generate_virtual_scroll_content] (lines 350-360). *)
Definition generate_virtual_scroll_content (g : VirtualScrollMangaGenerator) : pystr :=
  let estimated_total_height := total_pages (vs_metadata g) * 800 in
  unlines
    [uq "    <!-- Virtual Scroll Reading Area -->";
     uq "    <main class=`reader-container` id=`readerContainer`>";
     uq "        <div class=`virtual-viewport` id=`virtualViewport`>";
     uq "            <!-- Dynamic content rendered here -->";
     uq "        </div>";
     uq "        <div class=`scroll-spacer` id=`scrollSpacer` style=`height: "
       ++ z_to_pystr estimated_total_height ++ uq "px;`></div>";
     uq "    </main>"].

(** [_generate_traditional_content] (lines 362-376); [image_metadata] is
    what [_collect_image_metadata] returns. *)
Definition generate_traditional_content (image_metadata : list ImageMetadata) : pystr :=
  unlines
    ([uq "    <!-- Reading Area -->";
      uq "    <main class=`reader-container` id=`readerContainer`>"]
     ++ map (fun img_data =>
               uq "        <img src=`" ++ src img_data ++ uq "` id=`page-"
               ++ z_to_pystr (page img_data) ++ uq "` "
               ++ uq "class=`page-image` alt=`" ++ im_name img_data ++ uq "` "
               ++ uq "data-chapter=`" ++ z_to_pystr (chapter img_data)
               ++ uq "` loading=`lazy` />")
            image_metadata
     ++ [uq "    </main>"]).

(** [_generate_reader_content] (lines 343-348). *)
Definition generate_reader_content (g : VirtualScrollMangaGenerator)
    (image_metadata : list ImageMetadata) : pystr :=
  if use_virtual_scroll g then generate_virtual_scroll_content g
  else generate_traditional_content image_metadata.

(** The script's [VirtualScrollManager.updateVisiblePages] with
    [pageHeight = 800] and [renderBuffer = 3]: the range of pages kept in
    the viewport, and the pages [renderPage] turns into [<img>] elements
    ([imageData[pageNum - 1]] must exist). *)
Definition ceil_div (a b : Z) : Z := - ((- a) / b).

Definition visible_range (totalPages scrollTop viewportHeight : Z) : Z * Z :=
  (Z.max 1 (scrollTop / 800 - 3),
   Z.min totalPages (ceil_div (scrollTop + viewportHeight) 800 + 3)).

Definition page_range (lo hi : Z) : list Z :=
  map (fun i => lo + Z.of_nat i) (seq 0 (Z.to_nat (hi - lo + 1))).

Definition rendered_pages (totalPages scrollTop viewportHeight : Z)
    (imageData : list ImageMetadata) : list Z :=
  let '(startPage, endPage) := visible_range totalPages scrollTop viewportHeight in
  filter (fun pageNum => (1 <=? pageNum) && (pageNum <=? Z.of_nat (List.length imageData)))
         (page_range startPage endPage).

(* ------------------------------------------------------------------ *)
(** ** Emitted paths *)

(** [str(p.relative_to(base)).replace('\\', '/')]: [str] of a relative
    path joins its components with the host separator [sep] (["/"] on
    POSIX, a backslash on Windows). *)
Definition emit_rel (sep : pystr) (rel : list pystr) : pystr :=
  py_replace (join sep rel) [BACKSLASH] [SLASH].

(** The [src] of a reader page (htmlcmb_v3.py, lines 996-1001):
    [image_path.relative_to(base_path)] for an image under [base_path]. *)
Definition reader_src (sep : pystr) (base_path image_path : path) : pystr :=
  emit_rel sep (skipn (List.length base_path) image_path).

(** [ImageSearchEngine.SUPPORTED_EXTENSIONS] and [_is_image]
    (htmlcs_v4.py, lines 115-117 and 155-159). *)
Definition V4_IMAGE_EXTENSIONS : list pystr :=
  map u ["png"; "jpg"; "jpeg"; "gif"; "bmp"; "webp"; "avif"]%string.

Definition is_image_name (file_name : pystr) : bool :=
  str_mem (lstrip_char DOT (py_lower (name_suffix file_name))) V4_IMAGE_EXTENSIONS.

(** [<] on two [Path]s of one folder, as [sorted()] uses it: Python 3.11
    compares the lists of parts, lower-cased by [PureWindowsPath]; the
    parts differ only in the entry's name. *)
Definition path_name_ltb (sep : pystr) (a b : pystr) : bool :=
  if str_eqb sep [BACKSLASH] then str_ltb (py_lower a) (py_lower b) else str_ltb a b.

Fixpoint tree_depth (t : tree) : nat :=
  match t with
  | Node _ ds => S (list_max (map (fun '(_, t') => tree_depth t') ds))
  end.

Fixpoint first_some {A B} (f : A -> option B) (l : list A) : option B :=
  match l with
  | [] => None
  | x :: r => match f x with Some y => Some y | None => first_some f r end
  end.

(** [ImageSearchEngine.find_first_image] (htmlcs_v4.py, lines 120-151) on
    the folder [rel] (relative to [base_path]) holding [t]: the first image
    file in sorted order, else the first found in the sorted sub-folders.
    The recursion is bounded by the depth of the tree. *)
Fixpoint find_first_image_fuel (fuel : nat) (sep : pystr) (rel : list pystr) (t : tree)
  : option pystr :=
  match fuel with
  | O => None
  | S fuel' =>
      match t with
      | Node fs ds =>
          match find is_image_name (sort_by (path_name_ltb sep) fs) with
          | Some file => Some (emit_rel sep (rel ++ [file]))
          | None =>
              first_some (fun '(n, t') => find_first_image_fuel fuel' sep (rel ++ [n]) t')
                         (sort_by (fun a b => path_name_ltb sep (fst a) (fst b)) ds)
          end
      end
  end.

Definition find_first_image (sep : pystr) (rel : list pystr) (t : tree) : option pystr :=
  find_first_image_fuel (tree_depth t) sep rel t.

(** [toLeftSlash] of htmlc.py (lines 15-20). *)
Definition toLeftSlash (s : pystr) : pystr :=
  let rv := py_replace s [BACKSLASH; BACKSLASH] [SLASH] in
  let rv := py_replace rv [BACKSLASH] [SLASH] in
  py_replace rv [SLASH; SLASH] [SLASH].

(** The [src] htmlc.py writes for a scanned file [img] (line 122), with
    [slpath = toLeftSlash(path)]. *)
Definition htmlc_src (slpath img : pystr) : pystr :=
  py_replace (toLeftSlash img) (slpath ++ [SLASH]) [].

(** A name a directory listing can hold on either host: not empty, not
    ["."] or [".."], and free of both separators. *)
Definition valid_component (n : pystr) : Prop :=
  n <> [] /\ n <> u "." /\ n <> u ".." /\ ~ In SLASH n /\ ~ In BACKSLASH n.

(* ------------------------------------------------------------------ *)
(** ** [ReaderFileFinder.find_reader_file] (htmlcs_v4.py, lines 161-186) *)

Definition READER_PRIORITIES : list pystr :=
  map u ["index-mb-virtualscroll.html"; "index-mb.html"; "index.html"; "index-mobile.html"]%string.

(** [file.suffix.lower() == '.html'] *)
Definition is_html_name (n : pystr) : bool :=
  str_eqb (py_lower (name_suffix n)) (u ".html").

(** A book folder: [rel] its components relative to the bookshelf root,
    [entries] the names [iterdir] lists (files and directories, in the
    order it lists them), [listable] whether [iterdir] succeeds (it raises
    [PermissionError] or [OSError] otherwise).  [(folder / name).exists()]
    holds for the listed names. *)
Definition find_reader_file (sep : pystr) (rel : list pystr) (entries : list pystr)
    (listable : bool) : option pystr :=
  (* for priority_file in READER_PRIORITIES: if exists: return *)
  match find (fun priority_file => str_mem priority_file entries) READER_PRIORITIES with
  | Some priority_file => Some (emit_rel sep (rel ++ [priority_file]))
  | None =>
      (* fallback: the first listed name with an .html suffix *)
      if listable then
        match find is_html_name entries with
        | Some file => Some (emit_rel sep (rel ++ [file]))
        | None => None
        end
      else None
  end.

(* ------------------------------------------------------------------ *)
(** ** Constructors and interactive loops (htmlcmb_v3.py, lines 1658-1671
       and 1722-1754; htmlcs_v4.py, lines 914-927 and 983-1038) *)

(** [str.isspace] *)
Definition is_space_char (c : Z) : bool :=
  in_range 9 13 c || in_range 28 32 c || (c =? 133) || (c =? 160) || (c =? 5760)
  || in_range 8192 8202 c || (c =? 8232) || (c =? 8233) || (c =? 8239)
  || (c =? 8287) || (c =? 12288).

Fixpoint lstrip_by (f : Z -> bool) (s : pystr) : pystr :=
  match s with
  | c :: s' => if f c then lstrip_by f s' else s
  | [] => []
  end.

(** [s.strip()], and [s.strip] of the single and double quote characters *)
Definition strip_by (f : Z -> bool) (s : pystr) : pystr :=
  rev (lstrip_by f (rev (lstrip_by f s))).

Definition py_strip (s : pystr) : pystr := strip_by is_space_char s.

Definition strip_quotes (s : pystr) : pystr :=
  strip_by (fun c => (c =? 39) || (c =? QUOTE)) s.

(** What [exists()] and [is_dir()] see at a resolved path. *)
Inductive node_kind : Type :=
| NFile        (* anything that is not a directory *)
| NDir.

Inductive py_error : Type :=
| FileNotFoundError (p : path)
| NotADirectoryError (p : path).

(** The checks of [MangaReaderGenerator.__init__] and
    [BookshelfGenerator.__init__] on the resolved path. *)
Definition check_base_path (lookup : path -> option node_kind) (base_path : path)
  : option py_error :=
  match lookup base_path with
  | None => Some (FileNotFoundError base_path)
  | Some NFile => Some (NotADirectoryError base_path)
  | Some NDir => None
  end.

(** What the loops print, in order. *)
Inductive message : Type :=
| MsgGoodbye
| MsgError (e : py_error)
| MsgSuccess (p : path)
| MsgNoBooks
| MsgUnexpected
| MsgRule.

Section MainLoops.
(** The world the generators act on, the file system view of a world,
    [Path(...).resolve()], and the generation steps past the constructors:
    [generate] returns the output path and the new world, or [None] when
    it raises. *)
Variable world : Type.
Variable lookup : world -> path -> option node_kind.
Variable resolve : pystr -> path.
Variable generate_v3 : path -> world -> option (path * world).
Variable generate_v4 : path -> bool -> pystr -> world -> option (option path * world).

(** [main] of htmlcmb_v3.py over the lines the user enters. *)
Fixpoint main_v3 (lines : list pystr) (w : world) (log : list message)
  : world * list message :=
  match lines with
  | [] => (w, log)
  | line :: rest =>
      let path_input := py_strip line in
      match path_input with
      | [] => (w, log ++ [MsgGoodbye])
      | _ =>
          let base_path := resolve (strip_quotes path_input) in
          match check_base_path (lookup w) base_path with
          | Some e => main_v3 rest w (log ++ [MsgError e; MsgRule])
          | None =>
              match generate_v3 base_path w with
              | Some (out, w') => main_v3 rest w' (log ++ [MsgSuccess out; MsgRule])
              | None => main_v3 rest w (log ++ [MsgUnexpected; MsgRule])
              end
          end
      end
  end.

(** The path a round of htmlcs_v4.py's [main] uses: the stripped line,
    or the source's default literal when it is empty (["./"] followed by
    the code points U+00CA U+00FA U+00A8), with the quotes stripped. *)
Definition v4_path_input (line : pystr) : pystr :=
  strip_quotes (match py_strip line with [] => u "./" ++ [202; 250; 168] | s => s end).

(** [main] of htmlcs_v4.py; one round reads the path, the readers answer
    and the output name ([None] for an [EOFError] on the last two). *)
Fixpoint main_v4 (rounds : list (pystr * option pystr * option pystr)) (w : world)
    (log : list message) : world * list message :=
  match rounds with
  | [] => (w, log)
  | (line, readers_line, name_line) :: rest =>
      let path_input := v4_path_input line in
      let generate_readers :=
        match readers_line with
        | Some l => negb (str_eqb (py_lower (py_strip l)) (u "n"))
        | None => true
        end in
      let output_name :=
        match option_map py_strip name_line with
        | Some ((_ :: _) as n) => n
        | _ => u "index.html"
        end in
      let base_path := resolve path_input in
      match check_base_path (lookup w) base_path with
      | Some e => main_v4 rest w (log ++ [MsgError e])
      | None =>
          match generate_v4 base_path generate_readers output_name w with
          | Some (Some out, w') => (w', log ++ [MsgSuccess out])
          | Some (None, w') => main_v4 rest w' (log ++ [MsgNoBooks])
          | None => main_v4 rest w (log ++ [MsgUnexpected])
          end
      end
  end.
End MainLoops.

(* ------------------------------------------------------------------ *)
(** ** [create_virtual_scroll_reader] (htmlcmb_v3_virtualscroll.py, lines
       710-735) and create_progressive_reader.py (lines 56-96) *)

(** An entry of the book folder: a file with its bytes, or a directory. *)
Inductive fs_entry : Type :=
| FsFile (data : list Z)
| FsDir.

(** The book folder's entries by name, the most recent first. *)
Definition folder_state := list (pystr * fs_entry).

Definition fs_get (st : folder_state) (n : pystr) : option fs_entry :=
  option_map snd (find (fun e => str_eqb (fst e) n) st).

Definition fs_exists (st : folder_state) (n : pystr) : bool :=
  match fs_get st n with Some _ => true | None => false end.

Definition fs_put (st : folder_state) (n : pystr) (e : fs_entry) : folder_state :=
  (n, e) :: filter (fun e' => negb (str_eqb (fst e') n)) st.

(** [shutil.copy2(folder / src, folder / dst)]; [None] when it raises
    (the source is missing or a directory).  When [dst] is a directory
    the copy goes inside it, whose contents are not modelled. *)
Definition copy2 (st : folder_state) (src_name dst_name : pystr) : option folder_state :=
  match fs_get st src_name with
  | Some (FsFile data) =>
      match fs_get st dst_name with
      | Some FsDir => Some st
      | _ => Some (fs_put st dst_name (FsFile data))
      end
  | _ => None
  end.

Definition MANGA_READER_FIX : pystr := u "manga-reader-fix.html".
Definition INDEX_MB : pystr := u "index-mb.html".
Definition VIRTUALSCROLL_OUTPUT : pystr := u "index-mb-virtualscroll.html".

(** [create_progressive_reader(folder_path)]: its result and the folder
    afterwards; [None] is a folder that does not exist. *)
Definition create_progressive_reader (folder : option folder_state)
  : bool * option folder_state :=
  match folder with
  | None => (false, None)
  | Some st =>
      let working_reader :=
        if fs_exists st MANGA_READER_FIX then Some MANGA_READER_FIX
        else if fs_exists st INDEX_MB then Some INDEX_MB
        else None in
      match working_reader with
      | None => (false, Some st)
      | Some w =>
          match copy2 st w VIRTUALSCROLL_OUTPUT with
          | Some st' => (true, Some st')
          | None => (false, Some st)
          end
      end
  end.

Inductive vs_result : Type :=
| VsOk (output_path : path)
| VsRuntimeError.

(** [create_virtual_scroll_reader(folder_path)]: runs the helper script
    ([sys.exit(0 if success else 1)]) and checks its return code. *)
Definition create_virtual_scroll_reader (folder_path : path) (folder : option folder_state)
  : vs_result * option folder_state :=
  let '(success, folder') := create_progressive_reader folder in
  let returncode := if success then 0 else 1 in
  if returncode =? 0 then (VsOk (folder_path ++ [VIRTUALSCROLL_OUTPUT]), folder')
  else (VsRuntimeError, folder').

(** [BookshelfScanner._ensure_optimal_reader] (htmlcs_v4.py, lines
    318-358) for the book folder [folder_path], [rel] relative to the
    bookshelf root, with entries [st]; [listable] as for
    [find_reader_file], [script_exists] whether
    htmlcmb_v3_virtualscroll.py sits beside the script.  The reader link
    and the folder afterwards. *)
Definition ensure_optimal_reader (sep : pystr) (folder_path rel : path) (st : folder_state)
  (listable script_exists : bool) (page_count : Z) : option pystr * folder_state :=
  let existing_reader := find_reader_file sep rel (map fst st) listable in
  let needs_virtual_scroll := 5000 <? page_count in
  let virtual_scroll_exists := fs_exists st VIRTUALSCROLL_OUTPUT in
  let virtual_file := emit_rel sep (rel ++ [VIRTUALSCROLL_OUTPUT]) in
  (* the two [return]s after the [try] block *)
  let rest (st' : folder_state) :=
    if needs_virtual_scroll && virtual_scroll_exists then (Some virtual_file, st')
    else (existing_reader, st') in
  if needs_virtual_scroll && negb virtual_scroll_exists then
    if script_exists then
      let '(r, folder') := create_virtual_scroll_reader folder_path (Some st) in
      let st' := match folder' with Some s => s | None => st end in
      match r with
      | VsOk _ => (Some virtual_file, st')
      | VsRuntimeError => rest st'      (* the exception is logged *)
      end
    else rest st
  else rest st.

(** [BookshelfScanner._extract_title] (htmlcs_v4.py, lines 360-373):
    the last [.]-separated part, underscores as spaces, stripped; the
    folder name itself when that leaves nothing. *)
Definition extract_title (folder_name : pystr) : pystr :=
  let title := last (split_char DOT folder_name) [] in
  let title := py_strip (py_replace title (u "_") (u " ")) in
  match title with
  | [] => folder_name
  | _ => title
  end.

(* ------------------------------------------------------------------ *)
(** ** [BookshelfScanner.scan_books] and [BookshelfGenerator.generate]
       (htmlcs_v4.py, lines 196-390 and 929-980) *)

(** [_count_content] (lines 375-390): the image files anywhere under the
    folder ([rglob('*')]), and the folder's own sub-directories. *)
Definition count_content (t : tree) : Z * Z :=
  (Z.of_nat (List.length (filter is_image_name (flat_map snd (walk [] t)))),
   match t with Node _ ds => Z.of_nat (List.length ds) end).

Record BookItem : Type := mkBookItem {
  bi_title : pystr;
  bi_folder_path : path;
  bi_cover_image : option pystr;
  bi_reader_link : pystr;
  bi_page_count : Z;
  bi_subfolders : Z
}.

(** An entry of the bookshelf root as [os.listdir] gives it: a file, or a
    book folder with its own entries, whether [iterdir] succeeds on it,
    and the tree under it. *)
Inductive shelf_entry : Type :=
| ShelfFile
| ShelfDir (st : folder_state) (listable : bool) (t : tree).

Section Bookshelf.
(** The host separator, the bookshelf root, whether
    htmlcmb_v3_virtualscroll.py sits beside the script, the cover search
    [ImageSearchEngine.find_first_image] (the scan keeps what it returns),
    and the effect of [MangaReaderGenerator(folder).generate()] on a book
    folder. *)
Variable sep : pystr.
Variable base_path : path.
Variable script_exists : bool.
Variable cover_search : path -> tree -> option pystr.
Variable generate_reader : pystr -> shelf_entry -> shelf_entry.

(** [_analyze_book_folder] (lines 285-316) on the folder [name]. *)
Definition analyze_book_folder (name : pystr) (st : folder_state) (listable : bool) (t : tree)
  : option BookItem * folder_state :=
  let folder := base_path ++ [name] in
  let '(page_count, subfolder_count) := count_content t in
  let '(reader_link, st') :=
    ensure_optimal_reader sep folder [name] st listable script_exists page_count in
  match reader_link with
  | None => (None, st')
  | Some link =>
      (Some (mkBookItem (extract_title name) folder (cover_search folder t) link
                        page_count subfolder_count), st')
  end.

(** [scan_books] with [_scan_sequential] (lines 196-251): the books in
    listing order, and the root afterwards. *)
Fixpoint scan_books (entries : list (pystr * shelf_entry))
  : list BookItem * list (pystr * shelf_entry) :=
  match entries with
  | [] => ([], [])
  | (name, ShelfFile) :: r =>
      let '(books, r') := scan_books r in (books, (name, ShelfFile) :: r')
  | (name, ShelfDir st listable t) :: r =>
      let '(book, st') := analyze_book_folder name st listable t in
      let '(books, r') := scan_books r in
      (match book with Some b => b :: books | None => books end,
       (name, ShelfDir st' listable t) :: r')
  end.

(** [_generate_readers] (lines 960-980): every sub-directory of the root. *)
Definition generate_readers_all (entries : list (pystr * shelf_entry))
  : list (pystr * shelf_entry) * list pystr :=
  (map (fun '(name, e) => match e with
                          | ShelfFile => (name, e)
                          | ShelfDir _ _ _ => (name, generate_reader name e)
                          end) entries,
   flat_map (fun '(name, e) => match e with ShelfFile => [] | ShelfDir _ _ _ => [name] end)
            entries).

(** [BookshelfGenerator.generate] (lines 929-958): the output path ([None]
    when no book is found), the root afterwards, and the folders whose
    reader was generated. *)
Definition bookshelf_generate (generate_readers : bool) (output_filename : pystr)
  (entries : list (pystr * shelf_entry))
  : option path * list (pystr * shelf_entry) * list pystr :=
  let '(books, entries') := scan_books entries in
  match books with
  | [] => (None, entries', [])
  | _ =>
      let '(entries'', generated) :=
        if generate_readers then generate_readers_all entries' else (entries', []) in
      (Some (base_path ++ [output_filename]), entries'', generated)
  end.
End Bookshelf.

(** The per-character effect of [.replace(chr(92), chr(47))]. *)
Definition slashify (x : Z) : Z := if x =? BACKSLASH then SLASH else x.

(* ------------------------------------------------------------------ *)
(** ** The emission loop of htmlc.py (lines 120-131) *)

(** ['<img src="' + src + '" class="image-item"/>\n'] (line 123). *)
Definition img_tag (slpath img : pystr) : pystr :=
  uq "<img src=`" ++ htmlc_src slpath img ++ uq "` class=`image-item`/>" ++ [NL].

(** The closing write of line 127. *)
Definition htmlc_footer : pystr :=
  u "</nav>" ++ [NL] ++ u "    </body>" ++ [NL] ++ u "    </html>".

(** [for img in filesArray: extchk = img.split(chr(46)); ...]: the lines
    written so far, and [false] when [extchk[1]] raised IndexError (uncaught
    at module level, so the program stops there).  The [print] of line 125
    only goes to the console. *)
Fixpoint emission_loop (slpath : pystr) (filesArray : list pystr) (written : list pystr)
  : list pystr * bool :=
  match filesArray with
  | [] => (written, true)
  | img :: rest =>
      let extchk := split_char DOT img in
      match nth_error extchk 1 with
      | None => (written, false)
      | Some ext1 =>
          if negb (str_eqb ext1 (u "html")) && negb (str_eqb ext1 (u "json"))
          then emission_loop slpath rest (written ++ [img_tag slpath img])
          else emission_loop slpath rest written
      end
  end.

(** Lines 51-131 for one path: the header (whose template text plays no
    part here), the loop, then the footer and [close] only if the loop
    finished. *)
Definition htmlc_emit (header slpath : pystr) (filesArray : list pystr) : list pystr * bool :=
  let '(written, completed) := emission_loop slpath filesArray [header] in
  if completed then (written ++ [htmlc_footer], true) else (written, false).

(** [getAllFiles] (htmlc.py, lines 3-13) on Windows, where the backslash
    of [fpath+'\\'+file] separates path components.  The tree of a folder
    is the folder as [os.listdir] and [os.path.isdir] see it: a link to a
    directory counts as the directory it points to, any other entry as a
    file.  [readable fpath] says whether [os.listdir(fpath)] succeeds; when
    it raises, the exception is not caught and ends the program ([None]).
    The call pops the first folder of [foldersArray], then sends each
    entry of [os.listdir(fpath)] to [foldersArray] when it is a directory
    and to [filesArray] otherwise; the listing gives the files and the
    sub-directories of [fpath] each in the tree's order. *)
Definition getAllFiles (readable : pystr -> bool) (foldersArray : list (pystr * tree))
  (filesArray : list pystr) : option (list (pystr * tree) * list pystr) :=
  match foldersArray with
  | [] => Some ([], filesArray)
  | (fpath, Node files subdirs) :: rest =>
      if readable fpath then
        Some (rest ++ map (fun '(file, t) => (fpath ++ [BACKSLASH] ++ file, t)) subdirs,
              filesArray ++ map (fun file => fpath ++ [BACKSLASH] ++ file) files)
      else None
  end.

(** [while len(foldersArray): getAllFiles(foldersArray[0])] (lines 43-44),
    for at most [fuel] rounds. *)
Fixpoint getAllFiles_loop (readable : pystr -> bool) (fuel : nat)
  (foldersArray : list (pystr * tree)) (filesArray : list pystr)
  : option (list (pystr * tree) * list pystr) :=
  match fuel with
  | O => Some (foldersArray, filesArray)
  | S fuel' =>
      match foldersArray with
      | [] => Some ([], filesArray)
      | _ :: _ =>
          match getAllFiles readable foldersArray filesArray with
          | None => None
          | Some (folders, files) => getAllFiles_loop readable fuel' folders files
          end
      end
  end.

(** The number of directories of a tree, itself included. *)
Fixpoint count_dirs (t : tree) : nat :=
  match t with
  | Node _ ds => S (list_sum (map (fun '(_, t') => count_dirs t') ds))
  end.

(** Lines 40-44 for [path]: [foldersArray=[path]], [filesArray=[]], then the
    loop, given one round per directory of the tree. *)
Definition htmlc_scan (readable : pystr -> bool) (path : pystr) (t : tree)
  : option (list (pystr * tree) * list pystr) :=
  getAllFiles_loop readable (count_dirs t) [(path, t)] [].

(** The paths of the files of the tree at [p], joined with the backslash,
    folder by folder (a folder's files, then its sub-folders in order). *)
Definition tree_file_paths (p : path) (t : tree) : list pystr :=
  flat_map (fun e => map (fun f => join [BACKSLASH] (fst e ++ [f])) (snd e)) (walk p t).

(** The paths of the directories of the tree at [p], itself included,
    joined with the backslash. *)
Definition tree_dir_paths (p : path) (t : tree) : list pystr :=
  map (fun e => join [BACKSLASH] (fst e)) (walk p t).

(* ------------------------------------------------------------------ *)
(** ** [MangaHTMLGenerator._determine_image_chapter] (htmlcmb_v3.py,
       lines 1006-1035) *)

(** The first loop: the first chapter whose folder is the image's parent. *)
Fixpoint exact_parent_chapter (cs : list Chapter) (image_parent : path) : option Z :=
  match cs with
  | [] => None
  | chapter :: r =>
      if path_eqb (folder_path chapter) image_parent then Some (number chapter)
      else exact_parent_chapter r image_parent
  end.

(** The second loop: [(best_match, best_match_depth)], [None] while the
    depth is still [float('inf')]; [depth] is [len(relative_path.parts)]. *)
Fixpoint best_match_loop (cs : list Chapter) (image_path : path) (best : option (Z * nat))
  : option (Z * nat) :=
  match cs with
  | [] => best
  | chapter :: r =>
      if is_prefix (folder_path chapter) image_path then
        let depth := (List.length image_path - List.length (folder_path chapter))%nat in
        match best with
        | Some (_, best_match_depth) =>
            if (depth <? best_match_depth)%nat
            then best_match_loop r image_path (Some (number chapter, depth))
            else best_match_loop r image_path best
        | None => best_match_loop r image_path (Some (number chapter, depth))
        end
      else best_match_loop r image_path best
  end.

Definition determine_image_chapter (cs : list Chapter) (image_path : path) : Z :=
  match exact_parent_chapter cs (path_parent image_path) with
  | Some n => n
  | None =>
      match best_match_loop cs image_path None with
      | Some (best_match, _) => best_match
      | None => 1
      end
  end.

(* ------------------------------------------------------------------ *)
(** ** [MangaHTMLGenerator._generate_reader_content] (htmlcmb_v3.py,
       lines 944-1004) *)

(** [l.sort(key=k)] on any list. *)
Definition sort_by_key {A} (k : A -> option (list key_part)) (l : list A) : option (list A) :=
  match traverse_opt (fun x => option_map (fun kx => (kx, x)) (k x)) l with
  | None => None
  | Some kl => option_map (map snd) (sort_opt (fun a b => key_lt (fst a) (fst b)) kl)
  end.

(** A dict from chapter numbers to lists of images, in insertion order:
    [if n not in d: d[n] = []], then [d[n].append(img)]. *)
Fixpoint dict_append (d : list (Z * list path)) (n : Z) (img : path) : list (Z * list path) :=
  match d with
  | [] => [(n, [img])]
  | (m, l) :: r => if m =? n then (m, l ++ [img]) :: r else (m, l) :: dict_append r n img
  end.

Fixpoint dict_get (d : list (Z * list path)) (n : Z) : option (list path) :=
  match d with
  | [] => None
  | (m, l) :: r => if m =? n then Some l else dict_get r n
  end.

Definition group_by_chapter (det : path -> Z) (all_images : list path) : list (Z * list path) :=
  fold_left (fun d img => dict_append d (det img) img) all_images [].

(** The two kinds of line the loop appends. *)
Inductive reader_line : Type :=
| ChapterMarker (chapter_num : Z) (chapter_name : pystr)
| PageImage (src_path : pystr) (page : Z) (chapter_num : Z).

Definition render_reader_line (l : reader_line) : pystr :=
  match l with
  | ChapterMarker n nm =>
      uq "        <div class=`chapter-marker` id=`chp_" ++ z_to_pystr n ++ uq "`>"
      ++ nm ++ u "</div>"
  | PageImage src k n =>
      uq "        <img src=`" ++ src ++ uq "` id=`page-" ++ z_to_pystr k
      ++ uq "` class=`page-image` alt=`Page " ++ z_to_pystr k
      ++ uq "` data-chapter=`" ++ z_to_pystr n ++ uq "` />"
  end.

(** [for image_path in chapter_images[chapter_num]]: one page each. *)
Fixpoint page_lines (sep : pystr) (base : path) (imgs : list path) (chapter_num : Z)
  (page_counter : Z) : list reader_line :=
  match imgs with
  | [] => []
  | img :: r =>
      PageImage (reader_src sep base img) page_counter chapter_num
      :: page_lines sep base r chapter_num (page_counter + 1)
  end.

(** [for chapter in sorted(self.metadata.chapters, key=lambda ch: ch.number)]. *)
Fixpoint reader_lines_loop (sep : pystr) (base : path) (ci : list (Z * list path))
  (cs : list Chapter) (page_counter : Z) : list reader_line :=
  match cs with
  | [] => []
  | chapter :: r =>
      match dict_get ci (number chapter) with
      | None => reader_lines_loop sep base ci r page_counter
      | Some imgs =>
          (if 1 <? number chapter
           then [ChapterMarker (number chapter) (name chapter)] else [])
          ++ page_lines sep base imgs (number chapter) page_counter
          ++ reader_lines_loop sep base ci r (page_counter + Z.of_nat (List.length imgs))
      end
  end.

(** The lines between the opening and closing tags of the reading area,
    for the images [all_images] the [os.walk] loop collected; [None] when
    a sort raises. *)
Definition reader_lines_v3 (sep : pystr) (md : MangaMetadata) (all_images : list path)
  : option (list reader_line) :=
  let key img := natural_sort_key (join sep (skipn (List.length (base_path md)) img)) in
  let chapter_images := group_by_chapter (determine_image_chapter (chapters md)) all_images in
  match traverse_opt (fun '(n, l) => option_map (pair n) (sort_by_key key l)) chapter_images with
  | None => None
  | Some ci =>
      Some (reader_lines_loop sep (base_path md) ci
              (sort_by (fun a b => number a <? number b) (chapters md)) 1)
  end.

Definition generate_reader_content_v3 (sep : pystr) (md : MangaMetadata)
  (all_images : list path) : option pystr :=
  option_map (fun ls =>
    join [NL] ([u "    <!-- Reading Area -->";
                uq "    <main class=`reader-container` id=`readerContainer`>"]
               ++ map render_reader_line ls ++ [u "    </main>"]))
    (reader_lines_v3 sep md all_images).

(** The images of [os.walk(base_path)] that [is_valid_image] accepts, in
    walk order. *)
Definition walk_images (guess_type : path -> option pystr) (base : path) (t : tree)
  : list path :=
  flat_map (fun e => filter (is_valid_image guess_type)
                            (map (fun f => fst e ++ [f]) (snd e))) (walk base t).

(** The pages the reading area shows, and their numbers, in order. *)
Fixpoint page_srcs (ls : list reader_line) : list pystr :=
  match ls with
  | [] => []
  | PageImage src _ _ :: r => src :: page_srcs r
  | ChapterMarker _ _ :: r => page_srcs r
  end.

Fixpoint page_numbers (ls : list reader_line) : list Z :=
  match ls with
  | [] => []
  | PageImage _ k _ :: r => k :: page_numbers r
  | ChapterMarker _ _ :: r => page_numbers r
  end.

(** [start, start + 1, ..., start + n - 1]. *)
Fixpoint zseq (start : Z) (n : nat) : list Z :=
  match n with
  | O => []
  | S n' => start :: zseq (start + 1) n'
  end.

(** [len(image_path.parts) - len(chapter.folder_path.parts)]. *)
Definition chapter_depth (img : path) (c : Chapter) : nat :=
  (List.length img - List.length (folder_path c))%nat.

(** A dict entry after more appends: absent while nothing was appended. *)
Definition opt_app (o : option (list path)) (xs : list path) : option (list path) :=
  match o, xs with
  | None, [] => None
  | None, _ => Some xs
  | Some a, _ => Some (a ++ xs)
  end.

(** [chapter_images[chapter.number]], or nothing when the key is missing. *)
Definition chapter_block (ci : list (Z * list path)) (c : Chapter) : list path :=
  match dict_get ci (number c) with Some l => l | None => [] end.

(* ------------------------------------------------------------------ *)
(** ** [VirtualScrollMangaGenerator._collect_image_metadata]
       (htmlcmb_v3_virtualscroll.py, lines 378-442) *)

(** [_determine_image_chapter] (lines 434-442): the first chapter, in list
    order, with [str(chapter.folder_path) in str(image_path)]; [str] of a
    path joins its parts with the host separator [sep]. *)
Fixpoint vs_determine_image_chapter (sep : pystr) (cs : list Chapter) (image_path : path) : Z :=
  match cs with
  | [] => 1
  | chapter :: r =>
      if contains (join sep (folder_path chapter)) (join sep image_path)
      then number chapter
      else vs_determine_image_chapter sep r image_path
  end.

(** [for image_path in chapter_images[chapter_num]]: one [ImageMetadata]
    each. *)
Fixpoint metadata_pages (sep : pystr) (base : path) (imgs : list path) (chapter_num : Z)
  (page_counter : Z) : list ImageMetadata :=
  match imgs with
  | [] => []
  | img :: r =>
      mkImageMetadata page_counter (reader_src sep base img) chapter_num
                      (u "Page " ++ z_to_pystr page_counter) 800
      :: metadata_pages sep base r chapter_num (page_counter + 1)
  end.

Fixpoint metadata_loop (sep : pystr) (base : path) (ci : list (Z * list path))
  (cs : list Chapter) (page_counter : Z) : list ImageMetadata :=
  match cs with
  | [] => []
  | chapter :: r =>
      match dict_get ci (number chapter) with
      | None => metadata_loop sep base ci r page_counter
      | Some imgs =>
          metadata_pages sep base imgs (number chapter) page_counter
          ++ metadata_loop sep base ci r (page_counter + Z.of_nat (List.length imgs))
      end
  end.

(** [_collect_image_metadata] on the images [all_images] its [os.walk] loop
    collected; [None] when a sort raises. *)
Definition collect_image_metadata (sep : pystr) (md : MangaMetadata) (all_images : list path)
  : option (list ImageMetadata) :=
  let key img := natural_sort_key (join sep (skipn (List.length (base_path md)) img)) in
  let chapter_images :=
    group_by_chapter (vs_determine_image_chapter sep (chapters md)) all_images in
  match traverse_opt (fun '(n, l) => option_map (pair n) (sort_by_key key l)) chapter_images with
  | None => None
  | Some ci =>
      Some (metadata_loop sep (base_path md) ci
              (sort_by (fun a b => number a <? number b) (chapters md)) 1)
  end.

(* ------------------------------------------------------------------ *)
(** ** [get_manga_images] (create_progressive_reader.py, lines 15-54) *)

Definition PROGRESSIVE_EXTENSIONS : list pystr :=
  map u [".png"; ".jpg"; ".jpeg"; ".gif"; ".bmp"; ".webp"; ".avif"]%string.

(** The dict appended for each image. *)
Record prog_image : Type := mkProgImage {
  pg_page : Z;
  pg_src : pystr;
  pg_name : pystr;
  pg_chapter : Z
}.

(** [for file in image_files]: [root] is the directory of the walk, [sep]
    the host separator of [str]. *)
Fixpoint prog_append (sep : pystr) (folder_path root : path) (files : list pystr)
  (images : list prog_image) (total_pages : Z) : list prog_image * Z :=
  match files with
  | [] => (images, total_pages)
  | file :: r =>
      prog_append sep folder_path root r
        (images ++ [mkProgImage (total_pages + 1) (reader_src sep folder_path (root ++ [file]))
                                file (Z.of_nat (List.length images) / 100 + 1)])
        (total_pages + 1)
  end.

(** [for root, dirs, files in os.walk(folder_path)]; [None] when a sort
    raises. *)
Fixpoint prog_walk (sep : pystr) (folder_path : path) (ws : list (path * list pystr))
  (images : list prog_image) (total_pages : Z) : option (list prog_image * Z) :=
  match ws with
  | [] => Some (images, total_pages)
  | (root, files) :: r =>
      let image_files :=
        filter (fun file => str_mem (py_lower (name_suffix file)) PROGRESSIVE_EXTENSIONS) files in
      match sort_with_key progressive_sort_key image_files with
      | None => None
      | Some sorted =>
          let '(images', total') := prog_append sep folder_path root sorted images total_pages in
          prog_walk sep folder_path r images' total'
      end
  end.

(** [except Exception: return [], 0]. *)
Definition get_manga_images (sep : pystr) (folder_path : path) (t : tree)
  : list prog_image * Z :=
  match prog_walk sep folder_path (walk folder_path t) [] 0 with
  | Some res => res
  | None => ([], 0)
  end.

(** What the loop keeps: [total_pages] counts the images, the pages run
    [1, ..., n], and each image's chapter is [(page - 1) // 100 + 1]. *)
Definition prog_inv (images : list prog_image) (total_pages : Z) : Prop :=
  total_pages = Z.of_nat (List.length images)
  /\ map pg_page images = zseq 1 (List.length images)
  /\ Forall (fun e => pg_chapter e = (pg_page e - 1) / 100 + 1) images.

(** The files a walk entry selects, by name. *)
Definition prog_selected (files : list pystr) : list pystr :=
  filter (fun file => str_mem (py_lower (name_suffix file)) PROGRESSIVE_EXTENSIONS) files.

(** The files of the walk that [get_manga_images] selects, in walk order. *)
Definition progressive_files (folder_path : path) (t : tree) : list path :=
  flat_map (fun e => map (fun f => fst e ++ [f])
                         (filter (fun file => str_mem (py_lower (name_suffix file))
                                                      PROGRESSIVE_EXTENSIONS) (snd e)))
           (walk folder_path t).

(** The end-to-end example of the spec: [root.jpg], [ch1/a.png],
    [ch1/b.png], [ch2/1.png], [ch2/2.png]. *)
Definition sample_tree : tree :=
  Node [u "root.jpg"]
       [(u "ch1", Node [u "a.png"; u "b.png"] []);
        (u "ch2", Node [u "1.png"; u "2.png"] [])].

Definition sample_base : path := [u "manga"].

(** A root with a folder [a] holding no image and a folder [b] holding
    [1.png]. *)
Definition gap_tree : tree :=
  Node [] [(u "a", Node [u "notes.txt"] []); (u "b", Node [u "1.png"] [])].

(** Nested folders: [a/x.png], [a/b/y.png], [c/z.png]. *)
Definition nested_tree : tree :=
  Node [] [(u "a", Node [u "x.png"] [(u "b", Node [u "y.png"] [])]);
           (u "c", Node [u "z.png"] [])].

(** A small world for the loops: a file [f.txt] and a directory [manga];
    generation writes its output file into the world. *)
Definition sample_fs : list (path * node_kind) :=
  [([u "f.txt"], NFile); ([u "manga"], NDir)].

Definition sample_lookup (w : list (path * node_kind)) (p : path) : option node_kind :=
  option_map snd (find (fun e => path_eqb (fst e) p) w).

Definition sample_resolve (s : pystr) : path := [s].

Definition sample_generate_v3 (p : path) (w : list (path * node_kind))
  : option (path * list (path * node_kind)) :=
  Some (p ++ [u "index-mb.html"], (p ++ [u "index-mb.html"], NFile) :: w).

Definition sample_generate_v4 (p : path) (_ : bool) (n : pystr) (w : list (path * node_kind))
  : option (option path * list (path * node_kind)) :=
  Some (Some (p ++ [n]), (p ++ [n], NFile) :: w).

(** A book folder holding both reader templates. *)
Definition sample_book_folder : folder_state :=
  [(u "001.jpg", FsFile [255; 216; 255]);
   (INDEX_MB, FsFile (u "<html>index-mb</html>"));
   (MANGA_READER_FIX, FsFile (u "<html>fix</html>"))].

Definition sample_chapters : list Chapter :=
  [mkChapter 1 (u "Introduction") [u "m"] 1 1 1;
   mkChapter 2 (u "A") [u "m"; u "a"] 1 2 2;
   mkChapter 3 (u "B") [u "m"; u "a"; u "b"] 1 3 3].

(** Metadata whose chapters are listed out of number order, and three
    images of its two folders. *)
Definition unordered_metadata : MangaMetadata :=
  mkMangaMetadata (u "manga")
    [mkChapter 2 (u "B") [u "manga"; u "b"] 1 3 3;
     mkChapter 1 (u "A") [u "manga"; u "a"] 2 1 2] 3 [u "manga"].

Definition unordered_images : list path :=
  [[u "manga"; u "b"; u "2.png"]; [u "manga"; u "a"; u "10.png"];
   [u "manga"; u "a"; u "9.png"]].

(** A bookshelf root on a first run: one book folder with two images and
    no reader file yet, and a stray file. *)
Definition fresh_shelf : list (pystr * shelf_entry) :=
  [(u "Series.My_Book",
    ShelfDir [(u "001.jpg", FsFile [255; 216; 255]); (u "002.jpg", FsFile [255; 216; 255])]
             true (Node [u "001.jpg"; u "002.jpg"] []));
   (u "notes.txt", ShelfFile)].

(** A collection of 1001 pages and the images [_collect_image_metadata]
    lists for it. *)
Definition sample_metadata_1001 : MangaMetadata :=
  mkMangaMetadata (u "manga") [] 1001 sample_base.

Definition sample_images_1001 : list ImageMetadata :=
  map (fun i => mkImageMetadata (Z.of_nat i + 1) (u "p.png") 1 (u "Page") 800) (seq 0 1001).

(* ================================================================== *)
(** * Proofs *)

(* ------------------------------------------------------------------ *)
(** ** Paths and trees *)

Lemma is_prefix_app f p : is_prefix f p = true <-> exists r, p = f ++ r.
Proof.
  revert p; induction f as [|x f IH]; intros [|y p]; simpl.
  - split; eauto.
  - split; eauto.
  - split; [discriminate|intros [r H]; discriminate].
  - rewrite andb_true_iff, str_eqb_eq, IH. split.
    + intros [-> [r ->]]; eauto.
    + intros [r H]; inversion H; subst; eauto.
Qed.

Lemma tree_ind' (P : tree -> Prop)
  (H : forall fs ds, (forall n t', In (n, t') ds -> P t') -> P (Node fs ds)) :
  forall t, P t.
Proof.
  fix IH 1. intros [fs ds]. apply H.
  assert (Hall : Forall (fun nt => P (snd nt)) ds).
  { induction ds as [|nt r IHr]; constructor; [apply IH | exact IHr]. }
  intros n t' Hin. rewrite Forall_forall in Hall. exact (Hall _ Hin).
Qed.

Lemma wf_tree_child fs ds n t' :
  wf_tree (Node fs ds) -> In (n, t') ds -> wf_tree t'.
Proof.
  intros [_ [_ Hc]] Hin. induction ds as [|[m s] r IHr]; simpl in *; [contradiction|].
  destruct Hc as [Hs Hr]. destruct Hin as [E|Hin]; [inversion E; subst; exact Hs|].
  exact (IHr Hr Hin).
Qed.

Lemma in_walk_children p ds e :
  In e (flat_map (fun '(n, t') => walk (p ++ [n]) t') ds) ->
  exists n t', In (n, t') ds /\ In e (walk (p ++ [n]) t').
Proof.
  intros Hin. apply in_flat_map in Hin as [[n t'] [Hnt He]]. eauto.
Qed.

Lemma walk_prefix t : forall p e, In e (walk p t) -> exists r, fst e = p ++ r.
Proof.
  induction t as [fs ds IH] using tree_ind'. intros p e [E|Hin].
  - subst e. exists []. simpl; rewrite app_nil_r; reflexivity.
  - apply in_walk_children in Hin as [n [t' [Hnt He]]].
    destruct (IH n t' Hnt (p ++ [n]) e He) as [r Hr].
    exists (n :: r). rewrite Hr, <- app_assoc; reflexivity.
Qed.

(** Entries below the top are strictly longer than the top. *)
Lemma walk_children_prefix p ds e :
  In e (flat_map (fun '(n, t') => walk (p ++ [n]) t') ds) ->
  exists n r, In n (map fst ds) /\ fst e = p ++ n :: r.
Proof.
  intros Hin. apply in_walk_children in Hin as [n [t' [Hnt He]]].
  destruct (walk_prefix t' _ _ He) as [r Hr]. exists n, r. split.
  - apply in_map_iff. exists (n, t'); auto.
  - rewrite Hr, <- app_assoc; reflexivity.
Qed.

Lemma app_cons_neq {A} (p r : list A) n : p ++ n :: r <> p.
Proof.
  intros H. apply (f_equal (@List.length A)) in H.
  rewrite length_app in H; simpl in H; lia.
Qed.

Lemma nodup_fst_unique {A B} (l : list (A * B)) a b b' :
  NoDup (map fst l) -> In (a, b) l -> In (a, b') l -> b = b'.
Proof.
  induction l as [|[x y] r IH]; simpl; [contradiction|].
  intros Hnd H1 H2. inversion Hnd as [|? ? Hx Hr]; subst.
  destruct H1 as [E1|H1], H2 as [E2|H2].
  - inversion E1; inversion E2; subst; reflexivity.
  - inversion E1; subst. exfalso; apply Hx, in_map_iff. exists (a, b'); auto.
  - inversion E2; subst. exfalso; apply Hx, in_map_iff. exists (a, b); auto.
  - eauto.
Qed.

Lemma walk_nodup t : wf_tree t -> forall p, NoDup (map fst (walk p t)).
Proof.
  induction t as [fs ds IH] using tree_ind'. intros Hwf p. simpl.
  constructor.
  - intros Hin. apply in_map_iff in Hin as [e [Ee Hin]].
    destruct (walk_children_prefix _ _ _ Hin) as [n [r [_ Hr]]].
    rewrite Ee in Hr. symmetry in Hr. exact (app_cons_neq _ _ _ Hr).
  - pose proof Hwf as [Hnd _].
    assert (Hch : forall n t', In (n, t') ds -> wf_tree t')
      by (intros; eapply wf_tree_child; eauto).
    clear Hwf. induction ds as [|[n t'] r IHr]; simpl; [constructor|].
    rewrite map_app. inversion Hnd as [|? ? Hn Hr]; subst.
    apply NoDup_app.
    + apply (IH n t'); [left; reflexivity | apply (Hch n t'); left; reflexivity].
    + apply IHr; [| exact Hr |].
      * intros m s Hms. apply (IH m s). right; exact Hms.
      * intros m s Hms. apply (Hch m s). right; exact Hms.
    + intros a Ha1 Ha2.
      apply in_map_iff in Ha1 as [e1 [E1 H1]].
      apply in_map_iff in Ha2 as [e2 [E2 H2]].
      destruct (walk_prefix _ _ _ H1) as [r1 R1].
      destruct (walk_children_prefix _ _ _ H2) as [m [r2 [Hm R2]]].
      rewrite <- E1, <- E2, <- app_assoc in *. rewrite R1 in R2.
      apply app_inv_head in R2. inversion R2; subst. contradiction.
Qed.

(** A file path of the walk is never a directory path of the walk. *)
Lemma walk_files_not_dirs t : wf_tree t ->
  forall p e f, In e (walk p t) -> In f (snd e) ->
  ~ In (fst e ++ [f]) (map fst (walk p t)).
Proof.
  induction t as [fs ds IH] using tree_ind'. intros Hwf p e f He Hf Hin.
  pose proof Hwf as [Hnd [Hfd _]].
  simpl in Hin. destruct Hin as [E|Hin].
  - (* the candidate is the top itself *)
    destruct He as [He|He].
    + subst e. simpl in E. symmetry in E. exact (app_cons_neq _ _ _ E).
    + destruct (walk_children_prefix _ _ _ He) as [n [r [_ Hr]]].
      rewrite Hr, <- app_assoc in E. symmetry in E.
      exact (app_cons_neq _ _ _ E).
  - apply in_map_iff in Hin as [e2 [E2 H2]].
    apply in_walk_children in H2 as [m [t2 [Hmt H2]]].
    destruct He as [He|He].
    + (* a file of the top named like a sub-directory *)
      subst e. simpl in *.
      destruct (walk_prefix _ _ _ H2) as [r R]. rewrite E2, <- app_assoc in R.
      apply app_inv_head in R. inversion R; subst.
      apply (Hfd m Hf). apply in_map_iff. exists (m, t2); auto.
    + apply in_walk_children in He as [n [t1 [Hnt He]]].
      destruct (walk_prefix _ _ _ He) as [r1 R1].
      destruct (walk_prefix _ _ _ H2) as [r2 R2].
      rewrite E2 in R2. rewrite R1, <- !app_assoc in R2.
      apply app_inv_head in R2. simpl in R2. inversion R2; subst m.
      rewrite (nodup_fst_unique _ _ _ _ Hnd Hmt Hnt) in H2.
      apply (IH n t1 Hnt (wf_tree_child _ _ _ _ Hwf Hnt) (p ++ [n]) e f He Hf).
      apply in_map_iff. exists e2; split; auto.
Qed.

(* ------------------------------------------------------------------ *)
(** ** Grouping images by folder *)

Lemma first_folder_some F x g :
  first_folder F x = Some g -> In g F /\ is_prefix g x = true.
Proof.
  induction F as [|f F IH]; simpl; [discriminate|].
  destruct (is_prefix f x) eqn:E.
  - intros H; inversion H; subst; auto.
  - intros H; destruct (IH H); auto.
Qed.

Lemma first_folder_found F x g :
  In g F -> is_prefix g x = true -> first_folder F x <> None.
Proof.
  induction F as [|f F IH]; simpl; [contradiction|].
  intros [->|Hin] Hp; [rewrite Hp; discriminate|].
  destruct (is_prefix f x); [discriminate|]. auto.
Qed.

Lemma first_folder_none F x :
  (forall g, In g F -> is_prefix g x = false) -> first_folder F x = None.
Proof.
  induction F as [|f F IH]; simpl; intros H; [reflexivity|].
  rewrite (H f (or_introl eq_refl)). apply IH; auto.
Qed.

Definition is_some {A} (o : option A) : bool :=
  match o with Some _ => true | None => false end.

Lemma list_sum_map_add {A} (a b : A -> nat) l :
  list_sum (map (fun x => (a x + b x)%nat) l) = (list_sum (map a l) + list_sum (map b l))%nat.
Proof. induction l as [|x l IH]; simpl; [reflexivity|]. rewrite IH; lia. Qed.

Lemma sum_indicator_absent g F :
  ~ In g F -> list_sum (map (fun f => if path_eqb g f then 1 else 0)%nat F) = 0%nat.
Proof.
  induction F as [|f F IH]; simpl; intros H; [reflexivity|].
  destruct (path_eqb g f) eqn:E.
  - apply path_eqb_eq in E; subst. exfalso; auto.
  - simpl. apply IH; auto.
Qed.

Lemma sum_indicator_present g F :
  NoDup F -> In g F ->
  list_sum (map (fun f => if path_eqb g f then 1 else 0)%nat F) = 1%nat.
Proof.
  induction F as [|f F IH]; simpl; [contradiction|].
  intros Hnd Hin. inversion Hnd as [|? ? Hf HF]; subst.
  destruct (path_eqb g f) eqn:E.
  - apply path_eqb_eq in E; subst. rewrite sum_indicator_absent; auto.
  - destruct Hin as [->|Hin];
      [rewrite (proj2 (path_eqb_eq _ _) eq_refl) in E; discriminate|].
    simpl. auto.
Qed.

(** Each image found in some folder is counted in exactly one group. *)
Lemma group_sizes F I :
  NoDup F ->
  list_sum (map (fun f => List.length (group_images_by_chapter F I f)) F)
  = List.length (filter (fun x => is_some (first_folder F x)) I).
Proof.
  intros Hnd. unfold group_images_by_chapter.
  induction I as [|x I IH]; simpl.
  - clear Hnd. induction F; simpl; auto.
  - transitivity (list_sum (map (fun f =>
        (match first_folder F x with Some g => if path_eqb g f then 1 else 0
                                    | None => 0 end
        + List.length (filter (fun img => match first_folder F img with
                                  | Some g => path_eqb g f | None => false end) I))%nat) F)).
    + f_equal. apply map_ext. intros f.
      destruct (first_folder F x); [destruct (path_eqb p f)|]; reflexivity.
    + rewrite list_sum_map_add, IH.
      destruct (first_folder F x) as [g|] eqn:E; simpl.
      * rewrite sum_indicator_present; auto. apply (first_folder_some _ _ _ E).
      * assert (Z0 : forall L : list path, list_sum (map (fun _ => 0%nat) L) = 0%nat)
          by (induction L; simpl; auto).
        rewrite Z0. reflexivity.
Qed.

Lemma length_filter_split {A} (p q : A -> bool) l :
  (forall x, In x l -> q x = negb (p x)) ->
  List.length l = (List.length (filter q l) + List.length (filter p l))%nat.
Proof.
  induction l as [|x l IH]; simpl; intros H; [reflexivity|].
  rewrite (H x (or_introl eq_refl)).
  destruct (p x); simpl; rewrite IH by auto; lia.
Qed.

(* ------------------------------------------------------------------ *)
(** ** Page ranges *)

(** Chapters laid out one after the other from page [cur]. *)
Fixpoint chain (cur : Z) (cs : list Chapter) : Prop :=
  match cs with
  | [] => True
  | c :: r => start_page c = cur /\ end_page c = cur + page_count c - 1 /\
              chain (cur + page_count c) r
  end.

Fixpoint sum_counts (cs : list Chapter) : Z :=
  match cs with [] => 0 | c :: r => page_count c + sum_counts r end.

Lemma chain_app cur a b :
  chain cur a -> chain (cur + sum_counts a) b -> chain cur (a ++ b).
Proof.
  revert cur; induction a as [|c a IH]; simpl; intros cur Ha Hb.
  - rewrite Z.add_0_r in Hb; exact Hb.
  - destruct Ha as [H1 [H2 H3]]. repeat split; auto.
    apply IH; auto. rewrite <- Z.add_assoc; exact Hb.
Qed.

Lemma sum_counts_app a b : sum_counts (a ++ b) = sum_counts a + sum_counts b.
Proof. induction a; simpl; lia. Qed.

Lemma subdirectory_chapters_chain g fs : forall i off cur,
  chain cur (subdirectory_chapters g fs i off cur) /\
  sum_counts (subdirectory_chapters g fs i off cur)
  = Z.of_nat (list_sum (map (fun f => List.length (g f)) fs)).
Proof.
  induction fs as [|f fs IH]; intros i off cur; [simpl; split; auto|].
  cbn [subdirectory_chapters map list_sum]. destruct (g f) as [|x l] eqn:E.
  - apply IH.
  - set (n := Z.of_nat (List.length (x :: l))).
    destruct (IH (i + 1) off (cur + n)) as [Hc Hs].
    cbn [chain sum_counts]. repeat split; auto. rewrite Hs. cbn [page_count]. unfold n.
    change (list_sum (?a :: ?r)) with (a + list_sum r)%nat. lia.
Qed.

Lemma chain_counts cur cs c :
  chain cur cs -> In c cs -> end_page c - start_page c + 1 = page_count c.
Proof.
  revert cur; induction cs as [|d cs IH]; simpl; intros cur H Hin; [contradiction|].
  destruct H as [H1 [H2 H3]]. destruct Hin as [->|Hin]; [lia|eauto].
Qed.

Lemma chain_consecutive cur cs : chain cur cs ->
  forall i c1 c2, nth_error cs i = Some c1 -> nth_error cs (S i) = Some c2 ->
  end_page c1 + 1 = start_page c2.
Proof.
  revert cur; induction cs as [|d cs IH]; intros cur H i c1 c2 E1 E2;
    [destruct i; discriminate|].
  destruct H as [H1 [H2 H3]]. destruct i as [|i]; simpl in *.
  - inversion E1; subst. destruct cs as [|e cs]; [discriminate|].
    simpl in E2; inversion E2; subst. destruct H3 as [H4 _]. lia.
  - eauto.
Qed.

Lemma chain_last cur cs c : chain cur cs ->
  nth_error cs (List.length cs - 1) = Some c -> end_page c = cur + sum_counts cs - 1.
Proof.
  revert cur; induction cs as [|d cs IH]; intros cur H E; [discriminate|].
  destruct H as [H1 [H2 H3]]. destruct cs as [|e cs].
  - simpl in E; inversion E; subst; simpl; lia.
  - simpl in E.
    rewrite (IH (cur + page_count d) H3); [simpl; lia|].
    simpl; rewrite Nat.sub_0_r; exact E.
Qed.

(* ------------------------------------------------------------------ *)
(** ** What the scan returns *)

Lemma map_filter_comm {A B} (f : A -> B) (g : B -> bool) l :
  map f (filter (fun x => g (f x)) l) = filter g (map f l).
Proof.
  induction l as [|x l IH]; simpl; [reflexivity|].
  destruct (g (f x)); simpl; rewrite IH; reflexivity.
Qed.

(** Every image of the scan lies directly in the root (and then no folder
    contains it) or in a scanned folder; the folders are distinct. *)
Lemma scan_image_class guess_type base t : wf_tree t ->
  NoDup (fst (scan_directory guess_type base t)) /\
  forall x, In x (snd (scan_directory guess_type base t)) ->
    path_eqb (path_parent x) base
    = negb (is_some (first_folder (fst (scan_directory guess_type base t)) x)).
Proof.
  intros Hwf. unfold scan_directory; cbn [fst snd].
  set (ws := walk base t).
  set (folders0 := map fst (filter (fun e => negb (path_eqb (fst e) base)) ws)).
  assert (Hf0 : forall g, In g folders0 <-> In g (map fst ws) /\ g <> base).
  { intros g. unfold folders0.
    rewrite (map_filter_comm fst (fun q => negb (path_eqb q base))), filter_In.
    rewrite negb_true_iff. split; intros [H1 H2]; split; auto.
    - intros ->. rewrite (proj2 (path_eqb_eq _ _) eq_refl) in H2; discriminate.
    - destruct (path_eqb g base) eqn:E; auto. apply path_eqb_eq in E; contradiction. }
  assert (Hfolders : forall g, In g (sort_by path_ltb folders0) <-> In g folders0).
  { intros g; split; apply Permutation_in;
      [|symmetry]; apply sort_by_perm. }
  split.
  - eapply Permutation_NoDup; [symmetry; apply sort_by_perm|].
    unfold folders0. rewrite (map_filter_comm fst (fun q => negb (path_eqb q base))).
    apply NoDup_filter, walk_nodup, Hwf.
  - intros x Hx. apply (Permutation_in _ (sort_by_perm _ _)) in Hx.
    apply in_flat_map in Hx as [[d fs] [He Hx]].
    apply filter_In in Hx as [Hx _].
    apply in_map_iff in Hx as [f [<- Hf]]. cbn [fst snd] in *.
    unfold path_parent. rewrite removelast_last.
    destruct (path_eqb d base) eqn:Eb.
    + apply path_eqb_eq in Eb. subst d.
      rewrite first_folder_none; [reflexivity|].
      intros g Hg. apply Hfolders, Hf0 in Hg as [Hg Hgb].
      destruct (is_prefix g (base ++ [f])) eqn:Ep; [exfalso|reflexivity].
      apply is_prefix_app in Ep as [r' Er'].
      apply in_map_iff in Hg as [e' [Ee' He']].
      destruct (walk_prefix _ _ _ He') as [r Er]. rewrite Ee' in Er.
      rewrite Er, <- app_assoc in Er'. apply app_inv_head in Er'.
      destruct r as [|a r]; [apply Hgb; rewrite Er, app_nil_r; reflexivity|].
      simpl in Er'. inversion Er'; subst a.
      destruct r; [|discriminate].
      apply (walk_files_not_dirs t Hwf base (base, fs) f He Hf).
      cbn [fst]. rewrite <- Er, <- Ee'. apply in_map. exact He'.
    + assert (Hd : In d (sort_by path_ltb folders0)).
      { apply Hfolders, Hf0. split.
        - apply (in_map fst) in He; exact He.
        - intros E; rewrite E, (proj2 (path_eqb_eq _ _) eq_refl) in Eb; discriminate. }
      destruct (first_folder (sort_by path_ltb folders0) (d ++ [f])) eqn:Ef.
      * reflexivity.
      * exfalso. refine (first_folder_found _ _ _ Hd _ Ef).
        apply is_prefix_app. eauto.
Qed.

(** The page ranges of [analyze_manga] after a scan. *)
Lemma scan_and_analyze_chain guess_type base t : wf_tree t ->
  chain 1 (chapters (scan_and_analyze guess_type base t)) /\
  sum_counts (chapters (scan_and_analyze guess_type base t))
  = total_pages (scan_and_analyze guess_type base t).
Proof.
  intros Hwf. pose proof (scan_image_class guess_type base t Hwf) as [Hnd Hcls].
  unfold scan_and_analyze.
  destruct (scan_directory guess_type base t) as [folders images].
  cbn [fst snd] in Hnd, Hcls.
  pose proof (length_filter_split
                (fun x => is_some (first_folder folders x))
                (fun img => path_eqb (path_parent img) base) images Hcls) as Hlen.
  pose proof (group_sizes folders images Hnd) as Hgs.
  unfold analyze_manga; cbn [chapters total_pages].
  destruct (filter (fun img => path_eqb (path_parent img) base) images)
    as [|r0 rs] eqn:ER.
  - destruct (subdirectory_chapters_chain (group_images_by_chapter folders images)
                folders 0 1 1) as [Hc Hs].
    split; [exact Hc|]. simpl app. rewrite Hs, Hgs, Hlen. simpl. lia.
  - set (n := Z.of_nat (List.length (r0 :: rs))).
    destruct (subdirectory_chapters_chain (group_images_by_chapter folders images)
                folders 0 2 (1 + n)) as [Hc Hs].
    split.
    + apply chain_app.
      * cbn [chain page_count start_page end_page]. repeat split; auto.
      * cbn [sum_counts page_count]. rewrite Z.add_0_r. exact Hc.
    + rewrite sum_counts_app, Hs, Hgs, Hlen. cbn [sum_counts page_count].
      unfold n. lia.
Qed.

(** ** C1 *)

(** Claim C1: for every root directory, the chapters of
    [MangaAnalyzer.analyze_manga] (after [FileSystemScanner.scan_directory])
    satisfy [end_page - start_page + 1 = page_count]; the first chapter
    starts at page 1; consecutive chapters are contiguous
    ([end_page + 1] of one is [start_page] of the next); the last chapter
    ends at [total_pages], the number of images returned by the scan.  The
    root is any directory tree a file system can hold ([wf_tree]). *)
Theorem analyze_manga_contiguous_pages guess_type base t :
  wf_tree t ->
  let md := scan_and_analyze guess_type base t in
  let cs := chapters md in
  (forall c, In c cs -> end_page c - start_page c + 1 = page_count c) /\
  (forall c r, cs = c :: r -> start_page c = 1) /\
  (forall i c1 c2, nth_error cs i = Some c1 -> nth_error cs (S i) = Some c2 ->
                   end_page c1 + 1 = start_page c2) /\
  (forall c, nth_error cs (List.length cs - 1) = Some c -> end_page c = total_pages md) /\
  total_pages md = Z.of_nat (List.length (snd (scan_directory guess_type base t))).
Proof.
  intros Hwf md cs.
  destruct (scan_and_analyze_chain guess_type base t Hwf) as [Hc Hs].
  fold md in Hc, Hs. fold cs in Hc, Hs.
  split; [|split; [|split; [|split]]].
  - intros c Hin. exact (chain_counts _ _ _ Hc Hin).
  - intros c r E. rewrite E in Hc. apply Hc.
  - exact (chain_consecutive _ _ Hc).
  - intros c E. rewrite (chain_last _ _ _ Hc E), Hs. lia.
  - unfold md, scan_and_analyze.
    destruct (scan_directory guess_type base t); reflexivity.
Qed.

(** Well-formedness of a concrete directory tree, by evaluation. *)
Ltac wf_concrete :=
  simpl; repeat split;
  repeat match goal with
  | |- NoDup [] => constructor
  | |- NoDup (_ :: _) =>
      constructor;
      [simpl; let H := fresh in intros H; repeat destruct H as [H|H];
       try contradiction; vm_compute in H; discriminate|]
  | |- forall f, _ -> ~ _ =>
      let f := fresh "f" in let Hf := fresh in let Hn := fresh in
      intros f Hf Hn; repeat destruct Hf as [Hf|Hf]; try contradiction;
      subst f; repeat destruct Hn as [Hn|Hn]; try contradiction;
      vm_compute in Hn; discriminate
  end.

Lemma analyze_manga_contiguous_pages_witness :
  wf_tree sample_tree /\
  (forall c, nth_error (chapters (scan_and_analyze (fun _ => None) sample_base sample_tree))
               (List.length (chapters (scan_and_analyze (fun _ => None) sample_base sample_tree)) - 1)
             = Some c -> end_page c = 5).
Proof.
  assert (Hwf : wf_tree sample_tree).
  { wf_concrete. }
  split; [exact Hwf|].
  intros c Hc.
  destruct (analyze_manga_contiguous_pages (fun _ => None) sample_base sample_tree Hwf)
    as [_ [_ [_ [Hlast _]]]].
  rewrite (Hlast c Hc). vm_compute. reflexivity.
Defined.

(** ** C2 *)

(** Claim C2 (code_bug): the chapter numbers of [analyze_manga] are
    [1 .. len(chapters)], a chapter per sub-directory holding an image.
    They are not: the number is [i + offset] with [i] the folder's index
    among all scanned folders, so a folder without images leaves a gap; and
    an image is grouped under its outermost scanned ancestor, so a nested
    folder holding images directly gets no chapter.  On [gap_tree] the only
    chapter is numbered 2; on [nested_tree] the chapters are numbered 1
    and 3, and [a/b] (holding [y.png]) is no chapter. *)
Theorem analyze_manga_number_gap guess_type :
  map number (chapters (scan_and_analyze guess_type sample_base gap_tree)) = [2] /\
  map number (chapters (scan_and_analyze guess_type sample_base nested_tree)) = [1; 3] /\
  map folder_path (chapters (scan_and_analyze guess_type sample_base nested_tree))
  = [sample_base ++ [u "a"]; sample_base ++ [u "c"]] /\
  map page_count (chapters (scan_and_analyze guess_type sample_base nested_tree))
  = [2; 1].
Proof. vm_compute. repeat split. Qed.

(* ------------------------------------------------------------------ *)
(** ** Natural sort: the order on keys *)

Lemma str_ltb_irrefl a : str_ltb a a = false.
Proof. induction a as [|x a IH]; simpl; [reflexivity|]. rewrite Z.ltb_irrefl, Z.eqb_refl. exact IH. Qed.

Lemma str_ltb_trans a b c :
  str_ltb a b = true -> str_ltb b c = true -> str_ltb a c = true.
Proof.
  revert b c; induction a as [|x a IH]; intros [|y b] [|z c]; simpl; try discriminate; auto.
  rewrite !orb_true_iff, !andb_true_iff, !Z.ltb_lt, !Z.eqb_eq.
  intros [Hxy | [Hxy Hab]] [Hyz | [Hyz Hbc]]; subst; auto; try (left; lia).
  right; split; [reflexivity | eauto].
Qed.

Lemma str_ltb_asym a b : str_ltb a b = true -> str_ltb b a = false.
Proof.
  revert b; induction a as [|x a IH]; intros [|y b]; simpl; try discriminate; auto.
  rewrite orb_true_iff, andb_true_iff, Z.ltb_lt, Z.eqb_eq.
  intros [H | [-> H]].
  - rewrite (proj2 (Z.ltb_ge y x)) by lia. rewrite (proj2 (Z.eqb_neq y x)) by lia. reflexivity.
  - rewrite Z.ltb_irrefl, Z.eqb_refl. simpl. auto.
Qed.

Lemma str_ltb_total a b : str_ltb a b = false -> str_ltb b a = false -> a = b.
Proof.
  revert b; induction a as [|x a IH]; intros [|y b]; simpl; try discriminate; auto.
  rewrite !orb_false_iff, !andb_false_iff, !Z.ltb_ge, !Z.eqb_neq.
  intros [H1 [H2 | H2]] [H3 [H4 | H4]]; try lia.
  assert (x = y) by lia. subst. f_equal. auto.
Qed.

Lemma part_eqb_eq a b : part_eqb a b = true <-> a = b.
Proof.
  destruct a as [x|s], b as [y|t]; simpl; try (split; congruence).
  - rewrite Z.eqb_eq. split; congruence.
  - rewrite str_eqb_eq. split; congruence.
Qed.

Lemma part_eqb_refl a : part_eqb a a = true.
Proof. apply part_eqb_eq; reflexivity. Qed.

Lemma part_lt_trans a b c :
  part_lt a b = Some true -> part_lt b c = Some true -> part_lt a c = Some true.
Proof.
  destruct a as [x|s], b as [y|t], c as [z|v]; simpl; try discriminate.
  - intros H1 H2; injection H1; injection H2; rewrite !Z.ltb_lt; intros.
    f_equal; apply Z.ltb_lt; lia.
  - intros H1 H2; injection H1; injection H2; intros. f_equal; eauto using str_ltb_trans.
Qed.

Lemma part_lt_irrefl a : part_lt a a = Some false.
Proof. destruct a; simpl; [rewrite Z.ltb_irrefl | rewrite str_ltb_irrefl]; reflexivity. Qed.

Lemma part_lt_asym a b : part_lt a b = Some true -> part_lt b a = Some false.
Proof.
  destruct a as [x|s], b as [y|t]; simpl; try discriminate; intros H; injection H; intros E.
  - rewrite Z.ltb_lt in E. f_equal. apply Z.ltb_ge. lia.
  - f_equal. apply str_ltb_asym. exact E.
Qed.

Lemma part_lt_total a b :
  part_lt a b = Some false -> part_lt b a = Some false -> a = b.
Proof.
  destruct a as [x|s], b as [y|t]; simpl; try discriminate; intros H1 H2;
    injection H1; injection H2; intros E2 E1.
  - rewrite Z.ltb_ge in E1, E2. f_equal. lia.
  - f_equal. apply str_ltb_total; assumption.
Qed.

Lemma key_lt_irrefl k : key_lt k k = Some false.
Proof. induction k as [|x k IH]; simpl; [reflexivity|]. rewrite part_eqb_refl. exact IH. Qed.

Lemma key_lt_trans a b c :
  key_lt a b = Some true -> key_lt b c = Some true -> key_lt a c = Some true.
Proof.
  revert b c; induction a as [|x a IH]; intros [|y b] [|z c]; simpl; try discriminate; auto.
  destruct (part_eqb x y) eqn:Exy, (part_eqb y z) eqn:Eyz.
  - apply part_eqb_eq in Exy, Eyz. subst. rewrite part_eqb_refl. apply IH.
  - apply part_eqb_eq in Exy. subst. rewrite Eyz. intros _ H; exact H.
  - apply part_eqb_eq in Eyz. subst. rewrite Exy. intros H _; exact H.
  - intros H1 H2.
    destruct (part_eqb x z) eqn:Exz.
    + apply part_eqb_eq in Exz. subst.
      apply part_lt_asym in H1. congruence.
    + eauto using part_lt_trans.
Qed.

Lemma key_lt_asym a b : key_lt a b = Some true -> key_lt b a = Some false.
Proof.
  revert b; induction a as [|x a IH]; intros [|y b]; simpl; try discriminate; auto.
  destruct (part_eqb x y) eqn:Exy.
  - apply part_eqb_eq in Exy; subst. rewrite part_eqb_refl. apply IH.
  - assert (Eyx : part_eqb y x = false).
    { destruct (part_eqb y x) eqn:E; auto. apply part_eqb_eq in E; subst.
      rewrite part_eqb_refl in Exy; discriminate. }
    rewrite Eyx. apply part_lt_asym.
Qed.

Lemma key_lt_total a b :
  key_lt a b = Some false -> key_lt b a = Some false -> a = b.
Proof.
  revert b; induction a as [|x a IH]; intros [|y b]; simpl; try discriminate; auto.
  destruct (part_eqb x y) eqn:Exy.
  - apply part_eqb_eq in Exy; subst. rewrite part_eqb_refl. intros H1 H2. f_equal; auto.
  - destruct (part_eqb y x) eqn:Eyx.
    + apply part_eqb_eq in Eyx; subst. rewrite part_eqb_refl in Exy; discriminate.
    + intros H1 H2. pose proof (part_lt_total _ _ H1 H2) as ->.
      rewrite part_eqb_refl in Exy; discriminate.
Qed.

Lemma key_lt_numeric pre x y ra rb :
  x < y ->
  key_lt (pre ++ KInt x :: ra) (pre ++ KInt y :: rb) = Some true /\
  key_lt (pre ++ KInt y :: rb) (pre ++ KInt x :: ra) = Some false.
Proof.
  intros Hxy. induction pre as [|p pre IH]; simpl.
  - rewrite (proj2 (Z.eqb_neq x y)), (proj2 (Z.eqb_neq y x)) by lia.
    rewrite (proj2 (Z.ltb_lt x y)), (proj2 (Z.ltb_ge y x)) by lia. auto.
  - rewrite part_eqb_refl. exact IH.
Qed.

(* ------------------------------------------------------------------ *)
(** ** The Unicode tables, character by character *)

Lemma in_range_list lo hi c : in_range lo hi c = true -> In c (range_list lo hi).
Proof.
  unfold in_range, range_list. intros H. apply andb_true_iff in H as [H1 H2].
  apply Z.leb_le in H1, H2. apply in_map_iff. exists (Z.to_nat (c - lo)).
  split; [rewrite Z2Nat.id by lia; lia|]. apply in_seq. lia.
Qed.

Lemma decimal_in_chars c : is_decimal c = true -> In c DECIMAL_CHARS.
Proof.
  unfold is_decimal, decimal_value.
  destruct (find (fun '(lo, hi, _) => in_range lo hi c) DECIMAL_RANGES) as [[[lo hi] z]|] eqn:E;
    [|discriminate].
  intros _. apply find_some in E as [Hin Hr]. unfold DECIMAL_CHARS.
  apply in_flat_map. exists (lo, hi, z). split; [exact Hin | apply in_range_list; exact Hr].
Qed.

Lemma digit_in_chars c : is_digit_char c = true -> In c DIGIT_CHARS.
Proof.
  unfold is_digit_char, in_ranges. intros H. apply existsb_exists in H as [[lo hi] [Hin Hr]].
  unfold DIGIT_CHARS. apply in_flat_map. exists (lo, hi). split; [exact Hin|].
  apply in_range_list; exact Hr.
Qed.

Lemma map_full_domain runs multi c :
  map_full runs multi c = [c] \/ In c (map_domain runs multi).
Proof.
  unfold map_full, map_domain.
  destruct (find (fun '(c', _) => c' =? c) multi) as [[c' m]|] eqn:E.
  - right. apply find_some in E as [Hin Hc]. apply Z.eqb_eq in Hc. subst c'.
    apply in_or_app; left. apply in_map_iff. exists (c, m). auto.
  - destruct (find (fun '(lo, hi, step, _) => in_range lo hi c && (Z.modulo (c - lo) step =? 0))
                   runs) as [[[[lo hi] step] d]|] eqn:F; [|left; reflexivity].
    right. apply find_some in F as [Hin Hc]. apply andb_true_iff in Hc as [Hc _].
    apply in_or_app; right. apply in_flat_map. exists (lo, hi, step, d).
    split; [exact Hin | apply in_range_list; exact Hc].
Qed.

Lemma case_map_ok_self c : case_map_ok c [c] = true.
Proof.
  unfold case_map_ok. cbn [forallb existsb].
  rewrite !orb_false_r, !andb_true_r, (Z.eqb_sym 95 c), (Z.eqb_sym 45 c).
  destruct (is_decimal c), (is_digit_char c), (c =? 95), (c =? 45); reflexivity.
Qed.

Lemma lower_table_ok :
  forallb (fun c => case_map_ok c (to_lower_full c)) (map_domain LOWER_RUNS LOWER_MULTI) = true.
Proof. vm_compute. reflexivity. Qed.

Lemma title_table_ok :
  forallb (fun c => case_map_ok c (to_title_full c)) (map_domain TITLE_RUNS TITLE_MULTI) = true.
Proof. vm_compute. reflexivity. Qed.

Lemma decimal_table_ok :
  forallb (fun c => is_digit_char c && negb (is_cased c) && negb (is_case_ignorable c))
    DECIMAL_CHARS = true.
Proof. vm_compute. reflexivity. Qed.

Lemma digit_table_ok :
  forallb (fun c => str_eqb (to_lower_full c) [c] && negb (c =? 931)) DIGIT_CHARS = true.
Proof. vm_compute. reflexivity. Qed.

Lemma to_lower_full_ok c : case_map_ok c (to_lower_full c) = true.
Proof.
  destruct (map_full_domain LOWER_RUNS LOWER_MULTI c) as [H|H].
  - unfold to_lower_full. rewrite H. apply case_map_ok_self.
  - exact (proj1 (forallb_forall _ _) lower_table_ok c H).
Qed.

Lemma to_title_full_ok c : case_map_ok c (to_title_full c) = true.
Proof.
  destruct (map_full_domain TITLE_RUNS TITLE_MULTI c) as [H|H].
  - unfold to_title_full. rewrite H. apply case_map_ok_self.
  - exact (proj1 (forallb_forall _ _) title_table_ok c H).
Qed.

Lemma lower_ucs4_ok before c after : case_map_ok c (lower_ucs4 before c after) = true.
Proof.
  unfold lower_ucs4. destruct (c =? 931) eqn:E; [|apply to_lower_full_ok].
  apply Z.eqb_eq in E. subst c. destruct (final_sigma before after); vm_compute; reflexivity.
Qed.

Lemma is_decimal_digit c : is_decimal c = true -> is_digit_char c = true.
Proof.
  intros H. pose proof (proj1 (forallb_forall _ _) decimal_table_ok c (decimal_in_chars c H)) as K.
  apply andb_true_iff in K as [K _]. apply andb_true_iff in K as [K _]. exact K.
Qed.

Lemma decimal_not_cased c : is_decimal c = true -> is_cased c = false /\ is_case_ignorable c = false.
Proof.
  intros H. pose proof (proj1 (forallb_forall _ _) decimal_table_ok c (decimal_in_chars c H)) as K.
  apply andb_true_iff in K as [K K3]. apply andb_true_iff in K as [_ K2].
  apply negb_true_iff in K2, K3. auto.
Qed.

Lemma lower_ucs4_digit before c after :
  is_digit_char c = true -> lower_ucs4 before c after = [c].
Proof.
  intros H. pose proof (proj1 (forallb_forall _ _) digit_table_ok c (digit_in_chars c H)) as K.
  apply andb_true_iff in K as [K1 K2]. apply negb_true_iff in K2.
  unfold lower_ucs4. rewrite K2. apply str_eqb_eq. exact K1.
Qed.

Lemma case_map_ok_nonnil c m : case_map_ok c m = true -> m <> [].
Proof. unfold case_map_ok. destruct m; [discriminate | intros _; discriminate]. Qed.

Lemma case_map_ok_decimal c m :
  case_map_ok c m = true -> is_decimal c = false -> forallb (fun x => negb (is_decimal x)) m = true.
Proof.
  unfold case_map_ok. intros H Hc. rewrite Hc in H.
  destruct m; [discriminate|]. repeat (apply andb_true_iff in H as [H ?]). simpl in *. auto.
Qed.

Lemma case_map_ok_digit c m :
  case_map_ok c m = true -> is_digit_char c = false ->
  m <> [] /\ forallb (fun x => negb (is_digit_char x)) m = true.
Proof.
  unfold case_map_ok. intros H Hc. rewrite Hc in H.
  destruct m; [discriminate|]. repeat (apply andb_true_iff in H as [H ?]).
  split; [discriminate | simpl in *; auto].
Qed.

Lemma case_map_ok_char c m k :
  case_map_ok c m = true -> k = 95 \/ k = 45 -> In k m -> c = k.
Proof.
  unfold case_map_ok. intros H Hk Hin.
  repeat (apply andb_true_iff in H as [H ?]).
  destruct Hk as [-> | ->];
    [destruct (c =? 95) eqn:E | destruct (c =? 45) eqn:E];
    try (apply Z.eqb_eq in E; exact E); simpl in *;
    match goal with
    | Hn : negb (existsb (Z.eqb ?k) m) = true |- _ =>
        apply negb_true_iff in Hn; exfalso;
        assert (existsb (Z.eqb k) m = true) by (apply existsb_exists; exists k; split; [exact Hin | apply Z.eqb_refl]);
        congruence
    end.
Qed.

Lemma final_sigma_split before after :
  final_sigma before after = back_cased before && fwd_open after.
Proof. unfold final_sigma, back_cased, fwd_open. destruct (first_non_ignorable before); reflexivity. Qed.

Lemma lower_ucs4_ctx b1 b2 a1 a2 c :
  back_cased b1 = back_cased b2 -> fwd_open a1 = fwd_open a2 ->
  lower_ucs4 b1 c a1 = lower_ucs4 b2 c a2.
Proof. intros Hb Ha. unfold lower_ucs4. rewrite !final_sigma_split, Hb, Ha. reflexivity. Qed.

Lemma back_cased_cons c b1 b2 :
  back_cased b1 = back_cased b2 -> back_cased (c :: b1) = back_cased (c :: b2).
Proof. unfold back_cased. cbn [first_non_ignorable]. destruct (is_case_ignorable c); auto. Qed.

Lemma lower_aux_ctx s b1 b2 : back_cased b1 = back_cased b2 -> lower_aux b1 s = lower_aux b2 s.
Proof.
  revert b1 b2. induction s as [|c s IH]; intros b1 b2 Hb; [reflexivity|].
  cbn [lower_aux]. rewrite (lower_ucs4_ctx b1 b2 s s c Hb eq_refl).
  rewrite (IH (c :: b1) (c :: b2)) by (apply back_cased_cons; exact Hb). reflexivity.
Qed.

Lemma back_cased_decimal d b : is_decimal d = true -> back_cased (d :: b) = back_cased [].
Proof.
  intros H. destruct (decimal_not_cased d H) as [H1 H2].
  unfold back_cased. cbn [first_non_ignorable]. rewrite H2, H1. reflexivity.
Qed.

Lemma fwd_open_decimal x d r : is_decimal d = true -> fwd_open (x ++ d :: r) = fwd_open x.
Proof.
  intros H. destruct (decimal_not_cased d H) as [H1 H2]. unfold fwd_open.
  induction x as [|c x IH]; cbn [app first_non_ignorable].
  - rewrite H2, H1. reflexivity.
  - destruct (is_case_ignorable c); [exact IH | reflexivity].
Qed.

Lemma lower_aux_decimal_cons b d s :
  is_decimal d = true -> lower_aux b (d :: s) = d :: lower_aux [] s.
Proof.
  intros H. cbn [lower_aux]. rewrite (lower_ucs4_digit _ _ _ (is_decimal_digit d H)).
  rewrite (lower_aux_ctx s (d :: b) []) by (apply back_cased_decimal; exact H). reflexivity.
Qed.

Lemma lower_ucs4_text b c a :
  is_decimal c = false -> forallb (fun x => negb (is_decimal x)) (lower_ucs4 b c a) = true.
Proof. apply case_map_ok_decimal, lower_ucs4_ok. Qed.

Lemma lower_aux_nil b s : lower_aux b s = [] -> s = [].
Proof.
  destruct s as [|c s]; [reflexivity|]. cbn [lower_aux]. intros H.
  apply app_eq_nil in H as [H _]. exfalso. exact (case_map_ok_nonnil _ _ (lower_ucs4_ok b c s) H).
Qed.

Lemma split_runs_nonnil s : split_runs s <> [].
Proof.
  destruct s as [|c s]; cbn [split_runs]; [discriminate|].
  destruct (is_decimal c); destruct (split_runs s) as [|[|x t] [|d rest]]; discriminate.
Qed.

Lemma split_runs_head s t0 rest :
  split_runs s = t0 :: rest ->
  exists r, s = t0 ++ r /\ (r = [] \/ exists d r', r = d :: r' /\ is_decimal d = true).
Proof.
  revert t0 rest. induction s as [|c s IH]; intros t0 rest; cbn [split_runs].
  - intros H. injection H; intros _ <-. exists []. auto.
  - destruct (is_decimal c) eqn:Ec.
    + intros H. assert (t0 = []) as ->.
      { destruct (split_runs s) as [|[|x t] [|d r]]; injection H; auto. }
      exists (c :: s). split; [reflexivity|]. right. exists c, s. auto.
    + destruct (split_runs s) as [|t r] eqn:Es; [exfalso; exact (split_runs_nonnil s Es)|].
      intros H. injection H; intros _ <-.
      destruct (IH t r eq_refl) as [r' [-> Hr']]. exists r'. auto.
Qed.

Lemma split_runs_text_prefix L Y t rest :
  forallb (fun x => negb (is_decimal x)) L = true -> split_runs Y = t :: rest ->
  split_runs (L ++ Y) = (L ++ t) :: rest.
Proof.
  intros HL HY. induction L as [|c L IH]; [exact HY|].
  cbn [forallb] in HL. apply andb_true_iff in HL as [Hc HL]. apply negb_true_iff in Hc.
  cbn [app split_runs]. rewrite Hc, (IH HL). reflexivity.
Qed.

Lemma split_runs_lower_aux s b :
  split_runs (lower_aux b s) =
  match split_runs s with t0 :: rest => lower_aux b t0 :: map py_lower rest | [] => [] end.
Proof.
  revert b. induction s as [|c s IH]; intros b; [reflexivity|].
  destruct (is_decimal c) eqn:Ec.
  - rewrite (lower_aux_decimal_cons b c s Ec).
    assert (Hc1 : lower_aux [] [c] = [c]) by (rewrite lower_aux_decimal_cons by exact Ec; reflexivity).
    cbn [split_runs]. rewrite Ec, (IH []).
    destruct (split_runs s) as [|t0 rest] eqn:Es; [exfalso; exact (split_runs_nonnil s Es)|].
    unfold py_lower. destruct t0 as [|x t0'].
    + destruct rest as [|d rest]; cbn [map].
      * rewrite Hc1. reflexivity.
      * rewrite (lower_aux_decimal_cons [] c d Ec). reflexivity.
    + cbn [map]. rewrite Hc1.
      destruct (lower_aux [] (x :: t0')) as [|y l] eqn:Ey.
      * exfalso. apply lower_aux_nil in Ey. discriminate.
      * reflexivity.
  - cbn [lower_aux split_runs]. rewrite Ec.
    destruct (split_runs s) as [|t0 rest] eqn:Es; [exfalso; exact (split_runs_nonnil s Es)|].
    rewrite (split_runs_text_prefix _ _ (lower_aux (c :: b) t0) (map py_lower rest)
               (lower_ucs4_text b c s Ec)) by (rewrite IH; reflexivity).
    cbn [lower_aux]. f_equal. f_equal.
    destruct (split_runs_head s t0 rest Es) as [r [-> [-> | [d [r' [-> Hd]]]]]].
    + rewrite app_nil_r. reflexivity.
    + apply lower_ucs4_ctx; [reflexivity | apply fwd_open_decimal; exact Hd].
Qed.

Lemma split_runs_lower s : split_runs (py_lower s) = map py_lower (split_runs s).
Proof.
  unfold py_lower at 1. rewrite split_runs_lower_aux.
  destruct (split_runs s); reflexivity.
Qed.

Lemma forallb_digit_lower_ucs4 b c a :
  forallb is_digit_char (lower_ucs4 b c a) = is_digit_char c.
Proof.
  destruct (is_digit_char c) eqn:Ec.
  - rewrite lower_ucs4_digit by exact Ec. cbn [forallb]. rewrite Ec. reflexivity.
  - destruct (case_map_ok_digit _ _ (lower_ucs4_ok b c a) Ec) as [Hne Hall].
    destruct (lower_ucs4 b c a) as [|x m]; [congruence|].
    cbn [forallb] in Hall |- *. apply andb_true_iff in Hall as [Hx _].
    apply negb_true_iff in Hx. rewrite Hx. reflexivity.
Qed.

Lemma forallb_digit_lower_aux b t :
  forallb is_digit_char (lower_aux b t) = forallb is_digit_char t.
Proof.
  revert b. induction t as [|c t IH]; intros b; [reflexivity|].
  cbn [lower_aux forallb]. rewrite forallb_app, forallb_digit_lower_ucs4, IH. reflexivity.
Qed.

Lemma py_isdigit_lower t : py_isdigit (py_lower t) = py_isdigit t.
Proof.
  unfold py_isdigit. destruct (py_lower t) as [|x l] eqn:E.
  - apply lower_aux_nil in E. subst t. reflexivity.
  - rewrite <- E. unfold py_lower. rewrite forallb_digit_lower_aux.
    destruct t; [discriminate | reflexivity].
Qed.

Lemma py_lower_digits t : py_isdigit t = true -> py_lower t = t.
Proof.
  unfold py_isdigit, py_lower. intros H.
  assert (Hall : forallb is_digit_char t = true) by (destruct t; [discriminate | exact H]).
  clear H. generalize (@nil Z). induction t as [|c t IH]; intros b; [reflexivity|].
  cbn [forallb] in Hall. apply andb_true_iff in Hall as [Hc Ht].
  cbn [lower_aux]. rewrite (lower_ucs4_digit _ _ _ Hc), (IH Ht). reflexivity.
Qed.

(* ------------------------------------------------------------------ *)
(** ** Natural sort: the shape of the keys *)

Lemma split_runs_alt s : runs_alt true (split_runs s).
Proof.
  induction s as [|c s IH]; simpl.
  - split; [reflexivity | reflexivity].
  - destruct (is_decimal c) eqn:Ec.
    + assert (Hnew : forall r, runs_alt true r -> runs_alt true ([] :: [c] :: r)).
      { intros r Hr. simpl. split; [reflexivity|]. split; [|exact Hr].
        split; [discriminate | simpl; rewrite Ec; reflexivity]. }
      destruct (split_runs s) as [|[|x t] [|d rest]]; try exact (Hnew _ IH).
      simpl in IH |- *. destruct IH as [_ [[_ Hd] Hr]].
      split; [reflexivity|]. split; [|exact Hr].
      split; [discriminate | simpl; rewrite Ec, Hd; reflexivity].
    + destruct (split_runs s) as [|t rest]; simpl in IH |- *.
      * discriminate IH.
      * destruct IH as [Ht Hr]. split; [|exact Hr].
        unfold text_run in *. simpl. rewrite Ec, Ht. reflexivity.
Qed.

Lemma key_of_text_run t y : text_run t -> key_of_part t = Some y -> y = KStr t.
Proof.
  unfold key_of_part, text_run. intros Ht.
  destruct (py_isdigit t) eqn:Ed.
  - destruct t as [|c t]; [discriminate|].
    simpl in Ht. apply andb_true_iff in Ht as [Hc _].
    unfold is_decimal in Hc. unfold py_int. simpl.
    destruct (decimal_value c); [discriminate | simpl; discriminate].
  - congruence.
Qed.

Lemma key_of_digit_run d y : digit_run d -> key_of_part d = Some y -> exists n, y = KInt n.
Proof.
  unfold key_of_part. intros [Hne Hd].
  assert (Hi : py_isdigit d = true).
  { destruct d as [|c d]; [congruence|]. unfold py_isdigit.
    apply forallb_forall. intros x Hx.
    apply is_decimal_digit. exact (proj1 (forallb_forall _ _) Hd x Hx). }
  rewrite Hi. destruct (py_int d) as [n|]; simpl; [|discriminate].
  intros H; injection H; intros <-. exists n; reflexivity.
Qed.

Lemma traverse_key_alt l p k :
  runs_alt p l -> traverse_opt key_of_part l = Some k -> key_alt p k.
Proof.
  revert p k; induction l as [|t l IH]; intros p k Hl; simpl.
  - intros H; injection H; intros <-; exact I.
  - destruct (key_of_part t) as [y|] eqn:Ey; [|discriminate].
    destruct (traverse_opt key_of_part l) as [k'|] eqn:Ek; [|discriminate].
    simpl. intros H; injection H; intros <-.
    destruct Hl as [Ht Hl]. specialize (IH _ _ Hl eq_refl).
    destruct p; simpl in IH.
    + rewrite (key_of_text_run _ _ Ht Ey). simpl. auto.
    + destruct (key_of_digit_run _ _ Ht Ey) as [n ->]. simpl. auto.
Qed.

Lemma natural_sort_key_alt s k : natural_sort_key s = Some k -> key_alt true k.
Proof. apply traverse_key_alt, split_runs_alt. Qed.

Lemma key_lt_defined p a b : key_alt p a -> key_alt p b -> key_lt a b <> None.
Proof.
  revert p b; induction a as [|x a IH]; intros p [|y b] Ha Hb; simpl; try discriminate.
  destruct x as [n|s], y as [m|t]; simpl in Ha, Hb;
    destruct Ha as [Hp Ha], Hb as [Hq Hb]; try congruence.
  - simpl. destruct (n =? m); [eauto | discriminate].
  - simpl. destruct (str_eqb s t); [eauto | discriminate].
Qed.

Lemma traverse_opt_map {A B C} (f : B -> option C) (g : A -> B) l :
  traverse_opt f (map g l) = traverse_opt (fun x => f (g x)) l.
Proof. induction l as [|x l IH]; simpl; [reflexivity|]. rewrite IH. reflexivity. Qed.

Lemma traverse_opt_ext {A B} (f g : A -> option B) l :
  (forall x, f x = g x) -> traverse_opt f l = traverse_opt g l.
Proof. intros H. induction l as [|x l IH]; simpl; [reflexivity|]. rewrite H, IH. reflexivity. Qed.

Lemma progressive_natural_key x : progressive_sort_key x = natural_sort_key x.
Proof.
  unfold natural_sort_key, progressive_sort_key.
  rewrite split_runs_lower, traverse_opt_map. apply traverse_opt_ext.
  intros t. unfold key_of_part. rewrite py_isdigit_lower.
  destruct (py_isdigit t) eqn:E; [rewrite (py_lower_digits t E)|]; reflexivity.
Qed.

Lemma sort_with_key_two k a b ka kb :
  k a = Some ka -> k b = Some kb ->
  key_lt ka kb = Some true -> key_lt kb ka = Some false ->
  sort_with_key k [a; b] = Some [a; b] /\ sort_with_key k [b; a] = Some [a; b].
Proof.
  intros Ha Hb H1 H2. unfold sort_with_key, sort_opt. simpl.
  rewrite Ha, Hb. simpl. rewrite H1, H2. split; reflexivity.
Qed.

(** C3 (amended).  The natural-sort key is a total preorder on file names:
    the keys of the two scripts agree; two computed keys are always
    comparable (no [TypeError]) and exactly one of "smaller", "greater",
    "equal keys" holds; the strict order on keys is transitive; when two
    keys agree up to a numeric token, the name with the smaller integer
    there sorts first whatever the input order; and the two examples. *)
Theorem natural_sort_key_total_preorder :
  (forall x, progressive_sort_key x = natural_sort_key x) /\
  (forall a b ka kb,
      natural_sort_key a = Some ka -> natural_sort_key b = Some kb ->
      (key_lt ka kb = Some true /\ key_lt kb ka = Some false) \/
      (key_lt kb ka = Some true /\ key_lt ka kb = Some false) \/
      (key_lt ka kb = Some false /\ key_lt kb ka = Some false /\ ka = kb)) /\
  (forall ka kb kc,
      key_lt ka kb = Some true -> key_lt kb kc = Some true -> key_lt ka kc = Some true) /\
  (forall a b pre x y ra rb,
      natural_sort_key a = Some (pre ++ KInt x :: ra) ->
      natural_sort_key b = Some (pre ++ KInt y :: rb) -> x < y ->
      sort_with_key natural_sort_key [a; b] = Some [a; b] /\
      sort_with_key natural_sort_key [b; a] = Some [a; b]) /\
  sort_with_key natural_sort_key [u "img1.png"; u "img10.png"; u "img2.png"]
    = Some [u "img1.png"; u "img2.png"; u "img10.png"] /\
  sort_with_key natural_sort_key [u "page10.png"; u "page2.png"]
    = Some [u "page2.png"; u "page10.png"].
Proof.
  split; [exact progressive_natural_key|].
  split.
  { intros a b ka kb Ha Hb.
    pose proof (key_lt_defined _ _ _ (natural_sort_key_alt _ _ Ha) (natural_sort_key_alt _ _ Hb)) as D1.
    pose proof (key_lt_defined _ _ _ (natural_sort_key_alt _ _ Hb) (natural_sort_key_alt _ _ Ha)) as D2.
    destruct (key_lt ka kb) as [[|]|] eqn:E1; [|destruct (key_lt kb ka) as [[|]|] eqn:E2 | congruence].
    - left. split; [reflexivity | apply key_lt_asym; exact E1].
    - right; left. split; reflexivity.
    - right; right. repeat split. apply key_lt_total; assumption.
    - congruence. }
  split; [exact key_lt_trans|].
  split.
  { intros a b pre x y ra rb Ha Hb Hxy.
    destruct (key_lt_numeric pre x y ra rb Hxy) as [H1 H2].
    exact (sort_with_key_two _ _ _ _ _ Ha Hb H1 H2). }
  split; vm_compute; reflexivity.
Qed.

(** C3 (counterexample).  The key is not a total order on file names:
    distinct names get equal keys (through [lower()] and through leading
    zeros read by [int()]), and the sort then keeps their input order, so
    the sorted list depends on more than the set of names. *)
Lemma natural_sort_key_not_total_order :
  u "A.png" <> u "a.png" /\
  natural_sort_key (u "A.png") = natural_sort_key (u "a.png") /\
  u "img01.png" <> u "img1.png" /\
  natural_sort_key (u "img01.png") = natural_sort_key (u "img1.png") /\
  sort_with_key natural_sort_key [u "A.png"; u "a.png"] = Some [u "A.png"; u "a.png"] /\
  sort_with_key natural_sort_key [u "a.png"; u "A.png"] = Some [u "a.png"; u "A.png"].
Proof.
  repeat split; try (vm_compute; reflexivity); vm_compute; discriminate.
Qed.

Lemma natural_sort_key_total_preorder_witness :
  natural_sort_key (u "page2.png") = Some ([KStr (u "page")] ++ KInt 2 :: [KStr (u ".png")]) /\
  sort_with_key natural_sort_key [u "page10.png"; u "page2.png"]
    = Some [u "page2.png"; u "page10.png"].
Proof.
  split; [vm_compute; reflexivity|].
  apply (proj1 (proj2 (proj2 (proj2 natural_sort_key_total_preorder)))
           (u "page2.png") (u "page10.png") [KStr (u "page")] 2 10
           [KStr (u ".png")] [KStr (u ".png")]);
    [vm_compute; reflexivity | vm_compute; reflexivity | lia].
Defined.

(** [int()] refuses a digit that is not decimal: a name whose digit run
    holds a superscript two (U+00B2) makes the key raise [ValueError]. *)
Lemma natural_sort_key_superscript_error :
  natural_sort_key (u "p1" ++ [178] ++ u "2.png") = None /\
  progressive_sort_key (u "p1" ++ [178] ++ u "2.png") = None.
Proof. split; vm_compute; reflexivity. Qed.

(** The key on other scripts: Devanagari digits (U+0966-U+096F) are read
    by [\d] and [int()]; a parenthesized digit (U+2474) passes
    [str.isdigit()] and makes [int()] raise; [str.lower] maps the capital
    E with acute (U+00C9) to its small letter (U+00E9). *)
Lemma natural_sort_key_unicode :
  natural_sort_key ([2407] ++ u "0009") = Some [KStr []; KInt 10009; KStr []] /\
  natural_sort_key ([2407] ++ u "10") = Some [KStr []; KInt 110; KStr []] /\
  sort_with_key natural_sort_key [[2407] ++ u "0009"; [2407] ++ u "10"]
    = Some [[2407] ++ u "10"; [2407] ++ u "0009"] /\
  natural_sort_key (u "1" ++ [9332] ++ u "2.png") = None /\
  natural_sort_key ([201] ++ u ".png") = natural_sort_key ([233] ++ u ".png").
Proof. repeat split; vm_compute; reflexivity. Qed.

(* ------------------------------------------------------------------ *)
(** ** The image policy *)

(** C4.  For every path and every content-type table, [is_valid_image]
    decides in three tiers: a block-listed lower-cased extension is
    refused whatever the table says; otherwise an allow-listed one is
    accepted; otherwise the file is accepted exactly when the guessed MIME
    type starts with ["image/"]. *)
Theorem is_valid_image_policy (guess_type : path -> option pystr) (p : path) :
  (str_mem (extension p) BLOCKED_EXTENSIONS = true ->
   is_valid_image guess_type p = false) /\
  (str_mem (extension p) BLOCKED_EXTENSIONS = false ->
   str_mem (extension p) SUPPORTED_EXTENSIONS = true ->
   is_valid_image guess_type p = true) /\
  (str_mem (extension p) BLOCKED_EXTENSIONS = false ->
   str_mem (extension p) SUPPORTED_EXTENSIONS = false ->
   (is_valid_image guess_type p = true <->
    exists mime, guess_type p = Some mime /\ startswith mime (u "image/") = true)).
Proof.
  unfold is_valid_image.
  split; [intros -> ; reflexivity|].
  split; [intros -> ->; reflexivity|].
  intros -> ->.
  destruct (guess_type p) as [mime|].
  - split; [intros H; exists mime; auto | intros [m [Hm Hs]]; congruence].
  - split; [discriminate | intros [m [Hm _]]; discriminate].
Qed.

Lemma is_valid_image_policy_witness :
  is_valid_image (fun _ => Some (u "image/png")) [u "x.TXT"] = false /\
  is_valid_image (fun _ => None) [u "x.PNG"] = true /\
  is_valid_image (fun _ => Some (u "image/tiff")) [u "x.tif"] = true.
Proof.
  split.
  { apply (proj1 (is_valid_image_policy (fun _ => Some (u "image/png")) [u "x.TXT"])).
    vm_compute; reflexivity. }
  split.
  { apply (proj1 (proj2 (is_valid_image_policy (fun _ => None) [u "x.PNG"])));
      vm_compute; reflexivity. }
  destruct (is_valid_image_policy (fun _ => Some (u "image/tiff")) [u "x.tif"]) as [_ [_ H3]].
  apply (H3 ltac:(vm_compute; reflexivity) ltac:(vm_compute; reflexivity)).
  exists (u "image/tiff"). split; reflexivity.
Defined.

(* ------------------------------------------------------------------ *)
(** ** Windowed output *)

Lemma ceil_div_800_bound v : 0 <= v <= 797600 -> 0 <= ceil_div v 800 <= 997.
Proof.
  unfold ceil_div. intros Hv.
  pose proof (Z.div_mod (- v) 800 ltac:(lia)) as Hd.
  pose proof (Z.mod_pos_bound (- v) 800 ltac:(lia)) as Hm.
  lia.
Qed.

Lemma rendered_pages_initial_length totalPages viewportHeight imageData :
  0 <= viewportHeight <= 797600 -> 1 <= totalPages ->
  (List.length (rendered_pages totalPages 0 viewportHeight imageData)
   <= Z.to_nat (Z.min totalPages (ceil_div viewportHeight 800 + 3)))%nat.
Proof.
  intros Hv Ht. unfold rendered_pages, visible_range.
  replace (Z.max 1 (0 / 800 - 3)) with 1 by reflexivity.
  rewrite Z.add_0_l.
  eapply Nat.le_trans; [apply filter_length_le|].
  unfold page_range. rewrite length_map, length_seq.
  pose proof (ceil_div_800_bound _ Hv). apply Z2Nat.inj_le; lia.
Qed.

(** C5.  With no explicit mode the generator picks windowed output exactly
    when the page count exceeds 1000.  For 1001 pages with windowed output
    on, the reader content holds no [<img] element at all (only an empty
    viewport and a spacer), the page counter shows [1 / 1001], and the
    script's first [updateVisiblePages] (at scroll position 0) renders
    fewer than 1001 pages for any viewport up to 797600 px high. *)
Theorem virtual_scroll_threshold_window :
  (forall metadata,
      use_virtual_scroll (init_generator metadata None) = true <->
      1000 < total_pages metadata) /\
  (forall metadata use image_metadata,
      total_pages metadata = 1001 ->
      use_virtual_scroll (init_generator metadata use) = true ->
      py_count (u "<img")
        (generate_reader_content (init_generator metadata use) image_metadata) = 0%nat /\
      contains (u "1 / 1001") (generate_navigation (init_generator metadata use)) = true /\
      (forall viewportHeight, 0 <= viewportHeight <= 797600 ->
         (List.length (rendered_pages (total_pages metadata) 0 viewportHeight image_metadata)
          < 1001)%nat)).
Proof.
  split.
  { intros metadata. unfold init_generator. cbn [use_virtual_scroll].
    rewrite Z.ltb_lt. reflexivity. }
  intros metadata use image_metadata Ht Hv.
  split.
  { unfold generate_reader_content. rewrite Hv.
    unfold generate_virtual_scroll_content, init_generator. cbn [vs_metadata].
    rewrite Ht. vm_compute. reflexivity. }
  split.
  { unfold generate_navigation, init_generator. cbn [vs_metadata].
    rewrite Ht. vm_compute. reflexivity. }
  intros viewportHeight Hvh. rewrite Ht.
  pose proof (rendered_pages_initial_length 1001 viewportHeight image_metadata Hvh ltac:(lia)).
  pose proof (ceil_div_800_bound _ Hvh).
  assert (Z.to_nat (Z.min 1001 (ceil_div viewportHeight 800 + 3)) < 1001)%nat by lia.
  lia.
Qed.

Lemma virtual_scroll_threshold_window_witness :
  use_virtual_scroll (init_generator sample_metadata_1001 None) = true /\
  py_count (u "<img")
    (generate_reader_content (init_generator sample_metadata_1001 None) sample_images_1001)
    = 0%nat /\
  (List.length (rendered_pages 1001 0 900 sample_images_1001) < 1001)%nat.
Proof.
  destruct virtual_scroll_threshold_window as [H1 H2].
  assert (Hv : use_virtual_scroll (init_generator sample_metadata_1001 None) = true)
    by (apply H1; reflexivity).
  destruct (H2 sample_metadata_1001 None sample_images_1001 eq_refl Hv) as [Hc [_ Hw]].
  split; [exact Hv|]. split; [exact Hc|]. apply (Hw 900). lia.
Defined.

(* ------------------------------------------------------------------ *)
(** ** The reader-file lookup *)

Lemma find_app_first {A} (f : A -> bool) pre x post :
  (forall y, In y pre -> f y = false) -> f x = true -> find f (pre ++ x :: post) = Some x.
Proof.
  intros Hpre Hx. induction pre as [|y pre IH]; simpl; [rewrite Hx; reflexivity|].
  rewrite (Hpre y (or_introl eq_refl)). apply IH. intros z Hz. apply Hpre; right; exact Hz.
Qed.

Lemma find_none {A} (f : A -> bool) l : (forall y, In y l -> f y = false) -> find f l = None.
Proof.
  intros H. induction l as [|y l IH]; simpl; [reflexivity|].
  rewrite (H y (or_introl eq_refl)). apply IH. intros z Hz. apply H; right; exact Hz.
Qed.

Lemma str_mem_In x l : str_mem x l = true <-> In x l.
Proof.
  unfold str_mem. rewrite existsb_exists. split.
  - intros [y [Hy E]]. apply str_eqb_eq in E. subst. exact Hy.
  - intros H. exists x. split; [exact H | apply str_eqb_refl].
Qed.

Lemma reader_priorities_html n : In n READER_PRIORITIES -> is_html_name n = true.
Proof. simpl. intros [<-|[<-|[<-|[<-|[]]]]]; vm_compute; reflexivity. Qed.

(** C6.  The lookup returns the first name of [READER_PRIORITIES] present
    in the folder; only when none is present does it fall back to a listed
    name with an [.html] suffix (the first one [iterdir] gives); and when
    no listed name has an [.html] suffix it returns [None]. *)
Theorem find_reader_file_priority (sep : pystr) (rel entries : list pystr) (listable : bool) :
  (forall pre n post,
      READER_PRIORITIES = pre ++ n :: post ->
      In n entries -> (forall m, In m pre -> ~ In m entries) ->
      find_reader_file sep rel entries listable = Some (emit_rel sep (rel ++ [n]))) /\
  ((forall m, In m READER_PRIORITIES -> ~ In m entries) ->
   find_reader_file sep rel entries listable =
     if listable then option_map (fun file => emit_rel sep (rel ++ [file])) (find is_html_name entries)
     else None) /\
  ((forall n, In n entries -> is_html_name n = false) ->
   find_reader_file sep rel entries listable = None).
Proof.
  assert (Hnone : (forall m, In m READER_PRIORITIES -> ~ In m entries) ->
                  find (fun priority_file => str_mem priority_file entries) READER_PRIORITIES = None).
  { intros H. apply find_none. intros y Hy.
    destruct (str_mem y entries) eqn:E; [|reflexivity].
    apply str_mem_In in E. exfalso; exact (H y Hy E). }
  split.
  { intros pre n post Hp Hn Hpre. unfold find_reader_file. rewrite Hp.
    rewrite (find_app_first _ pre n post).
    - reflexivity.
    - intros y Hy. destruct (str_mem y entries) eqn:E; [|reflexivity].
      apply str_mem_In in E. exfalso; exact (Hpre y Hy E).
    - apply str_mem_In; exact Hn. }
  split.
  { intros H. unfold find_reader_file. rewrite (Hnone H).
    destruct listable; [|reflexivity]. destruct (find is_html_name entries); reflexivity. }
  intros H. unfold find_reader_file. rewrite Hnone.
  - destruct listable; [|reflexivity]. rewrite find_none; [reflexivity|exact H].
  - intros m Hm Hin. pose proof (reader_priorities_html m Hm). rewrite (H m Hin) in *. discriminate.
Qed.

Lemma find_reader_file_priority_witness :
  find_reader_file (u "/") [u "book"] [u "index-mobile.html"; u "index.html"; u "a.png"] true
    = Some (u "book/index.html") /\
  find_reader_file (u "/") [u "book"] [u "a.png"; u "story.HTML"] true
    = Some (u "book/story.HTML") /\
  find_reader_file (u "/") [u "book"] [u "a.png"] true = None.
Proof.
  split.
  { rewrite (proj1 (find_reader_file_priority (u "/") [u "book"]
                      [u "index-mobile.html"; u "index.html"; u "a.png"] true)
               [u "index-mb-virtualscroll.html"; u "index-mb.html"] (u "index.html")
               [u "index-mobile.html"]).
    - vm_compute; reflexivity.
    - reflexivity.
    - simpl; auto.
    - simpl. intros m [<-|[<-|[]]] H; vm_compute in H; intuition discriminate. }
  split.
  { rewrite (proj1 (proj2 (find_reader_file_priority (u "/") [u "book"]
                             [u "a.png"; u "story.HTML"] true))).
    - vm_compute; reflexivity.
    - simpl. intros m Hm H. destruct Hm as [<-|[<-|[<-|[<-|[]]]]];
        vm_compute in H; intuition discriminate. }
  apply (proj2 (proj2 (find_reader_file_priority (u "/") [u "book"] [u "a.png"] true))).
  simpl. intros n [<-|[]]. vm_compute; reflexivity.
Defined.

(* ------------------------------------------------------------------ *)
(** ** Missing and non-directory roots *)

(** C7.  A resolved path that does not exist makes the constructor's check
    fail with [FileNotFoundError], one that exists but is not a directory
    with [NotADirectoryError].  In either loop such a path is reported,
    the generation step is never run (the world is passed on unchanged,
    so no output file is written), and the loop goes on reading input. *)
Theorem base_path_errors_reported_and_loop_continues
    (world : Type) (lookup : world -> path -> option node_kind)
    (resolve : pystr -> path)
    (generate_v3 : path -> world -> option (path * world))
    (generate_v4 : path -> bool -> pystr -> world -> option (option path * world)) :
  (forall w p, lookup w p = None ->
     check_base_path (lookup w) p = Some (FileNotFoundError p)) /\
  (forall w p, lookup w p = Some NFile ->
     check_base_path (lookup w) p = Some (NotADirectoryError p)) /\
  (forall line rest w log e,
     py_strip line <> [] ->
     check_base_path (lookup w) (resolve (strip_quotes (py_strip line))) = Some e ->
     main_v3 world lookup resolve generate_v3 (line :: rest) w log =
     main_v3 world lookup resolve generate_v3 rest w (log ++ [MsgError e; MsgRule])) /\
  (forall line readers_line name_line rest w log e,
     check_base_path (lookup w) (resolve (v4_path_input line)) = Some e ->
     main_v4 world lookup resolve generate_v4 ((line, readers_line, name_line) :: rest) w log =
     main_v4 world lookup resolve generate_v4 rest w (log ++ [MsgError e])).
Proof.
  split; [intros w p H; unfold check_base_path; rewrite H; reflexivity|].
  split; [intros w p H; unfold check_base_path; rewrite H; reflexivity|].
  split.
  - intros line rest w log e Hne He. cbn [main_v3].
    destruct (py_strip line) as [|c s] eqn:Es; [congruence|].
    rewrite He. reflexivity.
  - intros line readers_line name_line rest w log e He. cbn [main_v4].
    rewrite He. reflexivity.
Qed.

Lemma base_path_errors_reported_and_loop_continues_witness :
  main_v3 _ sample_lookup sample_resolve sample_generate_v3
    [u " missing "; u "'f.txt'"; u ""] sample_fs []
  = (sample_fs, [MsgError (FileNotFoundError [u "missing"]); MsgRule;
                 MsgError (NotADirectoryError [u "f.txt"]); MsgRule; MsgGoodbye]) /\
  main_v4 _ sample_lookup sample_resolve sample_generate_v4
    [(u "f.txt", None, None); (u "manga", Some (u "y"), Some (u "shelf.html"))] sample_fs []
  = (([u "manga"; u "shelf.html"], NFile) :: sample_fs,
     [MsgError (NotADirectoryError [u "f.txt"]); MsgSuccess [u "manga"; u "shelf.html"]]).
Proof.
  destruct (base_path_errors_reported_and_loop_continues _ sample_lookup sample_resolve
              sample_generate_v3 sample_generate_v4) as [_ [_ [H3 H4]]].
  split.
  - rewrite (H3 _ _ _ _ (FileNotFoundError [u "missing"]));
      [| vm_compute; intros Hc; discriminate Hc | vm_compute; reflexivity].
    rewrite (H3 _ _ _ _ (NotADirectoryError [u "f.txt"]));
      [| vm_compute; intros Hc; discriminate Hc | vm_compute; reflexivity].
    vm_compute. reflexivity.
  - rewrite (H4 _ _ _ _ _ _ (NotADirectoryError [u "f.txt"])); [| vm_compute; reflexivity].
    vm_compute. reflexivity.
Defined.

(* ------------------------------------------------------------------ *)
(** ** Emitted paths: [str.replace] and [str.split] *)

Lemma skipn_not_in c n (s : pystr) : ~ In c s -> ~ In c (skipn n s).
Proof.
  intros H Hin. apply H. rewrite <- (firstn_skipn n s). apply in_or_app. right. exact Hin.
Qed.

Lemma replace_fuel_absent c fuel old new s :
  ~ In c s -> ~ In c new -> ~ In c (replace_fuel fuel old new s).
Proof.
  revert s; induction fuel as [|fuel IH]; intros s Hs Hn; simpl; [exact Hs|].
  destruct s as [|x s']; [exact Hs|].
  destruct (startswith (x :: s') old).
  - rewrite in_app_iff. intros [H|H]; [exact (Hn H)|].
    exact (IH _ (skipn_not_in c _ _ Hs) Hn H).
  - intros [H|H]; [apply Hs; left; exact H|].
    apply (IH s'); [intros H'; apply Hs; right; exact H' | exact Hn | exact H].
Qed.

Lemma replace_fuel_single fuel c new s :
  (List.length s < fuel)%nat ->
  replace_fuel fuel [c] new s = flat_map (fun x => if x =? c then new else [x]) s.
Proof.
  revert fuel; induction s as [|x s IH]; intros [|fuel] Hf; simpl in *; try lia; [reflexivity|].
  replace (startswith s []) with true by (destruct s; reflexivity).
  rewrite andb_true_r, Z.eqb_sym. rewrite IH by lia.
  destruct (x =? c); reflexivity.
Qed.

Lemma py_replace_backslash s : py_replace s [BACKSLASH] [SLASH] = map slashify s.
Proof.
  unfold py_replace. rewrite replace_fuel_single by lia.
  induction s as [|x s IH]; simpl; [reflexivity|]. rewrite IH.
  unfold slashify. destruct (x =? BACKSLASH); reflexivity.
Qed.

Lemma slashify_no_backslash l : ~ In BACKSLASH (map slashify l).
Proof.
  rewrite in_map_iff. intros [x [Hx _]]. revert Hx. unfold slashify.
  destruct (Z.eqb_spec x BACKSLASH); [discriminate | intros ->; congruence].
Qed.

Lemma slashify_id l : ~ In BACKSLASH l -> map slashify l = l.
Proof.
  intros H. induction l as [|x l IH]; simpl; [reflexivity|].
  unfold slashify at 1. destruct (Z.eqb_spec x BACKSLASH).
  - exfalso. apply H. left. congruence.
  - f_equal. apply IH. intros H'. apply H. right. exact H'.
Qed.

Lemma map_join f sep parts :
  map f (join sep parts) = join (map f sep) (map (map f) parts).
Proof.
  induction parts as [|p [|q ps] IH]; [reflexivity|reflexivity|].
  change (join sep (p :: q :: ps)) with (p ++ sep ++ join sep (q :: ps)).
  rewrite !map_app, IH. reflexivity.
Qed.

Lemma emit_rel_slashes sep rel :
  (sep = [SLASH] \/ sep = [BACKSLASH]) ->
  (forall n, In n rel -> ~ In BACKSLASH n) ->
  emit_rel sep rel = join [SLASH] rel.
Proof.
  intros Hsep Hrel. unfold emit_rel. rewrite py_replace_backslash, map_join.
  replace (map slashify sep) with [SLASH] by (destruct Hsep as [-> | ->]; reflexivity).
  f_equal. induction rel as [|n rel IH]; simpl; [reflexivity|].
  rewrite slashify_id by (apply Hrel; left; reflexivity).
  f_equal. apply IH. intros m Hm. apply Hrel. right. exact Hm.
Qed.

Lemma split_char_no_sep c p : ~ In c p -> split_char c p = [p].
Proof.
  induction p as [|x p IH]; intros H; simpl; [reflexivity|].
  destruct (Z.eqb_spec x c); [exfalso; apply H; left; congruence|].
  rewrite IH by (intros H'; apply H; right; exact H'). reflexivity.
Qed.

Lemma split_char_app c p s : ~ In c p -> split_char c (p ++ c :: s) = p :: split_char c s.
Proof.
  induction p as [|x p IH]; intros H; simpl.
  - rewrite Z.eqb_refl. reflexivity.
  - destruct (Z.eqb_spec x c); [exfalso; apply H; left; congruence|].
    rewrite IH by (intros H'; apply H; right; exact H'). reflexivity.
Qed.

Lemma split_join rel :
  rel <> [] -> (forall n, In n rel -> ~ In SLASH n) ->
  split_char SLASH (join [SLASH] rel) = rel.
Proof.
  induction rel as [|p [|q ps] IH]; intros Hne H; [congruence| |].
  - simpl. apply split_char_no_sep. apply H. left. reflexivity.
  - change (join [SLASH] (p :: q :: ps)) with (p ++ [SLASH] ++ join [SLASH] (q :: ps)).
    simpl app at 2. rewrite split_char_app by (apply H; left; reflexivity).
    f_equal. apply IH; [discriminate|]. intros n Hn. apply H. right. exact Hn.
Qed.

Lemma first_some_some {A B} (f : A -> option B) l y :
  first_some f l = Some y -> exists x, In x l /\ f x = Some y.
Proof.
  induction l as [|x l IH]; simpl; [discriminate|].
  destruct (f x) eqn:E.
  - intros H. injection H; intros <-. exists x. auto.
  - intros H. destruct (IH H) as [z [Hz Ez]]. exists z. auto.
Qed.

Lemma find_first_image_rel fuel sep rel t r :
  find_first_image_fuel fuel sep rel t = Some r ->
  exists dir fs file, In (dir, fs) (walk rel t) /\ In file fs /\
    is_image_name file = true /\ r = emit_rel sep (dir ++ [file]).
Proof.
  revert rel t; induction fuel as [|fuel IH]; intros rel [fs ds]; cbn [find_first_image_fuel];
    [discriminate|].
  destruct (find is_image_name (sort_by (path_name_ltb sep) fs)) as [file|] eqn:E.
  - intros H. injection H; intros <-. apply find_some in E as [Hin Hi].
    exists rel, fs, file. cbn [walk]. split; [left; reflexivity|].
    split; [exact (Permutation_in _ (sort_by_perm _ _) Hin)|]. auto.
  - intros H. apply first_some_some in H as [[n t'] [Hin Ht']].
    destruct (IH _ _ Ht') as [dir [fs' [file [Hw Hrest]]]].
    exists dir, fs', file. split; [|exact Hrest].
    cbn [walk]. right. apply in_flat_map. exists (n, t').
    split; [exact (Permutation_in _ (sort_by_perm _ _) Hin) | exact Hw].
Qed.

Lemma scan_image_under_base guess_type base t img :
  In img (snd (scan_directory guess_type base t)) ->
  exists rel, rel <> [] /\ img = base ++ rel.
Proof.
  unfold scan_directory; cbn [snd]. intros H.
  apply (Permutation_in _ (sort_by_perm _ _)) in H.
  apply in_flat_map in H as [[d fs] [He Hin]].
  apply filter_In in Hin as [Hin _]. apply in_map_iff in Hin as [f [<- _]].
  destruct (walk_prefix t base _ He) as [r Hr]. cbn [fst snd] in *. rewrite Hr.
  exists (r ++ [f]). split; [destruct r; discriminate | rewrite app_assoc; reflexivity].
Qed.

Lemma toLeftSlash_no_backslash s : ~ In BACKSLASH (toLeftSlash s).
Proof.
  unfold toLeftSlash. cbv zeta. rewrite py_replace_backslash.
  apply replace_fuel_absent; [apply slashify_no_backslash | simpl; intros [H|[]]; discriminate].
Qed.

Lemma skipn_length_app (l r : path) : skipn (List.length l) (l ++ r) = r.
Proof. induction l as [|x l IH]; simpl; [reflexivity | exact IH]. Qed.

Lemma emit_rel_segments sep rel :
  (sep = [SLASH] \/ sep = [BACKSLASH]) -> rel <> [] ->
  (forall n, In n rel -> valid_component n) ->
  split_char SLASH (emit_rel sep rel) = rel /\ ~ In (u "..") (split_char SLASH (emit_rel sep rel)).
Proof.
  intros Hsep Hne Hv.
  rewrite emit_rel_slashes
    by (exact Hsep || (intros n Hn; apply (Hv n Hn))).
  rewrite split_join
    by (exact Hne || (intros n Hn; apply (Hv n Hn))).
  split; [reflexivity|]. intros Hin.
  destruct (Hv _ Hin) as [_ [_ [H _]]]. apply H. reflexivity.
Qed.

(** C8 (amended).  On either host separator every path the v3 reader,
    the v4 covers and the v4 reader links emit is [emit_rel] of its
    components relative to the scanned root (a cover is an image file,
    by htmlcs_v4's extension list, of a folder under the book folder), and:
    it holds no backslash; when the components are names a listing can
    hold on both hosts (no separator in them), its ['/']-segments are
    exactly those components, so it is relative and has no [..] segment.
    The [src] htmlc.py writes holds no backslash either. *)
Theorem emitted_paths_relative_no_backslash (sep : pystr) :
  (sep = [SLASH] \/ sep = [BACKSLASH]) ->
  (forall rel, ~ In BACKSLASH (emit_rel sep rel)) /\
  (forall rel, rel <> [] -> (forall n, In n rel -> valid_component n) ->
     split_char SLASH (emit_rel sep rel) = rel /\
     ~ In (u "..") (split_char SLASH (emit_rel sep rel))) /\
  (forall guess_type base t img,
     In img (snd (scan_directory guess_type base t)) ->
     exists rel, rel <> [] /\ img = base ++ rel /\ reader_src sep base img = emit_rel sep rel) /\
  (forall rel t r, find_first_image sep rel t = Some r ->
     exists dir fs file, In (dir, fs) (walk rel t) /\ In file fs /\
       is_image_name file = true /\ r = emit_rel sep (dir ++ [file]) /\
       ((forall n, In n (dir ++ [file]) -> valid_component n) ->
        split_char SLASH r = dir ++ [file] /\ ~ In (u "..") (split_char SLASH r))) /\
  (forall rel entries listable r, find_reader_file sep rel entries listable = Some r ->
     exists n, In n entries /\ r = emit_rel sep (rel ++ [n])) /\
  (forall slpath img, ~ In BACKSLASH (htmlc_src slpath img)).
Proof.
  intros Hsep.
  split.
  { intros rel. unfold emit_rel. rewrite py_replace_backslash. apply slashify_no_backslash. }
  split.
  { intros rel Hne Hv. exact (emit_rel_segments sep rel Hsep Hne Hv). }
  split.
  { intros guess_type base t img Hin.
    destruct (scan_image_under_base _ _ _ _ Hin) as [rel [Hne ->]].
    exists rel. split; [exact Hne|]. split; [reflexivity|].
    unfold reader_src. rewrite skipn_length_app. reflexivity. }
  split.
  { intros rel t r H.
    destruct (find_first_image_rel _ _ _ _ _ H) as [dir [fs [file [Hw [Hf [Hi ->]]]]]].
    exists dir, fs, file. do 3 (split; [assumption|]). split; [reflexivity|].
    intros Hv. apply emit_rel_segments; [exact Hsep | destruct dir; discriminate | exact Hv]. }
  split.
  { intros rel entries listable r. unfold find_reader_file.
    destruct (find (fun priority_file => str_mem priority_file entries) READER_PRIORITIES)
      as [n|] eqn:E.
    - intros H. injection H; intros <-. apply find_some in E as [_ E].
      apply str_mem_In in E. exists n. auto.
    - destruct listable; [|discriminate].
      destruct (find is_html_name entries) as [n|] eqn:F; [|discriminate].
      intros H. injection H; intros <-. apply find_some in F as [F _]. exists n. auto. }
  intros slpath img. unfold htmlc_src.
  apply replace_fuel_absent; [apply toLeftSlash_no_backslash | intros []].
Qed.

(** C8 (counterexample).  On a POSIX host a file may be named [..\x.png];
    the v3 reader and the v4 cover then emit ["../x.png"], whose first
    segment is [..]. *)
Lemma emitted_paths_dotdot_counterexample :
  snd (scan_directory (fun _ => None) sample_base (Node [u "..\x.png"] []))
    = [sample_base ++ [u "..\x.png"]] /\
  reader_src [SLASH] sample_base (sample_base ++ [u "..\x.png"]) = u "../x.png" /\
  find_first_image [SLASH] [] (Node [u "..\x.png"] []) = Some (u "../x.png") /\
  In (u "..") (split_char SLASH (u "../x.png")).
Proof. repeat split; vm_compute; auto. Qed.

Lemma emitted_paths_relative_no_backslash_witness :
  ~ In BACKSLASH (emit_rel [BACKSLASH] [u "vol1"; u "p1.png"]) /\
  split_char SLASH (emit_rel [BACKSLASH] [u "vol1"; u "p1.png"]) = [u "vol1"; u "p1.png"].
Proof.
  destruct (emitted_paths_relative_no_backslash [BACKSLASH] (or_intror eq_refl))
    as [H1 [H2 _]].
  split; [apply H1|].
  apply (H2 [u "vol1"; u "p1.png"]); [discriminate|].
  intros n [<-|[<-|[]]]; repeat split; vm_compute; first [discriminate | intuition discriminate].
Defined.

(** The cover search of htmlcs_v4.py skips an svg file: its extension
    list has no svg. *)
Lemma find_first_image_skips_svg :
  find_first_image [SLASH] [u "book"] (Node [u "a.svg"; u "b.png"] []) = Some (u "book/b.png").
Proof. vm_compute. reflexivity. Qed.

(** htmlc.py with a root typed with a trailing separator: [slpath + '/']
    no longer occurs in the file's path, and the [src] written is the
    absolute path. *)
Lemma htmlc_trailing_separator_src :
  htmlc_src (toLeftSlash (u "C:\manga\")) (u "C:\manga\" ++ [BACKSLASH] ++ u "x.png")
    = u "C:/manga/x.png".
Proof. vm_compute. reflexivity. Qed.

(* ------------------------------------------------------------------ *)
(** ** The virtual scroll reader as a copy of a template *)

Lemma fs_get_put_same st n e : fs_get (fs_put st n e) n = Some e.
Proof. unfold fs_get, fs_put; cbn [find fst]. rewrite str_eqb_refl. reflexivity. Qed.

Lemma find_filter_other (st : folder_state) n n' :
  n' <> n ->
  find (fun e => str_eqb (fst e) n') (filter (fun e' => negb (str_eqb (fst e') n)) st)
  = find (fun e => str_eqb (fst e) n') st.
Proof.
  intros Hne. induction st as [|[m x] st IH]; [reflexivity|].
  cbn [filter find fst].
  destruct (str_eqb m n) eqn:Hmn; cbn [negb find fst].
  - apply str_eqb_eq in Hmn; subst m.
    destruct (str_eqb n n') eqn:Hnn'.
    + apply str_eqb_eq in Hnn'. congruence.
    + exact IH.
  - destruct (str_eqb m n'); [reflexivity | exact IH].
Qed.

Lemma fs_get_put_other st n n' e : n' <> n -> fs_get (fs_put st n e) n' = fs_get st n'.
Proof.
  intros Hne. unfold fs_get, fs_put; cbn [find fst].
  destruct (str_eqb n n') eqn:Hnn'.
  - apply str_eqb_eq in Hnn'. congruence.
  - rewrite find_filter_other by exact Hne. reflexivity.
Qed.

Lemma copy2_file st src_name data :
  fs_get st src_name = Some (FsFile data) ->
  fs_get st VIRTUALSCROLL_OUTPUT <> Some FsDir ->
  copy2 st src_name VIRTUALSCROLL_OUTPUT
  = Some (fs_put st VIRTUALSCROLL_OUTPUT (FsFile data)).
Proof.
  intros Hs Ho. unfold copy2. rewrite Hs.
  destruct (fs_get st VIRTUALSCROLL_OUTPUT) as [[d|]|]; [reflexivity | congruence | reflexivity].
Qed.

(** C9: [create_virtual_scroll_reader] only runs the copying helper (no
    windowed generator appears in it).  When the output name is not a
    directory: with [manga-reader-fix.html] present its bytes become
    [index-mb-virtualscroll.html]; without it, the bytes of [index-mb.html];
    the other entries of the folder are unchanged and the output path is
    returned.  With neither template, or no folder, it raises RuntimeError
    and the folder is left as it was. *)
Theorem virtual_scroll_reader_copies_template (folder_path : path) (st : folder_state)
  (Hout : fs_get st VIRTUALSCROLL_OUTPUT <> Some FsDir) :
  (forall data, fs_get st MANGA_READER_FIX = Some (FsFile data) ->
     exists st', create_virtual_scroll_reader folder_path (Some st)
                 = (VsOk (folder_path ++ [VIRTUALSCROLL_OUTPUT]), Some st')
       /\ fs_get st' VIRTUALSCROLL_OUTPUT = Some (FsFile data)
       /\ forall n, n <> VIRTUALSCROLL_OUTPUT -> fs_get st' n = fs_get st n)
  /\ (fs_get st MANGA_READER_FIX = None ->
      forall data, fs_get st INDEX_MB = Some (FsFile data) ->
      exists st', create_virtual_scroll_reader folder_path (Some st)
                  = (VsOk (folder_path ++ [VIRTUALSCROLL_OUTPUT]), Some st')
        /\ fs_get st' VIRTUALSCROLL_OUTPUT = Some (FsFile data)
        /\ forall n, n <> VIRTUALSCROLL_OUTPUT -> fs_get st' n = fs_get st n)
  /\ (fs_get st MANGA_READER_FIX = None -> fs_get st INDEX_MB = None ->
      create_virtual_scroll_reader folder_path (Some st) = (VsRuntimeError, Some st))
  /\ create_virtual_scroll_reader folder_path None = (VsRuntimeError, None).
Proof.
  split; [|split; [|split]].
  - intros data Hm.
    exists (fs_put st VIRTUALSCROLL_OUTPUT (FsFile data)).
    unfold create_virtual_scroll_reader, create_progressive_reader, fs_exists.
    rewrite Hm, (copy2_file st MANGA_READER_FIX data Hm Hout).
    split; [reflexivity|split; [apply fs_get_put_same|]].
    intros n Hn. apply fs_get_put_other; exact Hn.
  - intros Hm data Hb.
    exists (fs_put st VIRTUALSCROLL_OUTPUT (FsFile data)).
    unfold create_virtual_scroll_reader, create_progressive_reader, fs_exists.
    rewrite Hm, Hb, (copy2_file st INDEX_MB data Hb Hout).
    split; [reflexivity|split; [apply fs_get_put_same|]].
    intros n Hn. apply fs_get_put_other; exact Hn.
  - intros Hm Hb.
    unfold create_virtual_scroll_reader, create_progressive_reader, fs_exists.
    rewrite Hm, Hb. reflexivity.
  - reflexivity.
Qed.

Lemma virtual_scroll_reader_copies_template_witness :
  fs_get sample_book_folder VIRTUALSCROLL_OUTPUT <> Some FsDir
  /\ exists st', create_virtual_scroll_reader [u "Books"; u "vol1"] (Some sample_book_folder)
                 = (VsOk ([u "Books"; u "vol1"] ++ [VIRTUALSCROLL_OUTPUT]), Some st')
       /\ fs_get st' VIRTUALSCROLL_OUTPUT = Some (FsFile (u "<html>fix</html>"))
       /\ forall n, n <> VIRTUALSCROLL_OUTPUT -> fs_get st' n = fs_get sample_book_folder n.
Proof.
  assert (H : fs_get sample_book_folder VIRTUALSCROLL_OUTPUT <> Some FsDir)
    by (vm_compute; discriminate).
  split; [exact H|].
  apply (proj1 (virtual_scroll_reader_copies_template [u "Books"; u "vol1"] sample_book_folder H)).
  vm_compute. reflexivity.
Defined.

(* ------------------------------------------------------------------ *)
(** ** htmlc.py: classification by [extchk[1]] *)

Lemma split_char_second_segment p e t :
  ~ In DOT p -> ~ In DOT e -> (t = [] \/ exists t', t = DOT :: t') ->
  nth_error (split_char DOT (p ++ DOT :: e ++ t)) 1 = Some e.
Proof.
  intros Hp He Ht. rewrite split_char_app by exact Hp.
  destruct Ht as [-> | [t' ->]].
  - rewrite app_nil_r, split_char_no_sep by exact He. reflexivity.
  - rewrite split_char_app by exact He. reflexivity.
Qed.

Lemma split_char_no_second img :
  ~ In DOT img -> nth_error (split_char DOT img) 1 = None.
Proof. intros H. rewrite split_char_no_sep by exact H. reflexivity. Qed.

Lemma emission_loop_abort slpath files written img :
  In img files -> ~ In DOT img -> snd (emission_loop slpath files written) = false.
Proof.
  revert written. induction files as [|f files IH]; intros written Hin Hd;
    [destruct Hin|].
  destruct Hin as [-> | Hin].
  - cbn [emission_loop]. rewrite split_char_no_second by exact Hd. reflexivity.
  - cbn [emission_loop].
    destruct (nth_error (split_char DOT f) 1) as [e|]; [|reflexivity].
    destruct (negb (str_eqb e (u "html")) && negb (str_eqb e (u "json")));
      apply IH; assumption.
Qed.

(** C10: each scanned path [img] is classified by [img.split(chr(46))[1]],
    the text between its first and second dot, whatever its last
    extension: it is written as an image exactly when that segment is
    neither [html] nor [json] ([C:\books\a.html.png] is skipped,
    [C:\my.books\vol1\index.html] is written).  A path without a dot makes
    [extchk[1]] raise IndexError: nothing after it is processed, the
    run stops before the footer, and this holds wherever the path sits in
    [filesArray]. *)
Theorem htmlc_classifies_second_segment :
  (forall slpath p ext1 t rest written,
     ~ In DOT p -> ~ In DOT ext1 -> (t = [] \/ exists t', t = DOT :: t') ->
     emission_loop slpath ((p ++ DOT :: ext1 ++ t) :: rest) written =
     if negb (str_eqb ext1 (u "html")) && negb (str_eqb ext1 (u "json"))
     then emission_loop slpath rest (written ++ [img_tag slpath (p ++ DOT :: ext1 ++ t)])
     else emission_loop slpath rest written)
  /\ emission_loop (u "C:/books") [u "C:\books\a.html.png"] [] = ([], true)
  /\ emission_loop (u "C:/my.books") [u "C:\my.books\vol1\index.html"] []
     = ([uq "<img src=`vol1/index.html` class=`image-item`/>" ++ [NL]], true)
  /\ (forall slpath img rest written,
        ~ In DOT img -> emission_loop slpath (img :: rest) written = (written, false))
  /\ (forall header slpath filesArray img,
        In img filesArray -> ~ In DOT img ->
        htmlc_emit header slpath filesArray
        = (fst (emission_loop slpath filesArray [header]), false)).
Proof.
  split; [|split; [|split; [|split]]].
  - intros slpath p ext1 t rest written Hp He Ht.
    cbn [emission_loop]. rewrite (split_char_second_segment p ext1 t Hp He Ht).
    reflexivity.
  - vm_compute. reflexivity.
  - vm_compute. reflexivity.
  - intros slpath img rest written Hd.
    cbn [emission_loop]. rewrite split_char_no_second by exact Hd. reflexivity.
  - intros header slpath filesArray img Hin Hd.
    unfold htmlc_emit.
    pose proof (emission_loop_abort slpath filesArray [header] img Hin Hd) as Hs.
    destruct (emission_loop slpath filesArray [header]) as [w c].
    cbn [snd] in Hs. subst c. reflexivity.
Qed.

Lemma htmlc_classifies_second_segment_witness :
  emission_loop (u "C:/b") [u "C:\b\001.jpg"; u "C:\b\notes"; u "C:\b\002.jpg"] []
  = ([img_tag (u "C:/b") (u "C:\b\001.jpg")], false)
  /\ htmlc_emit (u "<head>") (u "C:/b") [u "C:\b\001.jpg"; u "C:\b\notes"]
     = ([u "<head>"; img_tag (u "C:/b") (u "C:\b\001.jpg")], false)
  /\ emission_loop (u "C:/b") [u "C:\b\cover.json.jpg"] [] = ([], true).
Proof.
  destruct htmlc_classifies_second_segment as [Hcls [_ [_ [_ Hrun]]]].
  split; [|split].
  - rewrite (Hcls (u "C:/b") (u "C:\b\001") (u "jpg") [] _ [])
      by first [reflexivity | left; reflexivity | (cbv; intros H; repeat (destruct H as [H|H]; [discriminate H|]); exact H)].
    vm_compute. reflexivity.
  - rewrite (Hrun (u "<head>") (u "C:/b") _ (u "C:\b\notes"))
      by first [solve [cbv; intros H; repeat (destruct H as [H|H]; [discriminate H|]); exact H] | cbv; repeat (first [left; reflexivity | right])].
    vm_compute. reflexivity.
  - refine (eq_trans (Hcls (u "C:/b") (u "C:\b\cover") (u "json") (u ".jpg") [] [] _ _ _) _);
      [ cbv; intros H; repeat (destruct H as [H|H]; [discriminate H|]); exact H | cbv; intros H; repeat (destruct H as [H|H]; [discriminate H|]); exact H | right; eexists; reflexivity | vm_compute; reflexivity ].
Defined.

(* ================================================================== *)
(** * Further properties of the scripts *)

Ltac not_in_literal :=
  let H := fresh in
  intros H; cbv in H; repeat (destruct H as [H|H]; [discriminate H|]); exact H.

(* ------------------------------------------------------------------ *)
(** ** [MangaAnalyzer._format_chapter_name] *)

Lemma py_replace_char s c d :
  py_replace s [c] [d] = map (fun x => if x =? c then d else x) s.
Proof.
  unfold py_replace. rewrite replace_fuel_single by lia.
  induction s as [|x s IH]; simpl; [reflexivity|]. rewrite IH.
  destruct (x =? c); reflexivity.
Qed.

Lemma title_aux_no_new k before pc s :
  k = 95 \/ k = 45 -> In k (title_aux before pc s) -> In k s.
Proof.
  intros Hk. revert before pc; induction s as [|x s IH]; intros before pc; cbn [title_aux]; [tauto|].
  intros H. apply in_app_or in H as [H|H]; [left | right; exact (IH _ _ H)].
  destruct pc.
  - exact (case_map_ok_char _ _ _ (lower_ucs4_ok before x s) Hk H).
  - exact (case_map_ok_char _ _ _ (to_title_full_ok x) Hk H).
Qed.

Lemma uint_string_digits d a :
  In a (u (NilEmpty.string_of_uint d)) -> 48 <= a <= 57.
Proof.
  induction d; simpl; intros H;
    [contradiction | destruct H as [<-|H]; [cbv; split; discriminate | auto] ..].
Qed.

Lemma z_to_pystr_digits n a : 0 <= n -> In a (z_to_pystr n) -> 48 <= a <= 57.
Proof.
  intros Hn. unfold z_to_pystr.
  destruct n as [|p|p]; [| |lia]; cbn [Z.to_int NilEmpty.string_of_int];
    apply uint_string_digits.
Qed.

Lemma title_aux_nil before pc s : s <> [] -> title_aux before pc s <> [].
Proof.
  destruct s as [|x s]; [congruence|]; intros _; cbn [title_aux]. intros H.
  apply app_eq_nil in H as [H _]. destruct pc.
  - exact (case_map_ok_nonnil _ _ (lower_ucs4_ok before x s) H).
  - exact (case_map_ok_nonnil _ _ (to_title_full_ok x) H).
Qed.

Lemma format_name_clean folder_name :
  let name := py_replace (py_replace folder_name (u "_") (u " ")) (u "-") (u " ") in
  ~ In 95 name /\ ~ In 45 name.
Proof.
  cbv zeta. change (u "_") with [95]. change (u "-") with [45]. change (u " ") with [32].
  rewrite !py_replace_char, map_map.
  split; intros H; apply in_map_iff in H; destruct H as [y [Hy _]]; revert Hy;
    destruct (Z.eqb_spec y 95); cbn [Z.eqb Pos.eqb];
    try destruct (Z.eqb_spec y 45); intros; lia.
Qed.

(** The chapter name [_format_chapter_name] returns is never empty and
    holds no underscore (95) and no hyphen (45), for any folder name and
    any chapter number that is not negative. *)
Theorem format_chapter_name_clean (folder_name : pystr) (chapter_number : Z)
  (Hn : 0 <= chapter_number) :
  format_chapter_name folder_name chapter_number <> []
  /\ ~ In 95 (format_chapter_name folder_name chapter_number)
  /\ ~ In 45 (format_chapter_name folder_name chapter_number).
Proof.
  pose proof (format_name_clean folder_name) as [H95 H45]. cbv zeta in H95, H45.
  unfold format_chapter_name.
  set (name := py_replace (py_replace folder_name (u "_") (u " ")) (u "-") (u " ")) in *.
  assert (Hpre : forall c, c = 95 \/ c = 45 -> ~ In c (u "Chapter ")).
  { intros c [-> | ->]; not_in_literal. }
  destruct (py_isdigit name).
  - split; [intros Hc; apply app_eq_nil in Hc; destruct Hc as [Hc _]; vm_compute in Hc; discriminate Hc|].
    split; intros H; apply in_app_or in H; destruct H as [H|H];
      [exact (Hpre 95 (or_introl eq_refl) H) | exact (H95 H)
      | exact (Hpre 45 (or_intror eq_refl) H) | exact (H45 H)].
  - destruct name as [|c rest] eqn:En.
    + split; [intros Hc; apply app_eq_nil in Hc; destruct Hc as [Hc _]; vm_compute in Hc; discriminate Hc|].
      split; intros H; apply in_app_or in H; destruct H as [H|H];
        [exact (Hpre 95 (or_introl eq_refl) H)
        | apply (z_to_pystr_digits _ _ Hn) in H; lia
        | exact (Hpre 45 (or_intror eq_refl) H)
        | apply (z_to_pystr_digits _ _ Hn) in H; lia].
    + destruct (py_isdigit [c]).
      * split; [intros Hc; apply app_eq_nil in Hc; destruct Hc as [Hc _]; vm_compute in Hc; discriminate Hc|].
        split; intros H; apply in_app_or in H; destruct H as [H|H];
          [exact (Hpre 95 (or_introl eq_refl) H) | exact (H95 H)
          | exact (Hpre 45 (or_intror eq_refl) H) | exact (H45 H)].
      * unfold py_title.
        split; [apply title_aux_nil; discriminate|].
        split; intros H;
          [apply title_aux_no_new in H; [exact (H95 H) | left; reflexivity]
          | apply title_aux_no_new in H; [exact (H45 H) | right; reflexivity]].
Qed.

Lemma format_chapter_name_clean_witness :
  0 <= 3
  /\ format_chapter_name (u "vol_2-extra") 3 <> []
  /\ ~ In 95 (format_chapter_name (u "vol_2-extra") 3)
  /\ ~ In 45 (format_chapter_name (u "vol_2-extra") 3).
Proof.
  split; [lia|]. apply (format_chapter_name_clean (u "vol_2-extra") 3). lia.
Defined.

(* ------------------------------------------------------------------ *)
(** ** Chapter numbers of [MangaAnalyzer.analyze_manga] *)

Lemma forall_hdrel_number a (l : list Chapter) :
  Forall (fun c => a < number c) l -> HdRel Z.lt a (map number l).
Proof. intros H; destruct H; simpl; constructor; assumption. Qed.

Lemma subdirectory_chapters_numbers images_of folders i off cur :
  Forall (fun c => i + off <= number c /\ 1 <= page_count c)
    (subdirectory_chapters images_of folders i off cur)
  /\ Sorted Z.lt (map number (subdirectory_chapters images_of folders i off cur)).
Proof.
  revert i cur; induction folders as [|folder folders IH]; intros i cur; simpl.
  - split; constructor.
  - destruct (images_of folder) as [|x xs] eqn:E.
    + destruct (IH (i + 1) cur) as [HF HS]. split; [|exact HS].
      eapply Forall_impl; [|exact HF]. intros c [H1 H2]; split; lia.
    + set (n := Z.of_nat (List.length (x :: xs))).
      destruct (IH (i + 1) (cur + n)) as [HF HS].
      split.
      * constructor; [cbn; unfold n; simpl; lia|].
        eapply Forall_impl; [|exact HF]. intros c [H1 H2]; split; lia.
      * cbn [map number]. constructor; [exact HS|].
        apply forall_hdrel_number. eapply Forall_impl; [|exact HF].
        intros c [H1 _]; lia.
Qed.

Lemma analyze_manga_sorted_positive (base : path) (folders image_files : list path) :
  Sorted Z.lt (map number (chapters (analyze_manga base folders image_files)))
  /\ Forall (fun c => 1 <= number c /\ 1 <= page_count c)
       (chapters (analyze_manga base folders image_files)).
Proof.
  unfold analyze_manga; cbn [chapters].
  destruct (filter (fun img => path_eqb (path_parent img) base) image_files) as [|r rs] eqn:E.
  - cbn [app]. destruct (subdirectory_chapters_numbers
      (group_images_by_chapter folders image_files) folders 0 1
      (1 + Z.of_nat (List.length (@nil path)))) as [HF HS].
    split; [exact HS|]. eapply Forall_impl; [|exact HF]. intros c [H1 H2]; split; lia.
  - destruct (subdirectory_chapters_numbers
      (group_images_by_chapter folders image_files) folders 0 2
      (1 + Z.of_nat (List.length (r :: rs)))) as [HF HS].
    cbn [app map number]. split.
    + constructor; [exact HS|]. apply forall_hdrel_number.
      eapply Forall_impl; [|exact HF]. intros c [H1 _]; lia.
    + constructor; [cbn [number page_count]; simpl; lia|].
      eapply Forall_impl; [|exact HF]. intros c [H1 H2]; split; lia.
Qed.

(** The chapters [analyze_manga] returns have strictly increasing numbers,
    all at least 1, and each holds at least one page. *)
Theorem analyze_manga_numbers_increase (base : path) (folders image_files : list path) :
  Sorted Z.lt (map number (chapters (analyze_manga base folders image_files)))
  /\ Forall (fun c => 1 <= number c /\ 1 <= page_count c)
       (chapters (analyze_manga base folders image_files)).
Proof. exact (analyze_manga_sorted_positive base folders image_files). Qed.

(* ------------------------------------------------------------------ *)
(** ** [MangaAnalyzer._group_images_by_chapter] *)

Lemma is_prefix_trans a b c :
  is_prefix a b = true -> is_prefix b c = true -> is_prefix a c = true.
Proof.
  rewrite !is_prefix_app. intros [r1 ->] [r2 ->].
  exists (r1 ++ r2). rewrite app_assoc. reflexivity.
Qed.

Lemma first_folder_app l1 l2 x :
  first_folder (l1 ++ l2) x
  = match first_folder l1 x with Some g => Some g | None => first_folder l2 x end.
Proof.
  induction l1 as [|f l1 IH]; simpl; [reflexivity|].
  destruct (is_prefix f x); [reflexivity | exact IH].
Qed.

(** Each image lands in at most one folder's group; and a folder listed
    after one of its ancestor folders (as the sorted scan lists them) gets
    no image at all: the ancestor, met first, takes them. *)
Theorem group_images_disjoint_nested (folders image_files : list path) :
  (forall f g img, f <> g ->
     In img (group_images_by_chapter folders image_files f) ->
     ~ In img (group_images_by_chapter folders image_files g))
  /\ (forall l1 a l2 b,
        folders = l1 ++ a :: l2 -> ~ In b l1 -> a <> b -> is_prefix a b = true ->
        group_images_by_chapter folders image_files b = []).
Proof.
  split.
  - intros f g img Hfg Hf Hg. unfold group_images_by_chapter in Hf, Hg.
    apply filter_In in Hf as [_ Hf]. apply filter_In in Hg as [_ Hg].
    destruct (first_folder folders img) as [h|]; [|discriminate].
    apply path_eqb_eq in Hf. apply path_eqb_eq in Hg. congruence.
  - intros l1 a l2 b -> Hb1 Hab Hpre. unfold group_images_by_chapter.
    match goal with |- filter ?p _ = [] =>
      enough (Hall : forall img, p img = false)
        by (induction image_files as [|i r IH]; [reflexivity|];
            cbn [filter]; rewrite Hall; exact IH) end.
    intros img. cbv beta. rewrite first_folder_app.
    destruct (first_folder l1 img) as [g|] eqn:E1.
    + apply first_folder_some in E1 as [Hg _].
      destruct (path_eqb g b) eqn:E; [|reflexivity].
      apply path_eqb_eq in E; subst; contradiction.
    + cbn [first_folder].
      destruct (is_prefix a img) eqn:Ea.
      * destruct (path_eqb a b) eqn:E; [|reflexivity].
        apply path_eqb_eq in E; contradiction.
      * destruct (first_folder l2 img) as [g|] eqn:E2; [|reflexivity].
        destruct (path_eqb g b) eqn:E; [|reflexivity].
        apply path_eqb_eq in E; subst g.
        apply first_folder_some in E2 as [_ Hb].
        rewrite (is_prefix_trans a b img Hpre Hb) in Ea. discriminate.
Qed.

Lemma group_images_disjoint_nested_witness :
  group_images_by_chapter [[u "m"; u "a"]; [u "m"; u "a"; u "b"]]
    [[u "m"; u "a"; u "b"; u "y.png"]] [u "m"; u "a"; u "b"] = [].
Proof.
  apply (proj2 (group_images_disjoint_nested
                  [[u "m"; u "a"]; [u "m"; u "a"; u "b"]]
                  [[u "m"; u "a"; u "b"; u "y.png"]])
               [] [u "m"; u "a"] [[u "m"; u "a"; u "b"]] [u "m"; u "a"; u "b"]);
    [reflexivity | simpl; tauto | discriminate | reflexivity].
Defined.

(* ------------------------------------------------------------------ *)
(** ** [MangaHTMLGenerator._determine_image_chapter] *)

Lemma is_prefix_length f p : is_prefix f p = true -> (List.length f <= List.length p)%nat.
Proof.
  intros H. apply is_prefix_app in H as [r ->]. rewrite length_app. lia.
Qed.

Lemma is_prefix_same_length f p :
  is_prefix f p = true -> List.length f = List.length p -> f = p.
Proof.
  intros H Hl. apply is_prefix_app in H as [r ->]. rewrite length_app in Hl.
  destruct r; [rewrite app_nil_r; reflexivity | simpl in Hl; lia].
Qed.

Lemma is_prefix_refl p : is_prefix p p = true.
Proof. apply is_prefix_app. exists []. rewrite app_nil_r. reflexivity. Qed.

Lemma is_prefix_removelast p : is_prefix (removelast p) p = true.
Proof.
  destruct p as [|x p] using rev_ind; [reflexivity|].
  rewrite removelast_last. apply is_prefix_app. eauto.
Qed.

Lemma exact_parent_chapter_some cs par n :
  exact_parent_chapter cs par = Some n ->
  exists c, In c cs /\ folder_path c = par /\ number c = n.
Proof.
  induction cs as [|c cs IH]; simpl; [discriminate|].
  destruct (path_eqb (folder_path c) par) eqn:E.
  - intros H; inversion H; subst. apply path_eqb_eq in E. eauto.
  - intros H. destruct (IH H) as [c' [H1 H2]]. eauto.
Qed.

Lemma exact_parent_chapter_none cs par :
  (forall c, In c cs -> folder_path c <> par) -> exact_parent_chapter cs par = None.
Proof.
  induction cs as [|c cs IH]; simpl; intros H; [reflexivity|].
  destruct (path_eqb (folder_path c) par) eqn:E.
  - apply path_eqb_eq in E. exfalso; exact (H c (or_introl eq_refl) E).
  - apply IH. intros c' Hc'. apply H. right; exact Hc'.
Qed.


Lemma best_match_loop_some cs img best :
  best <> None -> best_match_loop cs img best <> None.
Proof.
  revert best; induction cs as [|c cs IH]; intros best Hb; simpl; [exact Hb|].
  destruct (is_prefix (folder_path c) img); [|apply IH; exact Hb].
  destruct best as [[n0 d0]|]; [|congruence].
  destruct (_ <? d0)%nat; apply IH; congruence.
Qed.

Lemma best_match_loop_mono cs img best n d n0 d0 :
  best_match_loop cs img best = Some (n, d) -> best = Some (n0, d0) -> (d <= d0)%nat.
Proof.
  revert best n0 d0; induction cs as [|c cs IH]; intros best n0 d0; simpl.
  - intros -> E; inversion E; lia.
  - destruct (is_prefix (folder_path c) img); [|apply IH].
    intros Hr ->. destruct (Nat.ltb_spec (List.length img - List.length (folder_path c)) d0).
    + specialize (IH _ _ _ Hr eq_refl). lia.
    + exact (IH _ _ _ Hr eq_refl).
Qed.

Lemma best_match_loop_origin cs img best n d :
  best_match_loop cs img best = Some (n, d) ->
  best = Some (n, d)
  \/ exists c, In c cs /\ is_prefix (folder_path c) img = true /\ number c = n
               /\ d = chapter_depth img c.
Proof.
  revert best; induction cs as [|c cs IH]; intros best; simpl; [auto|].
  assert (Hlift : forall b, best_match_loop cs img b = Some (n, d) ->
            b = Some (number c, chapter_depth img c) ->
            is_prefix (folder_path c) img = true ->
            exists c0, (c = c0 \/ In c0 cs) /\ is_prefix (folder_path c0) img = true
                       /\ number c0 = n /\ d = chapter_depth img c0).
  { intros b Hr -> Hp. destruct (IH _ Hr) as [E|[c0 [H1 H2]]].
    - inversion E; subst. exists c. auto.
    - exists c0. auto. }
  destruct (is_prefix (folder_path c) img) eqn:Ep.
  - destruct best as [[n0 d0]|].
    + destruct (_ <? d0)%nat.
      * intros Hr. right. exact (Hlift _ Hr eq_refl eq_refl).
      * intros Hr. destruct (IH _ Hr) as [E|[c0 [H1 H2]]]; [left; exact E|].
        right. exists c0. auto.
    + intros Hr. right. exact (Hlift _ Hr eq_refl eq_refl).
  - intros Hr. destruct (IH _ Hr) as [E|[c0 [H1 H2]]]; [left; exact E|].
    right. exists c0. auto.
Qed.

Lemma best_match_loop_least cs img best n d :
  best_match_loop cs img best = Some (n, d) ->
  forall c, In c cs -> is_prefix (folder_path c) img = true -> (d <= chapter_depth img c)%nat.
Proof.
  revert best; induction cs as [|c cs IH]; intros best Hr c0 Hc0 Hp0; [destruct Hc0|].
  simpl in Hr. destruct Hc0 as [<-|Hc0].
  - rewrite Hp0 in Hr. unfold chapter_depth.
    destruct best as [[n0 d0]|].
    + destruct (Nat.ltb_spec (List.length img - List.length (folder_path c)) d0).
      * exact (best_match_loop_mono _ _ _ _ _ _ _ Hr eq_refl).
      * specialize (best_match_loop_mono _ _ _ _ _ _ _ Hr eq_refl). lia.
    + exact (best_match_loop_mono _ _ _ _ _ _ _ Hr eq_refl).
  - destruct (is_prefix (folder_path c) img);
      [destruct best as [[n0 d0]|]; [destruct (_ <? d0)%nat|]|];
      exact (IH _ Hr c0 Hc0 Hp0).
Qed.

Lemma best_match_loop_none cs img :
  (forall c, In c cs -> is_prefix (folder_path c) img = false) ->
  best_match_loop cs img None = None.
Proof.
  induction cs as [|c cs IH]; simpl; intros H; [reflexivity|].
  rewrite (H c (or_introl eq_refl)). apply IH. intros c' Hc'. apply H. right; exact Hc'.
Qed.

Lemma best_match_loop_found cs img best :
  (exists c, In c cs /\ is_prefix (folder_path c) img = true) ->
  best_match_loop cs img best <> None.
Proof.
  revert best; induction cs as [|c cs IH]; intros best [c0 [Hc0 Hp0]]; [destruct Hc0|].
  simpl. destruct Hc0 as [<-|Hc0].
  - rewrite Hp0.
    destruct best as [[n0 d0]|]; [destruct (_ <? d0)%nat|];
      apply best_match_loop_some; congruence.
  - destruct (is_prefix (folder_path c) img);
      [destruct best as [[n0 d0]|]; [destruct (_ <? d0)%nat|]|];
      apply IH; eauto.
Qed.

Lemma is_prefix_common a b p :
  is_prefix a p = true -> is_prefix b p = true ->
  (List.length a <= List.length b)%nat -> is_prefix a b = true.
Proof.
  revert b p. induction a as [|x a IH]; intros b p Ha Hb Hl; [reflexivity|].
  destruct p as [|y p]; [discriminate|]. destruct b as [|z b]; [simpl in Hl; lia|].
  cbn [is_prefix] in *. apply andb_true_iff in Ha as [Hx Ha], Hb as [Hz Hb].
  apply str_eqb_eq in Hx, Hz. subst. rewrite str_eqb_refl.
  cbn [List.length] in Hl. exact (IH b p Ha Hb ltac:(lia)).
Qed.

(** [_determine_image_chapter] credits an image to a chapter whose folder
    contains it and is the deepest of all chapter folders containing it:
    every chapter folder containing the image has no more components than
    the chosen one and contains the chosen one (no chapter folder being
    the image path itself); when no chapter folder contains the image it
    answers chapter 1. *)
Theorem determine_image_chapter_deepest (cs : list Chapter) (image_path : path)
  (Hfile : forall c, In c cs -> folder_path c <> image_path) :
  ((forall c, In c cs -> is_prefix (folder_path c) image_path = false) ->
   determine_image_chapter cs image_path = 1)
  /\ ((exists c, In c cs /\ is_prefix (folder_path c) image_path = true) ->
      exists c, In c cs /\ is_prefix (folder_path c) image_path = true
        /\ determine_image_chapter cs image_path = number c
        /\ forall c', In c' cs -> is_prefix (folder_path c') image_path = true ->
             (List.length (folder_path c') <= List.length (folder_path c))%nat
             /\ is_prefix (folder_path c') (folder_path c) = true).
Proof.
  split.
  - intros Hno. unfold determine_image_chapter.
    rewrite exact_parent_chapter_none.
    + rewrite best_match_loop_none by exact Hno. reflexivity.
    + intros c Hc E. specialize (Hno c Hc). rewrite E in Hno.
      unfold path_parent in Hno. rewrite is_prefix_removelast in Hno. discriminate.
  - intros Hex. unfold determine_image_chapter.
    destruct (exact_parent_chapter cs (path_parent image_path)) as [n|] eqn:Ee.
    + apply exact_parent_chapter_some in Ee as [c [Hc [Hf Hn]]].
      exists c. split; [exact Hc|].
      assert (Hp : is_prefix (folder_path c) image_path = true)
        by (rewrite Hf; apply is_prefix_removelast).
      split; [exact Hp|]. split; [symmetry; exact Hn|].
      intros c' Hc' Hp'.
      enough (Hl : (List.length (folder_path c') <= List.length (folder_path c))%nat)
        by (split; [exact Hl | exact (is_prefix_common _ _ _ Hp' Hp Hl)]).
      pose proof (is_prefix_length _ _ Hp') as L'.
      assert (Hne : folder_path c' <> image_path) by exact (Hfile c' Hc').
      assert (L'' : (List.length (folder_path c') < List.length image_path)%nat).
      { destruct (Nat.eq_dec (List.length (folder_path c')) (List.length image_path)) as [E|E].
        - exfalso. exact (Hne (is_prefix_same_length _ _ Hp' E)).
        - lia. }
      rewrite Hf. unfold path_parent.
      destruct image_path as [|x p] using rev_ind; [simpl in L''; lia|].
      rewrite removelast_last, length_app in *. simpl in *. lia.
    + destruct (best_match_loop cs image_path None) as [[n d]|] eqn:Eb.
      * destruct (best_match_loop_origin _ _ _ _ _ Eb) as [E|[c [Hc [Hp [Hn Hd]]]]];
          [discriminate|].
        exists c. split; [exact Hc|]. split; [exact Hp|]. split; [symmetry; exact Hn|].
        intros c' Hc' Hp'.
        enough (Hl : (List.length (folder_path c') <= List.length (folder_path c))%nat)
          by (split; [exact Hl | exact (is_prefix_common _ _ _ Hp' Hp Hl)]).
        pose proof (best_match_loop_least _ _ _ _ _ Eb c' Hc' Hp') as Hle.
        pose proof (is_prefix_length _ _ Hp) as L.
        pose proof (is_prefix_length _ _ Hp') as L'.
        unfold chapter_depth in *. lia.
      * exfalso. exact (best_match_loop_found cs image_path None Hex Eb).
Qed.


Lemma determine_image_chapter_deepest_witness :
  exists c, In c sample_chapters
    /\ is_prefix (folder_path c) [u "m"; u "a"; u "b"; u "c"; u "y.png"] = true
    /\ determine_image_chapter sample_chapters [u "m"; u "a"; u "b"; u "c"; u "y.png"]
       = number c
    /\ forall c', In c' sample_chapters ->
         is_prefix (folder_path c') [u "m"; u "a"; u "b"; u "c"; u "y.png"] = true ->
         (List.length (folder_path c') <= List.length (folder_path c))%nat
         /\ is_prefix (folder_path c') (folder_path c) = true.
Proof.
  apply (proj2 (determine_image_chapter_deepest sample_chapters
                  [u "m"; u "a"; u "b"; u "c"; u "y.png"] ltac:(
    intros c Hc; simpl in Hc; repeat destruct Hc as [<-|Hc]; try contradiction;
    cbn [folder_path]; discriminate))).
  exists (mkChapter 1 (u "Introduction") [u "m"] 1 1 1).
  split; [left; reflexivity | reflexivity].
Defined.

(* ------------------------------------------------------------------ *)
(** ** [MangaHTMLGenerator._generate_reader_content] *)

Lemma dict_get_append d m img n :
  dict_get (dict_append d m img) n
  = if m =? n then Some (match dict_get d n with Some l => l ++ [img] | None => [img] end)
    else dict_get d n.
Proof.
  induction d as [|[k l] d IH]; simpl.
  - destruct (m =? n); reflexivity.
  - destruct (Z.eqb_spec k m) as [->|Hkm].
    + simpl. destruct (m =? n); reflexivity.
    + simpl. rewrite IH. destruct (Z.eqb_spec k n) as [->|Hkn]; [|reflexivity].
      destruct (Z.eqb_spec m n); [congruence|reflexivity].
Qed.


Lemma group_by_chapter_get_aux det l d n :
  dict_get (fold_left (fun d img => dict_append d (det img) img) l d) n
  = opt_app (dict_get d n) (filter (fun img => det img =? n) l).
Proof.
  revert d; induction l as [|x l IH]; intros d; simpl.
  - destruct (dict_get d n); simpl; rewrite ?app_nil_r; reflexivity.
  - rewrite IH, dict_get_append.
    destruct (det x =? n); [|reflexivity].
    destruct (dict_get d n); simpl; [rewrite <- app_assoc; reflexivity|reflexivity].
Qed.

Lemma group_by_chapter_get det l n :
  dict_get (group_by_chapter det l) n
  = match filter (fun img => det img =? n) l with [] => None | xs => Some xs end.
Proof.
  unfold group_by_chapter. rewrite group_by_chapter_get_aux. simpl.
  destruct (filter _ l); reflexivity.
Qed.

Lemma insert_opt_perm {A} (lt : A -> A -> option bool) x l l' :
  insert_opt lt x l = Some l' -> Permutation l' (x :: l).
Proof.
  revert l'; induction l as [|y l IH]; intros l' H; simpl in H.
  - inversion H; reflexivity.
  - destruct (lt x y) as [[|]|]; [inversion H; reflexivity| |discriminate].
    destruct (insert_opt lt x l) as [r|] eqn:E; [|discriminate].
    inversion H; subst. rewrite (IH r eq_refl). apply perm_swap.
Qed.

Lemma sort_opt_perm_aux {A} (lt : A -> A -> option bool) l acc r :
  fold_left (fun acc x => match acc with None => None | Some acc => insert_opt lt x acc end)
            l acc = Some r ->
  exists a, acc = Some a /\ Permutation r (rev l ++ a).
Proof.
  revert acc; induction l as [|x l IH]; intros acc H; simpl in H.
  - subst. exists r. split; [reflexivity|]. reflexivity.
  - destruct (IH _ H) as [a [Ha Hp]].
    destruct acc as [acc|]; [|discriminate].
    exists acc. split; [reflexivity|]. rewrite Hp.
    apply insert_opt_perm in Ha. rewrite Ha. simpl. rewrite <- app_assoc. simpl.
    reflexivity.
Qed.

Lemma sort_opt_perm {A} (lt : A -> A -> option bool) l r :
  sort_opt lt l = Some r -> Permutation r l.
Proof.
  intros H. destruct (sort_opt_perm_aux lt l (Some []) r H) as [a [Ha Hp]].
  inversion Ha; subst. rewrite Hp, app_nil_r. symmetry. apply Permutation_rev.
Qed.

Lemma traverse_pairs_snd {A} (k : A -> option (list key_part)) l kl :
  traverse_opt (fun x => option_map (fun kx => (kx, x)) (k x)) l = Some kl ->
  map snd kl = l.
Proof.
  revert kl; induction l as [|x l IH]; intros kl H; simpl in H.
  - inversion H; reflexivity.
  - destruct (k x) as [kx|]; [|discriminate]. simpl in H.
    destruct (traverse_opt _ l) as [r|] eqn:E; [|discriminate].
    inversion H; subst. simpl. rewrite (IH r eq_refl). reflexivity.
Qed.

Lemma sort_by_key_perm {A} (k : A -> option (list key_part)) l l' :
  sort_by_key k l = Some l' -> Permutation l' l.
Proof.
  unfold sort_by_key.
  destruct (traverse_opt _ l) as [kl|] eqn:E; [|discriminate].
  destruct (sort_opt _ kl) as [r|] eqn:Es; [|discriminate].
  intros H; inversion H; subst.
  rewrite <- (traverse_pairs_snd k l kl E). apply Permutation_map.
  exact (sort_opt_perm _ _ _ Es).
Qed.

Lemma traverse_sort_dict_get (key : path -> option (list key_part)) d ci n :
  traverse_opt (fun '(m, l) => option_map (pair m) (sort_by_key key l)) d = Some ci ->
  match dict_get d n with
  | None => dict_get ci n = None
  | Some l => exists l', dict_get ci n = Some l' /\ Permutation l' l
  end.
Proof.
  revert ci; induction d as [|[m l] d IH]; intros ci H; simpl in H.
  - inversion H; reflexivity.
  - destruct (sort_by_key key l) as [l'|] eqn:Es; [|discriminate]. simpl in H.
    destruct (traverse_opt _ d) as [ci'|] eqn:E; [|discriminate].
    inversion H; subst. simpl.
    destruct (m =? n).
    + exists l'. split; [reflexivity|]. exact (sort_by_key_perm _ _ _ Es).
    + exact (IH ci' eq_refl).
Qed.

Lemma page_srcs_app a b : page_srcs (a ++ b) = page_srcs a ++ page_srcs b.
Proof. induction a as [|[] a IH]; simpl; rewrite ?IH; reflexivity. Qed.

Lemma page_numbers_app a b : page_numbers (a ++ b) = page_numbers a ++ page_numbers b.
Proof. induction a as [|[] a IH]; simpl; rewrite ?IH; reflexivity. Qed.

Lemma zseq_app s a b : zseq s (a + b) = zseq s a ++ zseq (s + Z.of_nat a) b.
Proof.
  revert s; induction a as [|a IH]; intros s; simpl.
  - rewrite Z.add_0_r. reflexivity.
  - rewrite IH. f_equal. f_equal. f_equal. lia.
Qed.

Lemma page_lines_pages sep base imgs n pc :
  page_srcs (page_lines sep base imgs n pc) = map (reader_src sep base) imgs
  /\ page_numbers (page_lines sep base imgs n pc) = zseq pc (List.length imgs).
Proof.
  revert pc; induction imgs as [|img imgs IH]; intros pc; simpl; [split; reflexivity|].
  destruct (IH (pc + 1)) as [H1 H2]. rewrite H1, H2. split; reflexivity.
Qed.


Lemma reader_lines_loop_pages sep base ci cs pc :
  page_srcs (reader_lines_loop sep base ci cs pc)
  = map (reader_src sep base) (flat_map (chapter_block ci) cs)
  /\ page_numbers (reader_lines_loop sep base ci cs pc)
     = zseq pc (List.length (flat_map (chapter_block ci) cs)).
Proof.
  revert pc; induction cs as [|c cs IH]; intros pc; simpl; [split; reflexivity|].
  change (chapter_block ci c) with
    (match dict_get ci (number c) with Some l => l | None => [] end).
  destruct (dict_get ci (number c)) as [imgs|]; [|exact (IH pc)].
  destruct (IH (pc + Z.of_nat (List.length imgs))) as [H1 H2].
  destruct (page_lines_pages sep base imgs (number c) pc) as [H3 H4].
  rewrite !page_srcs_app, !page_numbers_app, H1, H2, H3, H4, map_app, length_app, zseq_app.
  destruct (1 <? number c); split; reflexivity.
Qed.

Lemma flat_map_perm_ext {A B} (f g : A -> list B) l :
  (forall x, In x l -> Permutation (f x) (g x)) ->
  Permutation (flat_map f l) (flat_map g l).
Proof.
  induction l as [|x l IH]; simpl; intros H; [reflexivity|].
  apply Permutation_app; [apply H; left; reflexivity|].
  apply IH. intros y Hy. apply H. right; exact Hy.
Qed.

Lemma flat_map_map_comm {A B C} (f : B -> list C) (g : A -> B) l :
  flat_map f (map g l) = flat_map (fun x => f (g x)) l.
Proof. induction l as [|x l IH]; simpl; rewrite ?IH; reflexivity. Qed.

Lemma flat_map_filter_absent {A} (f : A -> Z) x l ns :
  ~ In (f x) ns ->
  flat_map (fun n => filter (fun y => f y =? n) (x :: l)) ns
  = flat_map (fun n => filter (fun y => f y =? n) l) ns.
Proof.
  induction ns as [|n ns IH]; intros H; [reflexivity|]. cbn [flat_map].
  rewrite IH by (intros Hi; apply H; right; exact Hi). f_equal. simpl.
  destruct (Z.eqb_spec (f x) n); [exfalso; apply H; left; congruence|reflexivity].
Qed.

(** Splitting a list by a key that takes each value of [ns] once loses
    and duplicates nothing. *)
Lemma flat_map_filter_perm {A} (f : A -> Z) ns l :
  NoDup ns -> (forall x, In x l -> In (f x) ns) ->
  Permutation (flat_map (fun n => filter (fun y => f y =? n) l) ns) l.
Proof.
  intros Hnd. induction l as [|x l IH]; intros Hin.
  - clear Hin. induction ns as [|n ns IHns]; [reflexivity|].
    inversion Hnd; subst. cbn [flat_map filter app]. apply IHns; assumption.
  - assert (Hx : In (f x) ns) by (apply Hin; left; reflexivity).
    assert (IH' : Permutation (flat_map (fun n => filter (fun y => f y =? n) l) ns) l)
      by (apply IH; intros y Hy; apply Hin; right; exact Hy).
    apply perm_trans with (x :: flat_map (fun n => filter (fun y => f y =? n) l) ns);
      [|apply perm_skip; exact IH'].
    clear IH IH' Hin.
    induction ns as [|n ns IHns]; [destruct Hx|].
    inversion Hnd as [|? ? Hn Hnd']; subst. cbn [flat_map].
    destruct (Z.eqb_spec (f x) n) as [E|E].
    + subst n. rewrite (flat_map_filter_absent f x l ns Hn).
      simpl. rewrite Z.eqb_refl. reflexivity.
    + destruct Hx as [Hx|Hx]; [congruence|].
      rewrite (IHns Hnd' Hx). simpl. apply Z.eqb_neq in E. rewrite E.
      symmetry; apply Permutation_middle.
Qed.

Lemma determine_image_chapter_in cs img :
  (exists c, In c cs /\ is_prefix (folder_path c) img = true) ->
  In (determine_image_chapter cs img) (map number cs).
Proof.
  intros Hex. unfold determine_image_chapter.
  destruct (exact_parent_chapter cs (path_parent img)) as [n|] eqn:E.
  - destruct (exact_parent_chapter_some _ _ _ E) as [c [Hc [_ <-]]].
    apply in_map; exact Hc.
  - destruct (best_match_loop cs img None) as [[n d]|] eqn:B.
    + destruct (best_match_loop_origin _ _ _ _ _ B) as [H|[c [Hc [_ [<- _]]]]];
        [discriminate|apply in_map; exact Hc].
    + exfalso. exact (best_match_loop_found cs img None Hex B).
Qed.

Lemma grouped_blocks_perm (key : path -> option (list key_part)) (det : path -> Z)
  (cs : list Chapter) (all_images : list path) ci :
  NoDup (map number cs) ->
  (forall img, In img all_images -> In (det img) (map number cs)) ->
  traverse_opt (fun '(n, l) => option_map (pair n) (sort_by_key key l))
               (group_by_chapter det all_images) = Some ci ->
  Permutation (flat_map (chapter_block ci) cs) all_images.
Proof.
  intros Hnd Hcov E.
  transitivity (flat_map (fun n => filter (fun y => det y =? n) all_images) (map number cs)).
  - rewrite flat_map_map_comm. apply flat_map_perm_ext. intros c _.
    pose proof (traverse_sort_dict_get key _ ci (number c) E) as Hg.
    rewrite group_by_chapter_get in Hg. unfold chapter_block.
    destruct (filter (fun img => det img =? number c) all_images) as [|y ys].
    + rewrite Hg. reflexivity.
    + destruct Hg as [l' [-> Hp]]. exact Hp.
  - apply flat_map_filter_perm; assumption.
Qed.

Lemma reader_content_pages_complete_aux (sep : pystr) (md : MangaMetadata)
  (all_images : list path) (lines : list reader_line) :
  NoDup (map number (chapters md)) ->
  (forall img, In img all_images ->
     exists c, In c (chapters md) /\ is_prefix (folder_path c) img = true) ->
  reader_lines_v3 sep md all_images = Some lines ->
  Permutation (page_srcs lines) (map (reader_src sep (base_path md)) all_images)
  /\ page_numbers lines = zseq 1 (List.length all_images).
Proof.
  intros Hnd Hcov H. unfold reader_lines_v3 in H.
  set (key := fun img => natural_sort_key (join sep (skipn (List.length (base_path md)) img))) in H.
  set (det := determine_image_chapter (chapters md)) in H.
  destruct (traverse_opt (fun '(n, l) => option_map (pair n) (sort_by_key key l))
             (group_by_chapter det all_images)) as [ci|] eqn:E;
    [|discriminate].
  inversion H; subst lines; clear H.
  set (cs := sort_by (fun a b => number a <? number b) (chapters md)).
  assert (Hcs : Permutation (map number cs) (map number (chapters md)))
    by (apply Permutation_map; apply sort_by_perm).
  assert (Hblocks : Permutation (flat_map (chapter_block ci) cs) all_images).
  { apply (grouped_blocks_perm key det cs all_images ci); [| |exact E].
    - exact (Permutation_NoDup (Permutation_sym Hcs) Hnd).
    - intros x Hx. apply (Permutation_in _ (Permutation_sym Hcs)).
      apply determine_image_chapter_in. apply Hcov; exact Hx. }
  destruct (reader_lines_loop_pages sep (base_path md) ci cs 1) as [H1 H2].
  rewrite H1, H2, (Permutation_length Hblocks). split; [|reflexivity].
  apply Permutation_map. exact Hblocks.
Qed.

(** Every image collected for the reading area is shown exactly once, and
    the pages are numbered [1, 2, ..., n] in the order they appear, when
    the chapter numbers are distinct and each image lies under some
    chapter folder. *)
Theorem reader_content_pages_complete (sep : pystr) (md : MangaMetadata)
  (all_images : list path) (lines : list reader_line) :
  NoDup (map number (chapters md)) ->
  (forall img, In img all_images ->
     exists c, In c (chapters md) /\ is_prefix (folder_path c) img = true) ->
  reader_lines_v3 sep md all_images = Some lines ->
  Permutation (page_srcs lines) (map (reader_src sep (base_path md)) all_images)
  /\ page_numbers lines = zseq 1 (List.length all_images).
Proof. exact (reader_content_pages_complete_aux sep md all_images lines). Qed.

Lemma sorted_lt_nodup l : Sorted Z.lt l -> NoDup l.
Proof.
  intros H. apply Sorted_StronglySorted in H; [|intros a b c; lia].
  induction H as [|a l Hs IH Hf]; constructor; [|exact IH].
  intros Ha. rewrite Forall_forall in Hf. specialize (Hf a Ha). lia.
Qed.

Lemma subdirectory_chapters_has images_of folders i off cur g x :
  In g folders -> In x (images_of g) ->
  exists c, In c (subdirectory_chapters images_of folders i off cur) /\ folder_path c = g.
Proof.
  revert i cur; induction folders as [|f folders IH]; intros i cur Hg Hx; [destruct Hg|].
  simpl. destruct Hg as [<-|Hg].
  - destruct (images_of f) as [|y ys]; [destruct Hx|].
    eexists; split; [left; reflexivity|reflexivity].
  - destruct (images_of f) as [|y ys].
    + exact (IH _ _ Hg Hx).
    + destruct (IH (i + 1) (cur + Z.of_nat (List.length (y :: ys))) Hg Hx) as [c [Hc Hp]].
      exists c; split; [right; exact Hc|exact Hp].
Qed.

Lemma analyze_manga_covers base folders images x :
  In x images ->
  path_eqb (path_parent x) base = negb (is_some (first_folder folders x)) ->
  exists c, In c (chapters (analyze_manga base folders images))
            /\ is_prefix (folder_path c) x = true.
Proof.
  intros Hx Hcls. unfold analyze_manga; cbn [chapters].
  destruct (path_eqb (path_parent x) base) eqn:Ep.
  - assert (Hr : In x (filter (fun img => path_eqb (path_parent img) base) images))
      by (apply filter_In; split; assumption).
    destruct (filter (fun img => path_eqb (path_parent img) base) images) as [|r rs];
      [destruct Hr|].
    eexists; split; [left; reflexivity|]. cbn [folder_path].
    apply path_eqb_eq in Ep. rewrite <- Ep. apply is_prefix_removelast.
  - destruct (first_folder folders x) as [g|] eqn:Ef; [|discriminate].
    destruct (first_folder_some _ _ _ Ef) as [Hg Hpre].
    assert (Hin : In x (group_images_by_chapter folders images g)).
    { unfold group_images_by_chapter. apply filter_In. split; [exact Hx|].
      rewrite Ef. apply path_eqb_eq. reflexivity. }
    destruct (subdirectory_chapters_has (group_images_by_chapter folders images) folders 0
                (match filter (fun img => path_eqb (path_parent img) base) images with
                 | [] => 1 | _ => 2 end)
                (1 + Z.of_nat (List.length
                      (filter (fun img => path_eqb (path_parent img) base) images)))
                g x Hg Hin) as [c [Hc Hcg]].
    exists c. split; [|rewrite Hcg; exact Hpre].
    apply in_or_app. right.
    destruct (filter (fun img => path_eqb (path_parent img) base) images); exact Hc.
Qed.

Lemma scan_directory_images guess_type base t :
  snd (scan_directory guess_type base t)
  = sort_by path_ltb (walk_images guess_type base t).
Proof. reflexivity. Qed.

(** From [generate]: after [scan_directory] and [analyze_manga], the
    reading area shows every image of the walk exactly once, and numbers
    the pages [1, ..., total_pages] in order. *)
Theorem reader_pipeline_pages (guess_type : path -> option pystr) (sep : pystr)
  (base : path) (t : tree) (lines : list reader_line) :
  wf_tree t ->
  reader_lines_v3 sep (scan_and_analyze guess_type base t)
                  (walk_images guess_type base t) = Some lines ->
  Permutation (page_srcs lines) (map (reader_src sep base) (walk_images guess_type base t))
  /\ page_numbers lines
     = zseq 1 (Z.to_nat (total_pages (scan_and_analyze guess_type base t))).
Proof.
  intros Hwf H.
  pose proof (scan_image_class guess_type base t Hwf) as [_ Hcls].
  pose proof (scan_directory_images guess_type base t) as Himg.
  assert (Hbase : base_path (scan_and_analyze guess_type base t) = base).
  { unfold scan_and_analyze. destruct (scan_directory guess_type base t); reflexivity. }
  assert (Htot : total_pages (scan_and_analyze guess_type base t)
                 = Z.of_nat (List.length (walk_images guess_type base t))).
  { unfold scan_and_analyze.
    destruct (scan_directory guess_type base t) as [folders images] eqn:Es.
    cbn [snd] in Himg. subst images. cbn.
    rewrite (Permutation_length (sort_by_perm _ _)). reflexivity. }
  assert (Hnd : NoDup (map number (chapters (scan_and_analyze guess_type base t)))).
  { unfold scan_and_analyze. destruct (scan_directory guess_type base t) as [folders images].
    apply sorted_lt_nodup. apply analyze_manga_sorted_positive. }
  assert (Hcov : forall img, In img (walk_images guess_type base t) ->
            exists c, In c (chapters (scan_and_analyze guess_type base t))
                      /\ is_prefix (folder_path c) img = true).
  { intros img Hi.
    assert (Hi' : In img (snd (scan_directory guess_type base t))).
    { rewrite Himg. eapply Permutation_in; [symmetry; apply sort_by_perm|exact Hi]. }
    specialize (Hcls img Hi').
    unfold scan_and_analyze. destruct (scan_directory guess_type base t) as [folders images].
    exact (analyze_manga_covers base folders images img Hi' Hcls). }
  destruct (reader_content_pages_complete_aux sep _ _ lines Hnd Hcov H) as [H1 H2].
  rewrite Hbase in H1. rewrite Htot, Nat2Z.id. split; assumption.
Qed.

Lemma reader_content_pages_complete_witness :
  NoDup (map number (chapters unordered_metadata)) /\
  reader_lines_v3 (u "/") unordered_metadata unordered_images
  = Some [PageImage (u "a/9.png") 1 1; PageImage (u "a/10.png") 2 1;
          ChapterMarker 2 (u "B"); PageImage (u "b/2.png") 3 2] /\
  Permutation [u "a/9.png"; u "a/10.png"; u "b/2.png"]
              (map (reader_src (u "/") [u "manga"]) unordered_images)
  /\ [1; 2; 3] = zseq 1 3.
Proof.
  assert (Hnd : NoDup (map number (chapters unordered_metadata))).
  { cbn. constructor; [intros [H|[]]; discriminate|].
    constructor; [intros []|constructor]. }
  assert (Hcov : forall img, In img unordered_images ->
            exists c, In c (chapters unordered_metadata)
                      /\ is_prefix (folder_path c) img = true).
  { intros img Hi. cbn in Hi.
    destruct Hi as [<-|[<-|[<-|[]]]];
      [exists (mkChapter 2 (u "B") [u "manga"; u "b"] 1 3 3)
      |exists (mkChapter 1 (u "A") [u "manga"; u "a"] 2 1 2)
      |exists (mkChapter 1 (u "A") [u "manga"; u "a"] 2 1 2)];
      (split; [cbn; tauto|vm_compute; reflexivity]). }
  assert (E : reader_lines_v3 (u "/") unordered_metadata unordered_images
              = Some [PageImage (u "a/9.png") 1 1; PageImage (u "a/10.png") 2 1;
                      ChapterMarker 2 (u "B"); PageImage (u "b/2.png") 3 2])
    by (vm_compute; reflexivity).
  destruct (reader_content_pages_complete (u "/") unordered_metadata unordered_images _
              Hnd Hcov E) as [H1 H2].
  split; [exact Hnd|]. split; [exact E|]. split; [exact H1|exact H2].
Defined.

Lemma reader_pipeline_pages_witness :
  wf_tree nested_tree /\
  reader_lines_v3 (u "/") (scan_and_analyze (fun _ => None) sample_base nested_tree)
                  (walk_images (fun _ => None) sample_base nested_tree)
  = Some [PageImage (u "a/b/y.png") 1 1; PageImage (u "a/x.png") 2 1;
          ChapterMarker 3 (u "C"); PageImage (u "c/z.png") 3 3] /\
  Permutation [u "a/b/y.png"; u "a/x.png"; u "c/z.png"]
    (map (reader_src (u "/") sample_base) (walk_images (fun _ => None) sample_base nested_tree))
  /\ [1; 2; 3] = zseq 1 (Z.to_nat (total_pages
                   (scan_and_analyze (fun _ => None) sample_base nested_tree))).
Proof.
  assert (Hwf : wf_tree nested_tree).
  { cbn. repeat split; try (repeat constructor; cbn; intuition discriminate).
    all: intros f Hf; cbn in Hf; repeat (destruct Hf as [<-|Hf]); try destruct Hf;
         cbn; intuition discriminate. }
  assert (E : reader_lines_v3 (u "/") (scan_and_analyze (fun _ => None) sample_base nested_tree)
                (walk_images (fun _ => None) sample_base nested_tree)
              = Some [PageImage (u "a/b/y.png") 1 1; PageImage (u "a/x.png") 2 1;
                      ChapterMarker 3 (u "C"); PageImage (u "c/z.png") 3 3])
    by (vm_compute; reflexivity).
  destruct (reader_pipeline_pages (fun _ => None) (u "/") sample_base nested_tree _ Hwf E)
    as [H1 H2].
  split; [exact Hwf|]. split; [exact E|]. split; [exact H1|exact H2].
Defined.

(* ------------------------------------------------------------------ *)
(** ** [VirtualScrollMangaGenerator._collect_image_metadata] *)

Lemma startswith_app p s : startswith (p ++ s) p = true.
Proof.
  induction p as [|c p IH]; simpl; [destruct s; reflexivity|].
  rewrite Z.eqb_refl, IH. reflexivity.
Qed.

Lemma join_app_prefix sep f r : exists rest, join sep (f ++ r) = join sep f ++ rest.
Proof.
  induction f as [|a f IH].
  - exists (join sep r). reflexivity.
  - destruct f as [|b f].
    + destruct r as [|c r]; [exists []; simpl; rewrite app_nil_r; reflexivity|].
      exists (sep ++ join sep (c :: r)). reflexivity.
    + destruct IH as [rest Hr].
      exists rest.
      change (join sep ((a :: b :: f) ++ r)) with (a ++ sep ++ join sep ((b :: f) ++ r)).
      rewrite Hr. change (join sep (a :: b :: f)) with (a ++ sep ++ join sep (b :: f)).
      rewrite !app_assoc. reflexivity.
Qed.

Lemma contains_prefix_join sep f p :
  is_prefix f p = true -> contains (join sep f) (join sep p) = true.
Proof.
  intros H. apply is_prefix_app in H as [r ->].
  destruct (join_app_prefix sep f r) as [rest ->].
  pose proof (startswith_app (join sep f) rest) as H.
  revert H. generalize (join sep f ++ rest). intros s H.
  destruct s; exact (orb_true_intro _ _ (or_introl H)).
Qed.

Lemma vs_determine_first sep c r img :
  is_prefix (folder_path c) img = true -> vs_determine_image_chapter sep (c :: r) img = number c.
Proof. intros H. simpl. rewrite contains_prefix_join by exact H. reflexivity. Qed.

Lemma metadata_pages_props sep base imgs n pc :
  map page (metadata_pages sep base imgs n pc) = zseq pc (List.length imgs)
  /\ map src (metadata_pages sep base imgs n pc) = map (reader_src sep base) imgs
  /\ Forall (fun m => chapter m = n /\ im_name m = u "Page " ++ z_to_pystr (page m))
            (metadata_pages sep base imgs n pc).
Proof.
  revert pc; induction imgs as [|img imgs IH]; intros pc; simpl; [repeat split; constructor|].
  destruct (IH (pc + 1)) as [H1 [H2 H3]]. rewrite H1, H2.
  split; [reflexivity|]. split; [reflexivity|]. constructor; [split; reflexivity|exact H3].
Qed.

Lemma metadata_loop_props sep base ci cs pc :
  map page (metadata_loop sep base ci cs pc)
  = zseq pc (List.length (flat_map (chapter_block ci) cs))
  /\ map src (metadata_loop sep base ci cs pc)
     = map (reader_src sep base) (flat_map (chapter_block ci) cs)
  /\ Forall (fun m => (exists c l, In c cs /\ chapter m = number c
                                   /\ dict_get ci (number c) = Some l)
                      /\ im_name m = u "Page " ++ z_to_pystr (page m))
            (metadata_loop sep base ci cs pc).
Proof.
  revert pc; induction cs as [|c cs IH]; intros pc; simpl; [repeat split; constructor|].
  change (chapter_block ci c) with
    (match dict_get ci (number c) with Some l => l | None => [] end).
  destruct (dict_get ci (number c)) as [imgs|] eqn:D.
  - destruct (IH (pc + Z.of_nat (List.length imgs))) as [H1 [H2 H3]].
    destruct (metadata_pages_props sep base imgs (number c) pc) as [H4 [H5 H6]].
    rewrite !map_app, H1, H2, H4, H5, length_app, zseq_app.
    split; [reflexivity|]. split; [reflexivity|]. apply Forall_app. split.
    + eapply Forall_impl; [|exact H6]. intros m [Hc Hn]. split; [|exact Hn].
      exists c, imgs. split; [left; reflexivity|]. split; assumption.
    + eapply Forall_impl; [|exact H3]. intros m [[c' [l [Hc' Hl]]] Hn]. split; [|exact Hn].
      exists c', l. split; [right; exact Hc'|exact Hl].
  - destruct (IH pc) as [H1 [H2 H3]]. split; [exact H1|]. split; [exact H2|].
    eapply Forall_impl; [|exact H3]. intros m [[c' [l [Hc' Hl]]] Hn]. split; [|exact Hn].
    exists c', l. split; [right; exact Hc'|exact Hl].
Qed.

Lemma filter_all_false {A} (p : A -> bool) l :
  (forall y, In y l -> p y = false) -> filter p l = [].
Proof.
  induction l as [|y l IH]; simpl; intros H; [reflexivity|].
  rewrite (H y (or_introl eq_refl)). apply IH. intros z Hz. apply H. right; exact Hz.
Qed.

Lemma analyze_manga_root_first base folders images x :
  In x images -> path_parent x = base ->
  exists c rest, chapters (analyze_manga base folders images) = c :: rest
                 /\ number c = 1 /\ folder_path c = base.
Proof.
  intros Hx Hp. unfold analyze_manga; cbn [chapters].
  assert (Hr : In x (filter (fun img => path_eqb (path_parent img) base) images))
    by (apply filter_In; split; [exact Hx|apply path_eqb_eq; exact Hp]).
  destruct (filter (fun img => path_eqb (path_parent img) base) images) as [|r rs];
    [destruct Hr|].
  eexists; eexists; split; [reflexivity|]. split; reflexivity.
Qed.

Lemma walk_images_under_base guess_type base t img :
  In img (walk_images guess_type base t) -> is_prefix base img = true.
Proof.
  intros H.
  assert (H' : In img (snd (scan_directory guess_type base t))).
  { rewrite scan_directory_images. eapply Permutation_in; [symmetry; apply sort_by_perm|exact H]. }
  destruct (scan_image_under_base guess_type base t img H') as [rel [_ ->]].
  apply is_prefix_app. eauto.
Qed.

(** When the manga folder holds images at its root, the windowed reader
    assigns every page to chapter 1: the root chapter comes first and its
    folder's name is a substring of every image path.  The pages still
    show every image of the walk once, numbered [1, ..., n], each named
    [Page k]. *)
Theorem vs_root_images_all_chapter_one (guess_type : path -> option pystr) (sep : pystr)
  (base : path) (t : tree) (ms : list ImageMetadata) :
  wf_tree t ->
  (exists img, In img (walk_images guess_type base t) /\ path_parent img = base) ->
  collect_image_metadata sep (scan_and_analyze guess_type base t)
                         (walk_images guess_type base t) = Some ms ->
  Forall (fun m => chapter m = 1 /\ im_name m = u "Page " ++ z_to_pystr (page m)) ms
  /\ map page ms = zseq 1 (List.length (walk_images guess_type base t))
  /\ Permutation (map src ms) (map (reader_src sep base) (walk_images guess_type base t)).
Proof.
  intros Hwf [x [Hx Hpx]] H.
  set (all := walk_images guess_type base t) in *.
  set (md := scan_and_analyze guess_type base t) in *.
  assert (Hbase : base_path md = base).
  { unfold md, scan_and_analyze. destruct (scan_directory guess_type base t); reflexivity. }
  assert (Hx' : In x (snd (scan_directory guess_type base t))).
  { rewrite scan_directory_images. eapply Permutation_in; [symmetry; apply sort_by_perm|exact Hx]. }
  assert (Hfirst : exists c rest, chapters md = c :: rest /\ number c = 1 /\ folder_path c = base).
  { unfold md, scan_and_analyze. destruct (scan_directory guess_type base t) as [folders images].
    exact (analyze_manga_root_first base folders images x Hx' Hpx). }
  destruct Hfirst as [c0 [rest [Hcs [Hn0 Hf0]]]].
  assert (Hnd : NoDup (map number (chapters md))).
  { unfold md, scan_and_analyze. destruct (scan_directory guess_type base t) as [folders images].
    apply sorted_lt_nodup. apply analyze_manga_sorted_positive. }
  assert (Hdet : forall img, In img all -> vs_determine_image_chapter sep (chapters md) img = 1).
  { intros img Hi. rewrite Hcs, vs_determine_first; [exact Hn0|].
    rewrite Hf0. exact (walk_images_under_base guess_type base t img Hi). }
  unfold collect_image_metadata in H. rewrite Hbase in H.
  set (key := fun img => natural_sort_key (join sep (skipn (List.length base) img))) in H.
  set (det := vs_determine_image_chapter sep (chapters md)) in H, Hdet.
  destruct (traverse_opt (fun '(n, l) => option_map (pair n) (sort_by_key key l))
             (group_by_chapter det all)) as [ci|] eqn:E; [|discriminate].
  assert (Hms : metadata_loop sep base ci
                  (sort_by (fun a b => number a <? number b) (chapters md)) 1 = ms)
    by congruence.
  subst ms; clear H.
  set (cs := sort_by (fun a b => number a <? number b) (chapters md)).
  assert (Hperm : Permutation (map number cs) (map number (chapters md)))
    by (apply Permutation_map; apply sort_by_perm).
  assert (Hblocks : Permutation (flat_map (chapter_block ci) cs) all).
  { apply (grouped_blocks_perm key det cs all ci); [| |exact E].
    - exact (Permutation_NoDup (Permutation_sym Hperm) Hnd).
    - intros img Hi. apply (Permutation_in _ (Permutation_sym Hperm)).
      rewrite (Hdet img Hi), Hcs, <- Hn0. left; reflexivity. }
  destruct (metadata_loop_props sep base ci cs 1) as [H1 [H2 H3]].
  split; [|split].
  - eapply Forall_impl; [|exact H3]. intros m [[c [l [_ [Hm Hl]]]] Hnm]. split; [|exact Hnm].
    rewrite Hm. destruct (Z.eq_dec (number c) 1) as [e|ne]; [exact e|exfalso].
    pose proof (traverse_sort_dict_get key _ ci (number c) E) as Hg.
    rewrite group_by_chapter_get in Hg.
    assert (Hf : filter (fun img => det img =? number c) all = []).
    { apply filter_all_false. intros y Hy. rewrite (Hdet y Hy). apply Z.eqb_neq. congruence. }
    rewrite Hf in Hg. congruence.
  - rewrite H1, (Permutation_length Hblocks). reflexivity.
  - rewrite H2. apply Permutation_map. exact Hblocks.
Qed.

Lemma vs_root_images_all_chapter_one_witness :
  wf_tree sample_tree /\
  map number (chapters (scan_and_analyze (fun _ => None) sample_base sample_tree)) = [1; 2; 3] /\
  match collect_image_metadata (u "/") (scan_and_analyze (fun _ => None) sample_base sample_tree)
          (walk_images (fun _ => None) sample_base sample_tree) with
  | Some ms =>
      Forall (fun m => chapter m = 1 /\ im_name m = u "Page " ++ z_to_pystr (page m)) ms
      /\ map page ms = zseq 1 5
      /\ Permutation (map src ms)
           (map (reader_src (u "/") sample_base) (walk_images (fun _ => None) sample_base sample_tree))
  | None => False
  end.
Proof.
  assert (Hwf : wf_tree sample_tree) by wf_concrete.
  split; [exact Hwf|]. split; [vm_compute; reflexivity|].
  destruct (collect_image_metadata (u "/") (scan_and_analyze (fun _ => None) sample_base sample_tree)
              (walk_images (fun _ => None) sample_base sample_tree)) as [ms|] eqn:E;
    [|vm_compute in E; discriminate E].
  apply (vs_root_images_all_chapter_one (fun _ => None) (u "/") sample_base sample_tree ms Hwf);
    [|exact E].
  exists [u "manga"; u "root.jpg"]. split; [vm_compute; tauto|reflexivity].
Defined.

(* ------------------------------------------------------------------ *)
(** ** [get_manga_images] *)

Lemma zseq_snoc s n : zseq s (S n) = zseq s n ++ [s + Z.of_nat n].
Proof.
  replace (S n) with (n + 1)%nat by lia. rewrite zseq_app. reflexivity.
Qed.

Lemma prog_append_inv sep folder root files images total :
  prog_inv images total ->
  let '(images', total') := prog_append sep folder root files images total in
  prog_inv images' total'
  /\ map pg_src images'
     = map pg_src images ++ map (fun f => reader_src sep folder (root ++ [f])) files.
Proof.
  revert images total; induction files as [|file files IH]; intros images total Hinv; simpl.
  - split; [exact Hinv|]. rewrite app_nil_r. reflexivity.
  - destruct Hinv as [Ht [Hp Hc]].
    set (e := mkProgImage (total + 1) (reader_src sep folder (root ++ [file])) file
                          (Z.of_nat (List.length images) / 100 + 1)).
    assert (Hinv' : prog_inv (images ++ [e]) (total + 1)).
    { unfold prog_inv. rewrite length_app. simpl.
      split; [lia|]. split.
      - rewrite map_app, Hp, Nat.add_1_r, zseq_snoc. unfold e; cbn [map pg_page]. rewrite Ht. do 2 f_equal. lia.
      - apply Forall_app. split; [exact Hc|]. constructor; [|constructor].
        simpl. f_equal. f_equal. lia. }
    specialize (IH (images ++ [e]) (total + 1) Hinv').
    destruct (prog_append sep folder root files (images ++ [e]) (total + 1)) as [i' t'].
    destruct IH as [IH1 IH2]. split; [exact IH1|].
    rewrite IH2, map_app, <- app_assoc. reflexivity.
Qed.

Lemma sort_with_key_perm k l l' : sort_with_key k l = Some l' -> Permutation l' l.
Proof.
  unfold sort_with_key.
  destruct (traverse_opt _ l) as [kl|] eqn:E; [|discriminate].
  destruct (sort_opt _ kl) as [r|] eqn:Es; [|discriminate].
  intros H; inversion H; subst.
  rewrite <- (traverse_pairs_snd k l kl E). apply Permutation_map.
  exact (sort_opt_perm _ _ _ Es).
Qed.

Lemma prog_walk_inv sep folder ws images total res :
  prog_inv images total ->
  prog_walk sep folder ws images total = Some res ->
  prog_inv (fst res) (snd res)
  /\ Permutation (map pg_src (fst res))
       (map pg_src images
        ++ map (reader_src sep folder)
             (flat_map (fun e => map (fun f => fst e ++ [f])
                        (filter (fun file => str_mem (py_lower (name_suffix file))
                                                     PROGRESSIVE_EXTENSIONS) (snd e))) ws)).
Proof.
  revert images total; induction ws as [|[root files] ws IH]; intros images total Hinv H;
    simpl in H.
  - inversion H; subst. simpl. rewrite app_nil_r. split; [exact Hinv|reflexivity].
  - destruct (sort_with_key progressive_sort_key _) as [sorted|] eqn:Es; [|discriminate].
    pose proof (prog_append_inv sep folder root sorted images total Hinv) as Ha.
    destruct (prog_append sep folder root sorted images total) as [i' t'].
    destruct Ha as [Ha1 Ha2].
    destruct (IH i' t' Ha1 H) as [H1 H2]. split; [exact H1|].
    rewrite H2, Ha2. cbn [flat_map fst snd]. rewrite !map_app, map_map, <- app_assoc.
    apply Permutation_app_head. apply Permutation_app_tail.
    apply Permutation_map. exact (sort_with_key_perm _ _ _ Es).
Qed.

Lemma insert_opt_total {A} (lt : A -> A -> option bool) x l :
  (forall y, In y l -> lt x y <> None) -> insert_opt lt x l <> None.
Proof.
  induction l as [|y l IH]; intros H; simpl; [discriminate|].
  destruct (lt x y) as [[|]|] eqn:E; [discriminate| |exfalso; exact (H y (or_introl eq_refl) E)].
  destruct (insert_opt lt x l) as [r|] eqn:Er; [discriminate|].
  exfalso. apply IH; [intros z Hz; apply H; right; exact Hz|reflexivity].
Qed.

Lemma sort_opt_total_aux {A} (lt : A -> A -> option bool) (S : A -> Prop) l acc :
  (forall a b, S a -> S b -> lt a b <> None) -> Forall S l -> Forall S acc ->
  fold_left (fun acc x => match acc with None => None | Some acc => insert_opt lt x acc end)
            l (Some acc) <> None.
Proof.
  intros Hlt. revert acc; induction l as [|x l IH]; intros acc Hl Hacc; simpl; [discriminate|].
  inversion Hl as [|? ? Hx Hl']; subst.
  destruct (insert_opt lt x acc) as [acc'|] eqn:E.
  - apply IH; [exact Hl'|].
    apply (Permutation_Forall (Permutation_sym (insert_opt_perm lt x acc acc' E))).
    constructor; [exact Hx|exact Hacc].
  - exfalso. refine (insert_opt_total lt x acc _ E).
    intros y Hy. apply Hlt; [exact Hx|]. rewrite Forall_forall in Hacc. exact (Hacc y Hy).
Qed.

Lemma traverse_opt_total {A B} (f : A -> option B) l :
  (forall x, In x l -> f x <> None) -> traverse_opt f l <> None.
Proof.
  induction l as [|x l IH]; intros H; simpl; [discriminate|].
  destruct (f x) as [y|] eqn:E; [|exfalso; exact (H x (or_introl eq_refl) E)].
  destruct (traverse_opt f l) eqn:Er; [discriminate|].
  exfalso; apply IH; [intros z Hz; apply H; right; exact Hz|reflexivity].
Qed.

Lemma traverse_opt_fails {A B} (f : A -> option B) l x :
  In x l -> f x = None -> traverse_opt f l = None.
Proof.
  induction l as [|y l IH]; intros Hin Hx; [destruct Hin|]. simpl.
  destruct Hin as [<-|Hin]; [rewrite Hx; reflexivity|].
  destruct (f y); [|reflexivity]. rewrite (IH Hin Hx). reflexivity.
Qed.

Lemma traverse_opt_in {A B} (f : A -> option B) l r y :
  traverse_opt f l = Some r -> In y r -> exists x, In x l /\ f x = Some y.
Proof.
  revert r; induction l as [|x l IH]; intros r H Hy; simpl in H.
  - inversion H; subst. destruct Hy.
  - destruct (f x) as [z|] eqn:E; [|discriminate].
    destruct (traverse_opt f l) as [r'|] eqn:Er; [|discriminate].
    inversion H; subst. destruct Hy as [<-|Hy].
    + exists x. split; [left; reflexivity|exact E].
    + destruct (IH r' eq_refl Hy) as [x' [Hx' Ex']]. exists x'. split; [right; exact Hx'|exact Ex'].
Qed.

Lemma sort_with_key_progressive_total l :
  (forall x, In x l -> progressive_sort_key x <> None) ->
  sort_with_key progressive_sort_key l <> None.
Proof.
  intros H. unfold sort_with_key.
  destruct (traverse_opt _ l) as [kl|] eqn:E.
  - destruct (sort_opt _ kl) as [r|] eqn:Es; [discriminate|].
    exfalso. refine (sort_opt_total_aux _ (fun p => key_alt true (fst p)) kl [] _ _ _ Es).
    + intros a b Ha Hb. exact (key_lt_defined true (fst a) (fst b) Ha Hb).
    + apply Forall_forall. intros [kx x] Hp.
      destruct (traverse_opt_in _ l kl (kx, x) E Hp) as [x' [_ Ex']].
      destruct (progressive_sort_key x') as [k|] eqn:Ek; [|discriminate].
      cbn [option_map] in Ex'. injection Ex' as <- _.
      rewrite progressive_natural_key in Ek. exact (natural_sort_key_alt x' k Ek).
    + constructor.
  - exfalso. refine (traverse_opt_total _ l _ E).
    intros x Hx. specialize (H x Hx). destruct (progressive_sort_key x); [discriminate|].
    exact (fun _ => H eq_refl).
Qed.

Lemma sort_with_key_fails k l x :
  In x l -> k x = None -> sort_with_key k l = None.
Proof.
  intros Hin Hx. unfold sort_with_key.
  rewrite (traverse_opt_fails _ l x Hin); [reflexivity|]. rewrite Hx. reflexivity.
Qed.

Lemma prog_walk_total sep folder ws images total :
  (forall e file, In e ws -> In file (prog_selected (snd e)) -> progressive_sort_key file <> None) ->
  prog_walk sep folder ws images total <> None.
Proof.
  revert images total; induction ws as [|[root files] ws IH]; intros images total H;
    simpl; [discriminate|].
  destruct (sort_with_key progressive_sort_key _) as [sorted|] eqn:Es.
  - destruct (prog_append sep folder root sorted images total) as [i' t'].
    apply IH. intros e file He Hf. exact (H e file (or_intror He) Hf).
  - exfalso. refine (sort_with_key_progressive_total _ _ Es).
    intros x Hx. exact (H (root, files) x (or_introl eq_refl) Hx).
Qed.

Lemma prog_walk_fails sep folder ws images total e file :
  In e ws -> In file (prog_selected (snd e)) -> progressive_sort_key file = None ->
  prog_walk sep folder ws images total = None.
Proof.
  revert images total; induction ws as [|[root files] ws IH]; intros images total He Hf Hk;
    [destruct He|]. cbn [prog_walk].
  destruct He as [He|He]; [subst e|].
  - unfold prog_selected in Hf. cbn [snd] in Hf. rewrite (sort_with_key_fails _ _ file Hf Hk). reflexivity.
  - destruct (sort_with_key progressive_sort_key _) as [sorted|]; [|reflexivity].
    destruct (prog_append sep folder root sorted images total) as [i' t'].
    exact (IH i' t' He Hf Hk).
Qed.

Lemma progressive_files_in folder_path t f :
  In f (progressive_files folder_path t) <->
  exists e file, In e (walk folder_path t) /\ In file (prog_selected (snd e)) /\ f = fst e ++ [file].
Proof.
  unfold progressive_files. rewrite in_flat_map. split.
  - intros [e [He Hf]]. apply in_map_iff in Hf. destruct Hf as [file [<- Hfile]].
    exists e, file. split; [exact He|split; [exact Hfile|reflexivity]].
  - intros [e [file [He [Hfile ->]]]]. exists e. split; [exact He|].
    apply in_map_iff. exists file. split; [reflexivity|exact Hfile].
Qed.

Lemma path_name_snoc (p : path) (file : pystr) : path_name (p ++ [file]) = file.
Proof. unfold path_name. apply last_last. Qed.

(** [get_manga_images] returns as many pages as it counts, numbered
    [1, ..., n], with chapter [(page - 1) // 100 + 1] for each page.  When
    the sort key of every selected image file (extension [.png], [.jpg],
    [.jpeg], [.gif], [.bmp], [.webp], [.avif], any case) can be computed,
    it lists each of these files exactly once; when the key of one of them
    raises ([int] of a run of digits that is not a decimal number), the
    exception handler returns [([], 0)]. *)
Theorem get_manga_images_pages (sep : pystr) (folder_path : path) (t : tree) :
  let '(images, total_pages) := get_manga_images sep folder_path t in
  prog_inv images total_pages
  /\ ((forall f, In f (progressive_files folder_path t) ->
                 progressive_sort_key (path_name f) <> None) ->
      Permutation (map pg_src images)
                  (map (reader_src sep folder_path) (progressive_files folder_path t)))
  /\ ((exists f, In f (progressive_files folder_path t) /\
                 progressive_sort_key (path_name f) = None) ->
      images = [] /\ total_pages = 0).
Proof.
  unfold get_manga_images.
  destruct (prog_walk sep folder_path (walk folder_path t) [] 0) as [[images total]|] eqn:E.
  - assert (H0 : prog_inv [] 0) by (repeat split; constructor).
    destruct (prog_walk_inv sep folder_path _ [] 0 _ H0 E) as [H1 H2].
    split; [exact H1|]. split; [intros _; exact H2|].
    intros [f [Hf Hk]]. apply progressive_files_in in Hf.
    destruct Hf as [e [file [He [Hfile ->]]]]. rewrite path_name_snoc in Hk.
    rewrite (prog_walk_fails sep folder_path _ [] 0 e file He Hfile Hk) in E. discriminate.
  - split; [repeat split; constructor|]. split.
    + intros H. exfalso. refine (prog_walk_total sep folder_path _ [] 0 _ E).
      intros e file He Hfile. rewrite <- (path_name_snoc (fst e) file). apply H.
      apply progressive_files_in. exists e, file. split; [exact He|split; [exact Hfile|reflexivity]].
    + intros _. split; reflexivity.
Qed.

(* ------------------------------------------------------------------ *)
(** ** [BookshelfScanner._ensure_optimal_reader] *)

Lemma ensure_optimal_reader_small sep folder_path rel st listable script_exists page_count :
  page_count <= 5000 ->
  ensure_optimal_reader sep folder_path rel st listable script_exists page_count
  = (find_reader_file sep rel (map fst st) listable, st).
Proof.
  intros Hp. unfold ensure_optimal_reader.
  replace (5000 <? page_count) with false by (symmetry; apply Z.ltb_ge; exact Hp).
  reflexivity.
Qed.

(** The reader link of a book folder: up to 5000 pages, the reader
    [find_reader_file] finds, the folder unchanged.  Above 5000 pages:
    the windowed reader [index-mb-virtualscroll.html] when it exists;
    when it is missing and the helper script is present, it is made as a
    copy of the file [manga-reader-fix.html], or of the file
    [index-mb.html] when there is no [manga-reader-fix.html], and the link
    is to the copy; when the script is missing, or there is no template, or
    the template chosen is a directory (the copy raises and the
    [RuntimeError] is logged), the reader found before, the folder
    unchanged.  A folder that had a reader never loses its link. *)
Theorem ensure_optimal_reader_choice (sep : pystr) (folder_path rel : path)
  (st : folder_state) (listable script_exists : bool) (page_count : Z) :
  let existing := find_reader_file sep rel (map fst st) listable in
  let vfile := emit_rel sep (rel ++ [VIRTUALSCROLL_OUTPUT]) in
  let res := ensure_optimal_reader sep folder_path rel st listable script_exists page_count in
  (page_count <= 5000 -> res = (existing, st))
  /\ (5000 < page_count -> fs_exists st VIRTUALSCROLL_OUTPUT = true -> res = (Some vfile, st))
  /\ (5000 < page_count -> fs_exists st VIRTUALSCROLL_OUTPUT = false -> script_exists = true ->
      forall data, fs_get st MANGA_READER_FIX = Some (FsFile data) ->
      exists st', res = (Some vfile, st')
                  /\ fs_get st' VIRTUALSCROLL_OUTPUT = Some (FsFile data))
  /\ (5000 < page_count -> fs_exists st VIRTUALSCROLL_OUTPUT = false -> script_exists = true ->
      fs_get st MANGA_READER_FIX = None ->
      forall data, fs_get st INDEX_MB = Some (FsFile data) ->
      exists st', res = (Some vfile, st')
                  /\ fs_get st' VIRTUALSCROLL_OUTPUT = Some (FsFile data))
  /\ (5000 < page_count -> fs_exists st VIRTUALSCROLL_OUTPUT = false ->
      (script_exists = false
       \/ fs_get st MANGA_READER_FIX = Some FsDir
       \/ (fs_get st MANGA_READER_FIX = None
           /\ (fs_get st INDEX_MB = None \/ fs_get st INDEX_MB = Some FsDir))) ->
      res = (existing, st))
  /\ (fst res = None -> existing = None).
Proof.
  intros existing vfile res.
  assert (Hrest : forall st' : folder_state,
             fst (if (5000 <? page_count) && fs_exists st VIRTUALSCROLL_OUTPUT
                  then (Some vfile, st') else (existing, st')) = None ->
                              existing = None).
  { intros st'. destruct (_ && _); simpl; [discriminate|exact (fun H => H)]. }
  split; [|split; [|split; [|split; [|split]]]].
  - intros Hp. exact (ensure_optimal_reader_small sep folder_path rel st listable
                         script_exists page_count Hp).
  - intros Hp He. unfold res, ensure_optimal_reader.
    replace (5000 <? page_count) with true by (symmetry; apply Z.ltb_lt; exact Hp).
    rewrite He. reflexivity.
  - intros Hp He Hs data Hf. unfold res, ensure_optimal_reader.
    replace (5000 <? page_count) with true by (symmetry; apply Z.ltb_lt; exact Hp).
    rewrite He, Hs. cbn [andb negb].
    assert (Hout : fs_get st VIRTUALSCROLL_OUTPUT <> Some FsDir).
    { unfold fs_exists in He. destruct (fs_get st VIRTUALSCROLL_OUTPUT); congruence. }
    exists (fs_put st VIRTUALSCROLL_OUTPUT (FsFile data)).
    unfold create_virtual_scroll_reader, create_progressive_reader.
    unfold fs_exists at 1. rewrite Hf, (copy2_file st MANGA_READER_FIX data Hf Hout).
    split; [reflexivity|apply fs_get_put_same].
  - intros Hp He Hs Hm data Hb. unfold res, ensure_optimal_reader.
    replace (5000 <? page_count) with true by (symmetry; apply Z.ltb_lt; exact Hp).
    rewrite He, Hs. cbn [andb negb].
    assert (Hout : fs_get st VIRTUALSCROLL_OUTPUT <> Some FsDir).
    { unfold fs_exists in He. destruct (fs_get st VIRTUALSCROLL_OUTPUT); congruence. }
    exists (fs_put st VIRTUALSCROLL_OUTPUT (FsFile data)).
    unfold create_virtual_scroll_reader, create_progressive_reader.
    unfold fs_exists at 1 2. rewrite Hm, Hb, (copy2_file st INDEX_MB data Hb Hout).
    split; [reflexivity|apply fs_get_put_same].
  - intros Hp He Hc. unfold res, ensure_optimal_reader.
    replace (5000 <? page_count) with true by (symmetry; apply Z.ltb_lt; exact Hp).
    rewrite He. cbn [andb negb].
    destruct script_exists; [|reflexivity].
    destruct Hc as [Hs|Hc]; [discriminate|].
    unfold create_virtual_scroll_reader, create_progressive_reader.
    unfold fs_exists at 1 2.
    destruct Hc as [Hf|[Hf [Hb|Hb]]]; rewrite Hf; [|rewrite Hb; reflexivity|rewrite Hb].
    + unfold copy2. rewrite Hf. reflexivity.
    + unfold copy2. rewrite Hb. reflexivity.
  - unfold res, ensure_optimal_reader.
    destruct ((5000 <? page_count) && negb (fs_exists st VIRTUALSCROLL_OUTPUT)).
    + destruct script_exists; [|apply Hrest].
      destruct (create_virtual_scroll_reader folder_path (Some st)) as [[o|] f'].
      * simpl. discriminate.
      * apply Hrest.
    + apply Hrest.
Qed.

(** The sample book folder, a folder with only [index-mb.html], and a
    folder whose [manga-reader-fix.html] is a directory. *)
Lemma ensure_optimal_reader_choice_witness :
  (5000 < 6000 /\ fs_exists sample_book_folder VIRTUALSCROLL_OUTPUT = false
   /\ fs_get sample_book_folder MANGA_READER_FIX = Some (FsFile (u "<html>fix</html>"))) /\
  (exists st', ensure_optimal_reader (u "/") [u "shelf"; u "book"] [u "book"]
                sample_book_folder true true 6000
              = (Some (u "book/index-mb-virtualscroll.html"), st')
    /\ fs_get st' VIRTUALSCROLL_OUTPUT = Some (FsFile (u "<html>fix</html>"))) /\
  (exists st', ensure_optimal_reader (u "/") [u "shelf"; u "book"] [u "book"]
                [(INDEX_MB, FsFile (u "<html>index-mb</html>"))] true true 6000
              = (Some (u "book/index-mb-virtualscroll.html"), st')
    /\ fs_get st' VIRTUALSCROLL_OUTPUT = Some (FsFile (u "<html>index-mb</html>"))) /\
  ensure_optimal_reader (u "/") [u "shelf"; u "book"] [u "book"]
    [(MANGA_READER_FIX, FsDir); (INDEX_MB, FsFile (u "<html>index-mb</html>"))] true true 6000
  = (Some (u "book/index-mb.html"), [(MANGA_READER_FIX, FsDir); (INDEX_MB, FsFile (u "<html>index-mb</html>"))]).
Proof.
  assert (Hp : 5000 < 6000) by lia.
  assert (He : fs_exists sample_book_folder VIRTUALSCROLL_OUTPUT = false)
    by (vm_compute; reflexivity).
  assert (Hf : fs_get sample_book_folder MANGA_READER_FIX = Some (FsFile (u "<html>fix</html>")))
    by (vm_compute; reflexivity).
  split; [split; [exact Hp|split; [exact He|exact Hf]]|].
  destruct (ensure_optimal_reader_choice (u "/") [u "shelf"; u "book"] [u "book"]
              sample_book_folder true true 6000) as [_ [_ [H3 _]]].
  destruct (H3 Hp He eq_refl _ Hf) as [st' [E F]].
  split; [exists st'; split; [rewrite E; vm_compute; reflexivity|exact F]|].
  split.
  - destruct (ensure_optimal_reader_choice (u "/") [u "shelf"; u "book"] [u "book"]
                [(INDEX_MB, FsFile (u "<html>index-mb</html>"))] true true 6000)
      as [_ [_ [_ [H4 _]]]].
    destruct (H4 Hp ltac:(vm_compute; reflexivity) eq_refl ltac:(vm_compute; reflexivity)
                 _ ltac:(vm_compute; reflexivity)) as [st'' [E' F']].
    exists st''. split; [rewrite E'; vm_compute; reflexivity|exact F'].
  - destruct (ensure_optimal_reader_choice (u "/") [u "shelf"; u "book"] [u "book"]
                [(MANGA_READER_FIX, FsDir); (INDEX_MB, FsFile (u "<html>index-mb</html>"))]
                true true 6000) as [_ [_ [_ [_ [H5 _]]]]].
    assert (He5 : fs_exists [(MANGA_READER_FIX, FsDir); (INDEX_MB, FsFile (u "<html>index-mb</html>"))]
                    VIRTUALSCROLL_OUTPUT = false) by (vm_compute; reflexivity).
    assert (Hd5 : fs_get [(MANGA_READER_FIX, FsDir); (INDEX_MB, FsFile (u "<html>index-mb</html>"))]
                    MANGA_READER_FIX = Some FsDir) by (vm_compute; reflexivity).
    rewrite (H5 Hp He5 (or_intror (or_introl Hd5))).
    vm_compute. reflexivity.
Defined.

(* ------------------------------------------------------------------ *)
(** ** [BookshelfScanner._extract_title] *)

Lemma split_char_parts c s : forall w, In w (split_char c s) -> ~ In c w.
Proof.
  induction s as [|x s IH]; simpl; intros w Hw.
  - destruct Hw as [<-|[]]. intros [].
  - destruct (Z.eqb_spec x c) as [E|E].
    + destruct Hw as [<-|Hw]; [intros []|exact (IH w Hw)].
    + destruct (split_char c s) as [|w0 ws] eqn:Es.
      * destruct Hw as [<-|[]]. intros [H|[]]. congruence.
      * destruct Hw as [<-|Hw].
        -- intros [H|H]; [congruence|]. exact (IH w0 (or_introl eq_refl) H).
        -- exact (IH w (or_intror Hw)).
Qed.

Lemma split_char_nonempty c s : split_char c s <> [].
Proof.
  destruct s as [|x s]; simpl; [discriminate|].
  destruct (x =? c); [discriminate|]. destruct (split_char c s); discriminate.
Qed.

Lemma last_in {A} (l : list A) d : l <> [] -> In (last l d) l.
Proof.
  induction l as [|x l IH]; intros H; [congruence|].
  destruct l as [|y l]; [left; reflexivity|]. right. apply IH. discriminate.
Qed.

Lemma lstrip_by_in f s x : In x (lstrip_by f s) -> In x s.
Proof.
  induction s as [|c s IH]; simpl; [tauto|].
  destruct (f c); [intros H; right; exact (IH H)|tauto].
Qed.

Lemma strip_by_in f s x : In x (strip_by f s) -> In x s.
Proof.
  unfold strip_by. intros H. apply in_rev in H. apply lstrip_by_in in H.
  apply in_rev in H. exact (lstrip_by_in f s x H).
Qed.

(** [_extract_title] never returns an empty title for a non-empty folder
    name, and it returns either the folder name itself or a title with no
    dot and no underscore. *)
Theorem extract_title_clean (folder_name : pystr) :
  (folder_name <> [] -> extract_title folder_name <> [])
  /\ (extract_title folder_name = folder_name
      \/ (~ In DOT (extract_title folder_name) /\ ~ In 95 (extract_title folder_name))).
Proof.
  unfold extract_title.
  set (seg := last (split_char DOT folder_name) []).
  assert (Hseg : ~ In DOT seg).
  { apply split_char_parts with (s := folder_name).
    apply last_in. apply split_char_nonempty. }
  change (u "_") with [95]. change (u " ") with [32]. rewrite py_replace_char.
  destruct (py_strip (map (fun x => if x =? 95 then 32 else x) seg)) as [|a t] eqn:E.
  - split; [exact (fun H => H)|left; reflexivity].
  - split; [discriminate|right].
    assert (Hin : forall x, In x (a :: t) -> In x (map (fun x => if x =? 95 then 32 else x) seg)).
    { intros x Hx. rewrite <- E in Hx. exact (strip_by_in _ _ _ Hx). }
    split.
    + intros Hd. apply Hin in Hd. apply in_map_iff in Hd as [y [Hy Hy']].
      destruct (Z.eqb_spec y 95); [unfold DOT in Hy; lia|]. subst y. exact (Hseg Hy').
    + intros Hu. apply Hin in Hu. apply in_map_iff in Hu as [y [Hy _]].
      destruct (Z.eqb_spec y 95); lia.
Qed.

Lemma extract_title_clean_witness :
  u "Series.My_Book" <> [] /\ extract_title (u "Series.My_Book") <> [] /\
  extract_title (u "Series.My_Book") = u "My Book" /\ extract_title (u "abc.") = u "abc.".
Proof.
  assert (H : u "Series.My_Book" <> []) by (vm_compute; discriminate).
  split; [exact H|]. split; [exact (proj1 (extract_title_clean _) H)|].
  split; vm_compute; reflexivity.
Defined.

(* ------------------------------------------------------------------ *)
(** ** [BookshelfGenerator.generate] *)

Lemma scan_books_none sep base_path script_exists cover_search entries :
  (forall name st listable t, In (name, ShelfDir st listable t) entries ->
     find_reader_file sep [name] (map fst st) listable = None
     /\ fst (count_content t) <= 5000) ->
  scan_books sep base_path script_exists cover_search entries = ([], entries).
Proof.
  induction entries as [|[name e] entries IH]; intros H; [reflexivity|].
  assert (IH' : scan_books sep base_path script_exists cover_search entries = ([], entries))
    by (apply IH; intros n st l t Hin; apply (H n st l t); right; exact Hin).
  destruct e as [|st listable t]; simpl; rewrite IH'; [reflexivity|].
  destruct (H name st listable t (or_introl eq_refl)) as [Hr Hc].
  unfold analyze_book_folder.
  destruct (count_content t) as [page_count subfolder_count] eqn:Ec. cbn [fst] in Hc.
  rewrite ensure_optimal_reader_small by exact Hc. rewrite Hr. reflexivity.
Qed.

(** When no book folder has a reader file yet and none has more than 5000
    pages, [generate] finds no book and returns [None]: it leaves the
    collection as it was and generates no reader, even when asked to. *)
Theorem bookshelf_no_reader_no_books (sep : pystr) (base_path : path) (script_exists : bool)
  (cover_search : path -> tree -> option pystr)
  (generate_reader : pystr -> shelf_entry -> shelf_entry)
  (generate_readers : bool) (output_filename : pystr) (entries : list (pystr * shelf_entry)) :
  (forall name st listable t, In (name, ShelfDir st listable t) entries ->
     find_reader_file sep [name] (map fst st) listable = None
     /\ fst (count_content t) <= 5000) ->
  bookshelf_generate sep base_path script_exists cover_search generate_reader
                     generate_readers output_filename entries
  = (None, entries, []).
Proof.
  intros H. unfold bookshelf_generate.
  rewrite (scan_books_none sep base_path script_exists cover_search entries H). reflexivity.
Qed.

Lemma bookshelf_no_reader_no_books_witness :
  (forall name st listable t, In (name, ShelfDir st listable t) fresh_shelf ->
     find_reader_file (u "/") [name] (map fst st) listable = None
     /\ fst (count_content t) <= 5000) /\
  bookshelf_generate (u "/") [u "shelf"] true (fun _ _ => None)
    (fun _ _ => ShelfDir [(INDEX_MB, FsFile [])] true (Node [INDEX_MB] []))
    true (u "index.html") fresh_shelf
  = (None, fresh_shelf, []).
Proof.
  assert (H : forall name st listable t, In (name, ShelfDir st listable t) fresh_shelf ->
                find_reader_file (u "/") [name] (map fst st) listable = None
                /\ fst (count_content t) <= 5000).
  { intros name st listable t Hin. cbn in Hin.
    destruct Hin as [Hin|[Hin|[]]]; [|discriminate Hin].
    injection Hin as <- <- <- <-. split; [vm_compute; reflexivity|vm_compute; discriminate]. }
  split; [exact H|].
  exact (bookshelf_no_reader_no_books (u "/") [u "shelf"] true (fun _ _ => None)
           (fun _ _ => ShelfDir [(INDEX_MB, FsFile [])] true (Node [INDEX_MB] []))
           true (u "index.html") fresh_shelf H).
Defined.

(* ------------------------------------------------------------------ *)
(** ** The scan of htmlc.py (lines 3-13 and 40-44) *)

Lemma join_snoc sep p x : p <> [] -> join sep (p ++ [x]) = join sep p ++ sep ++ x.
Proof.
  intros Hp. induction p as [|a p IH]; [congruence|].
  destruct p as [|b p]; [reflexivity|].
  change (join sep ((a :: b :: p) ++ [x])) with (a ++ sep ++ join sep ((b :: p) ++ [x])).
  rewrite IH by discriminate.
  change (join sep (a :: b :: p)) with (a ++ sep ++ join sep (b :: p)).
  rewrite !app_assoc. reflexivity.
Qed.

Lemma flat_map_ext_in_list {A B} (f g : A -> list B) l :
  (forall x, In x l -> f x = g x) -> flat_map f l = flat_map g l.
Proof.
  induction l as [|x l IH]; intros H; [reflexivity|].
  cbn [flat_map]. rewrite (H x) by (left; reflexivity).
  rewrite IH by (intros y Hy; apply H; right; exact Hy). reflexivity.
Qed.

Lemma flat_map_flat_map_list {A B C} (f : B -> list C) (g : A -> list B) l :
  flat_map f (flat_map g l) = flat_map (fun x => flat_map f (g x)) l.
Proof.
  induction l as [|x l IH]; [reflexivity|].
  cbn [flat_map]. rewrite flat_map_app, IH. reflexivity.
Qed.

Lemma tree_file_paths_node p fs ds :
  tree_file_paths p (Node fs ds) =
  map (fun f => join [BACKSLASH] (p ++ [f])) fs ++
  flat_map (fun '(n, t') => tree_file_paths (p ++ [n]) t') ds.
Proof.
  unfold tree_file_paths at 1. cbn [walk flat_map fst snd]. f_equal.
  rewrite flat_map_flat_map_list. apply flat_map_ext_in_list.
  intros [n t'] _. reflexivity.
Qed.

Lemma tree_file_paths_join p q t :
  p <> [] -> q <> [] -> join [BACKSLASH] p = join [BACKSLASH] q ->
  tree_file_paths p t = tree_file_paths q t.
Proof.
  revert p q. induction t as [fs ds IH] using tree_ind'. intros p q Hp Hq Hj.
  rewrite !tree_file_paths_node. f_equal.
  - apply map_ext. intros f. rewrite !join_snoc by assumption. rewrite Hj. reflexivity.
  - apply flat_map_ext_in_list. intros [n t'] Hin.
    apply (IH n t' Hin); try (destruct p; discriminate); try (destruct q; discriminate).
    rewrite !join_snoc by assumption. rewrite Hj. reflexivity.
Qed.

Lemma tree_dir_paths_node p fs ds :
  tree_dir_paths p (Node fs ds) =
  join [BACKSLASH] p :: flat_map (fun '(n, t') => tree_dir_paths (p ++ [n]) t') ds.
Proof.
  unfold tree_dir_paths at 1. cbn [walk map fst]. f_equal.
  induction ds as [|[n t'] ds IH]; [reflexivity|].
  cbn [flat_map]. rewrite map_app. f_equal. exact IH.
Qed.

Lemma tree_dir_paths_join p q t :
  p <> [] -> q <> [] -> join [BACKSLASH] p = join [BACKSLASH] q ->
  tree_dir_paths p t = tree_dir_paths q t.
Proof.
  revert p q. induction t as [fs ds IH] using tree_ind'. intros p q Hp Hq Hj.
  rewrite !tree_dir_paths_node, Hj. f_equal.
  apply flat_map_ext_in_list. intros [n t'] Hin.
  apply (IH n t' Hin); try (destruct p; discriminate); try (destruct q; discriminate).
  rewrite !join_snoc by assumption. rewrite Hj. reflexivity.
Qed.

(** The sub-folders [getAllFiles] queues for the folder [s]. *)
Lemma queued_file_paths s ds :
  flat_map (fun '(s0, t) => tree_file_paths [s0] t)
           (map (fun '(file, t) => (s ++ [BACKSLASH] ++ file, t)) ds) =
  flat_map (fun '(n, t') => tree_file_paths ([s] ++ [n]) t') ds.
Proof.
  rewrite flat_map_map_comm. apply flat_map_ext_in_list.
  intros [n t'] _. apply tree_file_paths_join; try discriminate. reflexivity.
Qed.

Lemma queued_dir_paths s ds :
  flat_map (fun '(s0, t) => tree_dir_paths [s0] t)
           (map (fun '(file, t) => (s ++ [BACKSLASH] ++ file, t)) ds) =
  flat_map (fun '(n, t') => tree_dir_paths ([s] ++ [n]) t') ds.
Proof.
  rewrite flat_map_map_comm. apply flat_map_ext_in_list.
  intros [n t'] _. apply tree_dir_paths_join; try discriminate. reflexivity.
Qed.

Lemma queued_count_dirs s ds :
  map (fun '((_, t) : pystr * tree) => count_dirs t)
      (map (fun '(file, t) => (s ++ [BACKSLASH] ++ file, t)) ds) =
  map (fun '((_, t) : pystr * tree) => count_dirs t) ds.
Proof. rewrite map_map. apply map_ext. intros [n t']. reflexivity. Qed.

Lemma count_dirs_pos t : (1 <= count_dirs t)%nat.
Proof. destruct t; cbn [count_dirs]; lia. Qed.

Lemma getAllFiles_loop_extends readable fuel Q files r :
  getAllFiles_loop readable fuel Q files = Some r ->
  exists rest, snd r = files ++ rest.
Proof.
  revert Q files. induction fuel as [|fuel IH]; intros Q files H.
  - inversion H; subst. exists []. rewrite app_nil_r. reflexivity.
  - destruct Q as [|[s [fs ds]] rest].
    + inversion H; subst. exists []. rewrite app_nil_r. reflexivity.
    + cbn [getAllFiles_loop getAllFiles] in H.
      destruct (readable s); [|discriminate].
      destruct (IH _ _ H) as [r' Hr].
      exists (map (fun file => s ++ [BACKSLASH] ++ file) fs ++ r').
      rewrite Hr, app_assoc. reflexivity.
Qed.

Lemma getAllFiles_loop_perm readable fuel Q files :
  (list_sum (map (fun '(_, t) => count_dirs t) Q) <= fuel)%nat ->
  (forall d, In d (flat_map (fun '(s, t) => tree_dir_paths [s] t) Q) -> readable d = true) ->
  exists files', getAllFiles_loop readable fuel Q files = Some ([], files') /\
    Permutation files' (files ++ flat_map (fun '(s, t) => tree_file_paths [s] t) Q).
Proof.
  revert Q files. induction fuel as [|fuel IH]; intros Q files Hle Hr.
  - destruct Q as [|[s t] rest].
    + exists files. rewrite app_nil_r. split; reflexivity.
    + exfalso. simpl in Hle. pose proof (count_dirs_pos t). lia.
  - destruct Q as [|[s [fs ds]] rest].
    + exists files. rewrite app_nil_r. split; reflexivity.
    + cbn [getAllFiles_loop getAllFiles].
      assert (Hs : readable s = true).
      { apply Hr. cbn [flat_map]. rewrite tree_dir_paths_node. left; reflexivity. }
      rewrite Hs.
      set (ds' := map (fun '(file, t) => (s ++ [BACKSLASH] ++ file, t)) ds).
      destruct (IH (rest ++ ds') (files ++ map (fun file => s ++ [BACKSLASH] ++ file) fs))
        as [files' [Hrun Hperm]].
      { rewrite map_app, list_sum_app. unfold ds'. rewrite queued_count_dirs.
        simpl in Hle. lia. }
      { intros d Hd. apply Hr. rewrite flat_map_app in Hd. apply in_app_or in Hd.
        cbn [flat_map]. rewrite tree_dir_paths_node. apply in_or_app.
        destruct Hd as [Hd|Hd]; [right; exact Hd|left; right].
        unfold ds' in Hd. rewrite queued_dir_paths in Hd. exact Hd. }
      exists files'. split; [exact Hrun|].
      rewrite Hperm. cbn [flat_map]. rewrite tree_file_paths_node, flat_map_app.
      unfold ds'. rewrite queued_file_paths.
      assert (Hm : map (fun f => join [BACKSLASH] ([s] ++ [f])) fs =
                   map (fun file => s ++ [BACKSLASH] ++ file) fs) by reflexivity.
      rewrite Hm, <- !app_assoc. apply Permutation_app_head.
      apply Permutation_app_head. apply Permutation_app_comm.
Qed.

Lemma getAllFiles_loop_fails readable fuel Q files d :
  (list_sum (map (fun '(_, t) => count_dirs t) Q) <= fuel)%nat ->
  In d (flat_map (fun '(s, t) => tree_dir_paths [s] t) Q) -> readable d = false ->
  getAllFiles_loop readable fuel Q files = None.
Proof.
  revert Q files. induction fuel as [|fuel IH]; intros Q files Hle Hd Hr.
  - destruct Q as [|[s t] rest]; [destruct Hd|].
    exfalso. simpl in Hle. pose proof (count_dirs_pos t). lia.
  - destruct Q as [|[s [fs ds]] rest]; [destruct Hd|].
    cbn [getAllFiles_loop getAllFiles].
    destruct (readable s) eqn:Hs; [|reflexivity].
    apply IH.
    + rewrite map_app, list_sum_app, queued_count_dirs. simpl in Hle. lia.
    + cbn [flat_map] in Hd. rewrite tree_dir_paths_node in Hd.
      rewrite flat_map_app, queued_dir_paths. apply in_or_app.
      destruct Hd as [Hd|Hd]; [cbn [join] in Hd; subst d; congruence|].
      apply in_app_or in Hd. destruct Hd as [Hd|Hd]; [right; exact Hd|left; exact Hd].
    + exact Hr.
Qed.

(** X12: on Windows, for a folder [path] whose tree (as [os.listdir] and
    [os.path.isdir] see it, links to directories followed; a finite tree,
    so with no cycle of such links) has files [fs] and sub-folders [ds]:
    when [os.listdir] succeeds on every directory of the tree, the scan of
    htmlc.py (lines 40-44 driving [getAllFiles]) stops with
    [foldersArray] empty after one call per directory, and [filesArray]
    holds the path of every file of the tree exactly once, joined with
    backslashes, starting with the files of [path] itself in listing
    order; when [os.listdir] raises on some directory of the tree, the
    scan ends with that uncaught exception. *)
Theorem htmlc_scan_collects_all_files readable path fs ds :
  ((forall d, In d (tree_dir_paths [path] (Node fs ds)) -> readable d = true) ->
   exists filesArray, htmlc_scan readable path (Node fs ds) = Some ([], filesArray) /\
     Permutation filesArray (tree_file_paths [path] (Node fs ds)) /\
     exists rest, filesArray = map (fun file => path ++ [BACKSLASH] ++ file) fs ++ rest)
  /\ ((exists d, In d (tree_dir_paths [path] (Node fs ds)) /\ readable d = false) ->
      htmlc_scan readable path (Node fs ds) = None).
Proof.
  unfold htmlc_scan. split.
  - intros Hr.
    destruct (getAllFiles_loop_perm readable (count_dirs (Node fs ds)) [(path, Node fs ds)] [])
      as [files' [Hrun Hp]].
    { simpl. lia. }
    { intros d Hd. apply Hr. cbn [flat_map] in Hd. rewrite app_nil_r in Hd. exact Hd. }
    exists files'. split; [exact Hrun|]. split.
    + rewrite Hp. cbn [flat_map app]. rewrite app_nil_r. reflexivity.
    + assert (Hs : readable path = true)
        by (apply Hr; rewrite tree_dir_paths_node; left; reflexivity).
      revert Hrun. cbn [count_dirs getAllFiles_loop getAllFiles]. rewrite Hs. intros Hrun.
      destruct (getAllFiles_loop_extends _ _ _ _ _ Hrun) as [r Hr'].
      exists r. exact Hr'.
  - intros [d [Hd Hf]].
    apply (getAllFiles_loop_fails readable _ _ [] d); [simpl; lia| |exact Hf].
    cbn [flat_map]. rewrite app_nil_r. exact Hd.
Qed.

(** A folder [m] with [1.png] and a sub-folder [a] holding [2.png]: the
    scan lists both files; when [os.listdir] raises on [m\a] the scan
    ends with the exception. *)
Lemma htmlc_scan_example :
  htmlc_scan (fun _ => true) (u "m") (Node [u "1.png"] [(u "a", Node [u "2.png"] [])])
  = Some ([], [u "m\1.png"; u "m\a\2.png"]) /\
  htmlc_scan (fun d => negb (str_eqb d (u "m\a"))) (u "m")
    (Node [u "1.png"] [(u "a", Node [u "2.png"] [])]) = None.
Proof. split; vm_compute; reflexivity. Qed.
